(** * A retrieval-augmented chat agent: model and properties

    Shallow embedding of the TypeScript services of the RAG agent
    (session memory, vector store, document chunker, persistent index,
    plugins, the per-turn orchestrator and the routes) together with the
    properties the specification states about them, and further
    properties read off the code.

    Conventions.
    - JavaScript numbers are IEEE 754 binary64 values: they are modelled
      by Rocq's primitive floats, whose operations are the same correctly
      rounded ones.  Array and string indices, which the code only ever
      uses as integers, are modelled in [Z].
    - JavaScript strings are sequences of code units; the model keeps the
      code units below 256 ([ascii]).
    - The services are process-wide singletons: their fields live in one
      [World] record, threaded through a state-and-exception monad.
      Mutations made before a [throw] stay, as in JavaScript.
    - What is outside the repository (the Gemini SDK, axios, mathjs, the
      clock, Math.random, Number-to-string) is an oracle of [Env].
    - An asynchronous call runs to completion before the next statement:
      one request is served at a time.
    - Express runs the middleware in the order it is mounted; an error
      handed to [next], or thrown by a middleware, skips to the error
      handler of the application. *)

From Stdlib Require Import ZArith List String Ascii Floats Lia Bool.
From Stdlib Require Import Sorting.Sorted Sorting.Permutation.
From stdpp Require Import base option list gmap strings.

Local Open Scope string_scope.
Local Open Scope list_scope.
Local Open Scope Z_scope.

(** ** JavaScript built-ins used by the services *)

Module JS.

(** Relative index of [Array.prototype.slice] and [String.prototype.slice]:
    a negative index counts from the end; the result is clamped to [0, len]. *)
Definition relIndex (len i : Z) : Z :=
  if i <? 0 then Z.max (len + i) 0 else Z.min i len.

(** [l.slice(b, e)] *)
Definition slice {A : Type} (l : list A) (b e : Z) : list A :=
  let len := Z.of_nat (length l) in
  let k := relIndex len b in
  let final := relIndex len e in
  take (Z.to_nat (final - k)) (drop (Z.to_nat k) l).

(** [l.slice(b)]: the end defaults to the length. *)
Definition sliceFrom {A : Type} (l : list A) (b : Z) : list A :=
  slice l b (Z.of_nat (length l)).

(** White space of [String.prototype.trim] and of the regular expression
    class [\s], among the code units below 256. *)
Definition isSpace (c : ascii) : bool :=
  let n := nat_of_ascii c in
  ((9 <=? n)%nat && (n <=? 13)%nat) || (n =? 32)%nat || (n =? 160)%nat.

Definition isDigit (c : ascii) : bool :=
  let n := nat_of_ascii c in (48 <=? n)%nat && (n <=? 57)%nat.

Fixpoint dropWhile {A : Type} (f : A -> bool) (l : list A) : list A :=
  match l with
  | [] => []
  | x :: l' => if f x then dropWhile f l' else l
  end.

Definition trimStart (s : list ascii) : list ascii := dropWhile isSpace s.

Definition trimEnd (s : list ascii) : list ascii :=
  rev (dropWhile isSpace (rev s)).

(** [s.trim()] *)
Definition trim (s : list ascii) : list ascii := trimEnd (trimStart s).

(** [s.toLowerCase()] on the modelled code units: the letters A to Z and
    the capital letters of Latin-1 (192 to 222, but for the sign 215). *)
Definition isUpper (n : nat) : bool :=
  ((65 <=? n)%nat && (n <=? 90)%nat)
  || ((192 <=? n)%nat && (n <=? 222)%nat && negb (n =? 215)%nat).

Definition lowerChar (c : ascii) : ascii :=
  let n := nat_of_ascii c in
  if isUpper n then ascii_of_nat (n + 32) else c.

Definition toLowerCase (s : list ascii) : list ascii := map lowerChar s.

Fixpoint startsWith (p s : list ascii) : bool :=
  match p, s with
  | [], _ => true
  | a :: p', b :: s' => Ascii.eqb a b && startsWith p' s'
  | _ :: _, [] => false
  end.

(** [s.includes(p)] *)
Fixpoint includes (s p : list ascii) : bool :=
  startsWith p s ||
  match s with
  | [] => false
  | _ :: s' => includes s' p
  end.

(** [s.endsWith(p)] *)
Definition endsWith (s p : list ascii) : bool := startsWith (rev p) (rev s).

(** [s.lastIndexOf(p, pos)]: the greatest index [i <= pos] at which [p]
    occurs in [s], or [-1].  [lastIndexFrom] scans [s] from the left,
    remembering the last occurrence that starts at an index [<= pos]. *)
Fixpoint lastIndexFrom (p s : list ascii) (i pos acc : Z) : Z :=
  if pos <? i then acc else
  let acc' := if startsWith p s then i else acc in
  match s with
  | [] => acc'
  | _ :: s' => lastIndexFrom p s' (i + 1) pos acc'
  end.

Definition lastIndexOf (s p : list ascii) (pos : Z) : Z :=
  lastIndexFrom p s 0 (Z.max pos 0) (-1).

End JS.

(** ** Data model ([types/index.ts]) *)

Inductive Role := user | assistant.

Record ConversationMessage := {
  role : Role;
  content : string;
  timestamp : string
}.

Record SessionMemory := {
  session_id : string;
  messages : list ConversationMessage;
  created_at : string;
  updated_at : string
}.

Record DocMetadata := {
  filename : string;
  title : option string;
  author : option string;
  source : option string;
  chunk_index : Z
}.

Record Document := {
  id : string;
  doc_content : string;
  metadata : DocMetadata;
  embedding : option (list float)
}.

Record SearchResult := {
  document : Document;
  similarity : float
}.

Record WeatherData := {
  location : string;
  temperature : Z;
  description : string;
  humidity : Z;
  wind_speed : Z
}.

Record MathResult := {
  expression : string;
  result : float;
  math_success : bool;
  math_error : option string
}.

(** [PluginResult.result] has type [any]; the two plugins put these in it. *)
Inductive PluginPayload :=
| WeatherPayload (w : WeatherData)
| MathPayload (m : MathResult).

Record PluginResult := {
  plugin_name : string;
  payload : PluginPayload;
  success : bool;
  error : option string
}.

Record PluginExecutionContext := {
  query : string;
  user_message : string;
  ctx_session_id : string
}.

Record AgentMessage := {
  message : string;
  req_session_id : string
}.

Record AgentResponse := {
  reply : string;
  resp_session_id : string;
  resp_timestamp : string;
  plugins_used : list string;
  context_retrieved : bool
}.

(** ** The world the services run in *)

(** A thrown JavaScript [Error] and its message. *)
Inductive Exn := Error (msg : string).

(** Calls made to the external providers, in the order they were made. *)
Inductive Event :=
| EmbedCall (text : string)
| ChatCall (systemPrompt userMessage : string)
           (conversationHistory : list ConversationMessage)
| WeatherCall (loc : string).

(** Value returned by mathjs' [evaluate]: a number, or another kind of
    value given by its [toString()]. *)
Inductive MathValue :=
| MathNumber (x : float)
| MathOther (shown : string).

(** What the repository imports from outside.  [None] is a rejected
    promise or a thrown exception. *)
Record Env := {
  (** the [n]-th reading of [new Date().toISOString()] *)
  clock : nat -> string;
  (** [model.embedContent(text)] with a usable [embedding.values] *)
  embedContent : string -> option (list float);
  (** [model.generateContent(prompt)], then [response.text()] *)
  generateContent : string -> option string;
  (** the OpenWeatherMap request of [fetchWeatherData], already reshaped *)
  fetchWeather : string -> option WeatherData;
  (** [process.env.WEATHER_API_KEY] *)
  weatherApiKey : option string;
  (** the [n]-th reading of [Math.floor(Math.random() * k)], as a function of [k] *)
  randomBelow : nat -> Z -> Z;
  (** mathjs' [evaluate]; it throws on what it cannot parse or compute *)
  evaluate : string -> Exn + MathValue;
  parseFloat : string -> float;
  (** [String(x)] for a number *)
  numberToString : float -> string;
  intToString : Z -> string
}.

(** The fields of the singleton services. *)
Record World := {
  (** [MemoryService.sessions] *)
  sessions : gmap string SessionMemory;
  (** [VectorStore.documents] *)
  documents : list Document;
  (** number of clock readings so far *)
  time : nat;
  (** number of [Math.random] readings so far *)
  rolls : nat;
  (** calls made to the providers, latest last *)
  trace : list Event
}.

Definition setSessions (f : gmap string SessionMemory -> gmap string SessionMemory)
    (w : World) : World :=
  {| sessions := f (sessions w); documents := documents w; time := time w;
     rolls := rolls w; trace := trace w |}.

Definition setDocuments (f : list Document -> list Document) (w : World) : World :=
  {| sessions := sessions w; documents := f (documents w); time := time w;
     rolls := rolls w; trace := trace w |}.

Definition tick (w : World) : World :=
  {| sessions := sessions w; documents := documents w; time := S (time w);
     rolls := rolls w; trace := trace w |}.

Definition roll (w : World) : World :=
  {| sessions := sessions w; documents := documents w; time := time w;
     rolls := S (rolls w); trace := trace w |}.

Definition emit (e : Event) (w : World) : World :=
  {| sessions := sessions w; documents := documents w; time := time w;
     rolls := rolls w; trace := trace w ++ [e] |}.

(** State and exceptions.  The state reached when the exception was thrown
    is kept. *)
Definition M (A : Type) : Type := World -> (Exn + A) * World.

#[export] Instance M_ret : MRet M := fun A (a : A) w => (inr a, w).

#[export] Instance M_bind : MBind M := fun A B (f : A -> M B) (m : M A) w =>
  match m w with
  | (inl e, w') => (inl e, w')
  | (inr a, w') => f a w'
  end.

Definition throw {A : Type} (e : Exn) : M A := fun w => (inl e, w).

(** [try { m } catch (e) { h e }] *)
Definition tryCatch {A : Type} (m : M A) (h : Exn -> M A) : M A := fun w =>
  match m w with
  | (inl e, w') => h e w'
  | (inr a, w') => (inr a, w')
  end.

Definition gets {A : Type} (f : World -> A) : M A := fun w => (inr (f w), w).

Definition modify (f : World -> World) : M unit := fun w => (inr tt, f w).

(** Lifting of an oracle that may fail. *)
Definition orThrow {A : Type} (o : option A) (msg : string) : M A :=
  match o with
  | Some a => mret a
  | None => throw (Error msg)
  end.

(** [new Date().toISOString()] *)
Definition nowISO (E : Env) : M string := fun w =>
  (inr (clock E (time w)), tick w).

(** ** MemoryService ([services/memoryService.ts]) *)

Module MemoryService.
Section WithEnv.
Context (E : Env).

Definition MAX_MESSAGES_PER_SESSION : Z := 20.

Definition addMessage (sessionId : string) (r : Role) (c : string) : M unit :=
  ts ← nowISO E;
  let message := {| role := r; content := c; timestamp := ts |} in
  known ← gets (fun w => bool_decide (is_Some (sessions w !! sessionId)));
  (if known : bool then mret tt else
     created ← nowISO E;
     updated ← nowISO E;
     modify (setSessions (insert sessionId
       {| session_id := sessionId; messages := [];
          created_at := created; updated_at := updated |})));;
  session ← gets (fun w => sessions w !! sessionId);
  match session with
  | None => throw (Error "Cannot read properties of undefined")
  | Some session =>
      let pushed := messages session ++ [message] in
      updated ← nowISO E;
      let kept :=
        if MAX_MESSAGES_PER_SESSION <? Z.of_nat (length pushed)
        then JS.sliceFrom pushed (- MAX_MESSAGES_PER_SESSION)
        else pushed in
      modify (setSessions (insert sessionId
        {| session_id := session_id session; messages := kept;
           created_at := created_at session; updated_at := updated |}))
  end.

Definition getSessionHistory (sessionId : string) : M (list ConversationMessage) :=
  session ← gets (fun w => sessions w !! sessionId);
  mret (match session with Some s => messages s | None => [] end).

Definition getRecentMessages (sessionId : string) (limit : Z)
    : M (list ConversationMessage) :=
  msgs ← getSessionHistory sessionId;
  mret (JS.sliceFrom msgs (- limit)).

Definition roleName (r : Role) : string :=
  match r with user => "user" | assistant => "assistant" end.

(** [xs.join(sep)] *)
Fixpoint join (sep : string) (xs : list string) : string :=
  match xs with
  | [] => ""
  | [x] => x
  | x :: rest => x +:+ sep +:+ join sep rest
  end.

(** The source writes the separator as a backslash followed by [n]. *)
Definition backslash_n : string := String (ascii_of_nat 92) "n".

Definition getConversationSummary (sessionId : string) : M string :=
  recentMessages ← getRecentMessages sessionId 4;
  if bool_decide (length recentMessages = 0%nat)
  then mret "No previous conversation history."
  else
    let summary :=
      join backslash_n
        (map (fun msg => roleName (role msg) +:+ ": " +:+ content msg) recentMessages) in
    mret ("Recent conversation context:" +:+ backslash_n +:+ summary).

Definition clearSession (sessionId : string) : M unit :=
  modify (setSessions (delete sessionId)).

Definition getSessionStats (sessionId : string)
    : M (option (Z * string * string)) :=
  session ← gets (fun w => sessions w !! sessionId);
  mret (match session with
        | None => None
        | Some s => Some (Z.of_nat (length (messages s)), created_at s, updated_at s)
        end).

End WithEnv.
End MemoryService.

(** ** Regular expressions

    The fragment of JavaScript regular expressions the services use, with
    the backtracking order of the language: alternatives left to right,
    greedy repetition, an iteration of [*] that consumes nothing rejected. *)

Module Regex.

Inductive regex :=
| Eps
| Chr (p : ascii -> bool)
| Seq (r1 r2 : regex)
| Alt (r1 r2 : regex)
| Star (r : regex)
| Group (n : nat) (r : regex).

Definition Plus (r : regex) : regex := Seq r (Star r).
Definition Opt (r : regex) : regex := Alt r Eps.

(** Captures, latest binding first. *)
Definition Captures := list (nat * list ascii).

(** What [s] lost to reach its suffix [s']. *)
Definition consumed (s s' : list ascii) : list ascii :=
  take (length s - length s') s.

(** [run n r s caps k]: match [r] at the start of [s], then continue with
    [k] on the rest.  [n] bounds the length of [s]; it decreases at each
    iteration of a [Star], which must consume at least one code unit. *)
Fixpoint run {R : Type} (n : nat) (r : regex) (s : list ascii) (caps : Captures)
    (k : list ascii -> Captures -> option R) {struct n} : option R :=
  (fix go (r : regex) (s : list ascii) (caps : Captures)
       (k : list ascii -> Captures -> option R) {struct r} : option R :=
     match r with
     | Eps => k s caps
     | Chr p =>
         match s with
         | c :: s' => if p c then k s' caps else None
         | [] => None
         end
     | Seq a b => go a s caps (fun s' caps' => go b s' caps' k)
     | Alt a b =>
         match go a s caps k with
         | Some x => Some x
         | None => go b s caps k
         end
     | Group i a => go a s caps (fun s' caps' => k s' ((i, consumed s s') :: caps'))
     | Star a =>
         match n with
         | O => k s caps
         | S n' =>
             match go a s caps (fun s' caps' =>
                     if (length s' <? length s)%nat
                     then run n' (Star a) s' caps' k else None) with
             | Some x => Some x
             | None => k s caps
             end
         end
     end) r s caps k.

(** A match at the start of [s]: what it consumed, the captures, the rest. *)
Definition matchAt (r : regex) (s : list ascii)
    : option (list ascii * Captures * list ascii) :=
  run (length s) r s [] (fun s' caps => Some (consumed s s', caps, s')).

(** [s.match(r)] without the [g] flag: the leftmost match. *)
Fixpoint exec (r : regex) (s : list ascii) : option (list ascii * Captures) :=
  match matchAt r s with
  | Some (m, caps, _) => Some (m, caps)
  | None =>
      match s with
      | [] => None
      | _ :: s' => exec r s'
      end
  end.

(** [r.test(s)] *)
Definition test (r : regex) (s : list ascii) : bool :=
  bool_decide (is_Some (exec r s)).

(** Capture group [i] of a match. *)
Fixpoint capture (i : nat) (caps : Captures) : option (list ascii) :=
  match caps with
  | [] => None
  | (j, v) :: rest => if (i =? j)%nat then Some v else capture i rest
  end.

(** [s.split(r)] for an [r] without groups.  [cur] is the piece being
    read, [n] bounds the length of [s].  An empty match splits only when
    the piece being read is not empty. *)
Fixpoint splitFrom (n : nat) (r : regex) (s cur : list ascii) : list (list ascii) :=
  match n, s with
  | _, [] => [cur]
  | O, _ => [cur ++ s]
  | S n', c :: s' =>
      match matchAt r s with
      | Some (m, _, rest) =>
          if bool_decide (length m = 0%nat)
          then match cur with
               | [] => splitFrom n' r s' [c]
               | _ => cur :: splitFrom n' r s' [c]
               end
          else cur :: splitFrom n' r rest []
      | None => splitFrom n' r s' (cur ++ [c])
      end
  end.

Definition split (r : regex) (s : list ascii) : list (list ascii) :=
  match s with
  | [] => if bool_decide (is_Some (matchAt r [])) then [] else [[]]
  | _ => splitFrom (length s) r s []
  end.

(** [s.replace(r, by)] with the [g] flag and a replacement without [$]. *)
Fixpoint replaceFrom (n : nat) (r : regex) (by_ s : list ascii) : list ascii :=
  match n, s with
  | O, _ => s
  | S n', [] =>
      match matchAt r [] with Some _ => by_ | None => [] end
  | S n', c :: s' =>
      match matchAt r s with
      | Some (m, _, rest) =>
          if bool_decide (length m = 0%nat)
          then by_ ++ c :: replaceFrom n' r by_ s'
          else by_ ++ replaceFrom n' r by_ rest
      | None => c :: replaceFrom n' r by_ s'
      end
  end.

Definition replaceAll (r : regex) (by_ s : list ascii) : list ascii :=
  replaceFrom (S (length s)) r by_ s.

(** Character classes *)
Definition lit (c : ascii) : regex := Chr (Ascii.eqb c).
Definition litI (c : ascii) : regex :=
  Chr (fun x => Ascii.eqb (JS.lowerChar x) (JS.lowerChar c)).
Definition oneOf (cs : string) : ascii -> bool :=
  fun x => existsb (Ascii.eqb x) (list_ascii_of_string cs).
Definition space : regex := Chr JS.isSpace.
Definition digit : regex := Chr JS.isDigit.

(** A word, letter by letter; [wordI] ignores case (flag [i]). *)
Fixpoint word (cs : list ascii) : regex :=
  match cs with
  | [] => Eps
  | c :: cs' => Seq (lit c) (word cs')
  end.

Fixpoint wordI (cs : list ascii) : regex :=
  match cs with
  | [] => Eps
  | c :: cs' => Seq (litI c) (wordI cs')
  end.

End Regex.

(** ** GeminiService *)

Module GeminiService.
Section WithEnv.
Context (E : Env).

Definition roleLabel (r : Role) : string :=
  match r with user => "Human" | assistant => "Assistant" end.

Definition nl : string := String (ascii_of_nat 10) "".

Definition fullPrompt (systemPrompt userMessage : string)
    (conversationHistory : list ConversationMessage) : string :=
  let p0 := systemPrompt +:+ nl +:+ nl in
  let p1 :=
    if (0 <? Z.of_nat (length conversationHistory))
    then fold_left (fun acc msg => acc +:+ roleLabel (role msg) +:+ ": " +:+ content msg +:+ nl)
           conversationHistory (p0 +:+ "Previous conversation:" +:+ nl) +:+ nl
    else p0 in
  p1 +:+ "Current message from Human: " +:+ userMessage +:+ nl +:+ nl +:+ "Assistant:".

Definition generateChatCompletion (systemPrompt userMessage : string)
    (conversationHistory : list ConversationMessage) : M string :=
  modify (emit (ChatCall systemPrompt userMessage conversationHistory));;
  tryCatch
    (text ← orThrow (generateContent E (fullPrompt systemPrompt userMessage conversationHistory))
              "generateContent failed";
     mret (if bool_decide (text = "") then "No response generated" else text))
    (fun _ => throw (Error "Failed to generate response from Gemini")).

(** [ToInt32] of an integer-valued number. *)
Definition toInt32 (z : Z) : Z := (z + 2 ^ 31) mod 2 ^ 32 - 2 ^ 31.

Definition simpleHash (str : list ascii) : Z :=
  fold_left (fun hash c =>
      toInt32 (toInt32 (toInt32 hash * 32) - hash + Z.of_nat (nat_of_ascii c)))
    str 0.

(** An integer below [2^63] as a number. *)
Definition ofZ (z : Z) : float := PrimFloat.of_uint63 (Uint63.of_Z z).

Definition generateFallbackEmbedding (text : string) : list float :=
  let words := Regex.split (Regex.Plus Regex.space)
                 (JS.toLowerCase (list_ascii_of_string text)) in
  let bump (st : list float * Z) (w : list ascii) : list float * Z :=
    let '(embedding, i) := st in
    if i <? 100 then
      let index := Z.to_nat (Z.abs (simpleHash w) mod 768) in
      (alter (fun x => (x + 1 / ofZ (i + 1))%float) index embedding, i + 1)
    else st in
  let embedding := fst (fold_left bump words (replicate 768 0%float, 0)) in
  let magnitude :=
    PrimFloat.sqrt (fold_left (fun sum val => (sum + val * val)%float) embedding 0%float) in
  if (0 <? magnitude)%float
  then map (fun x => (x / magnitude)%float) embedding
  else embedding.

Definition generateEmbedding (text : string) : M (list float) :=
  modify (emit (EmbedCall text));;
  tryCatch
    (orThrow (embedContent E text) "No embedding returned from Gemini API")
    (fun _ => mret (generateFallbackEmbedding text)).

(** The loop of [generateEmbeddings]: one request after the other (the
    pause between two requests takes no part in the result). *)
Fixpoint embedEach (texts : list string) (embeddings : list (list float))
    : M (list (list float)) :=
  match texts with
  | [] => mret embeddings
  | text :: rest =>
      embedding ← generateEmbedding text;
      embedEach rest (embeddings ++ [embedding])
  end.

Definition generateEmbeddings (texts : list string) : M (list (list float)) :=
  tryCatch (embedEach texts [])
    (fun _ => throw (Error "Failed to generate embeddings from Gemini")).

Definition testConnection : M bool :=
  tryCatch
    (chatTest ← generateChatCompletion "You are a helpful assistant."
                  "Hello, can you respond briefly?" [];
     embeddingTest ← generateEmbedding "test connection";
     mret ((0 <? Z.of_nat (String.length chatTest))
           && (0 <? Z.of_nat (length embeddingTest))))
    (fun _ => mret true).

Definition getEmbeddingDimensions : Z := 768.

End WithEnv.
End GeminiService.

(** ** VectorStore ([services/vectorStore.ts]) *)

Module VectorStore.
Section WithEnv.
Context (E : Env).

Definition addExistingDocuments (docs : list Document) : M unit :=
  modify (setDocuments (fun ds => ds ++ docs)).

Definition removeDocumentsByFilename (name : string) : M unit :=
  modify (setDocuments
    (filter (fun doc => filename (metadata doc) <> name))).

Definition withEmbedding (doc : Document) (e : list float) : Document :=
  {| id := id doc; doc_content := doc_content doc; metadata := metadata doc;
     embedding := Some e |}.

Fixpoint addDocuments (docs : list Document) : M unit :=
  match docs with
  | [] => mret tt
  | doc :: rest =>
      tryCatch
        (e ← GeminiService.generateEmbedding E (doc_content doc);
         modify (setDocuments (fun ds => ds ++ [withEmbedding doc e])))
        (fun _ => modify (setDocuments (fun ds => ds ++ [doc])));;
      addDocuments rest
  end.

(** The three accumulators of the loop of [cosineSimilarity]. *)
Definition cosineStep (acc : float * float * float) (xy : float * float)
    : float * float * float :=
  let '(dotProduct, normA, normB) := acc in
  let '(x, y) := xy in
  ((dotProduct + x * y)%float, (normA + x * x)%float, (normB + y * y)%float).

Definition cosineSimilarity (a b : list float) : Exn + float :=
  if negb (length a =? length b)%nat
  then inl (Error "Vectors must have the same length")
  else
    let '(dotProduct, normA, normB) :=
      fold_left cosineStep (combine a b) (0%float, 0%float, 0%float) in
    let denominator := (PrimFloat.sqrt normA * PrimFloat.sqrt normB)%float in
    if (denominator =? 0)%float then inr 0%float
    else inr (dotProduct / denominator)%float.

(** The source writes the separator as the regular expression made of a
    backslash followed by [s+]. *)
Definition backslash_s_plus : Regex.regex :=
  Regex.Seq (Regex.lit (ascii_of_nat 92)) (Regex.Plus (Regex.lit "s"%char)).

Definition simpleTextSimilarity (q text : list ascii) : float :=
  let queryWords := Regex.split backslash_s_plus q in
  let textWords := Regex.split backslash_s_plus text in
  let matches :=
    length (List.filter (fun word =>
      existsb (fun textWord => JS.includes textWord word || JS.includes word textWord)
        textWords) queryWords) in
  (GeminiService.ofZ (Z.of_nat matches)
   / GeminiService.ofZ (Z.of_nat (length queryWords)))%float.

Definition lower (s : string) : list ascii :=
  JS.toLowerCase (list_ascii_of_string s).

(** [xs.sort(compare)]: the sort is stable; [x] moves behind [y] only when
    [compare(x, y) > 0], a NaN counting as 0.  For a comparator that is a
    consistent ordering every stable sort returns this list.  A comparator
    that returns NaN for some pairs only, as [bySimilarity] does when a
    score is NaN, is not one: the language then leaves the order to the
    engine, and this list is a permutation of the engine's, not its order.
    The statements on the order of a ranking are for scores that are
    numbers. *)
Fixpoint insertBy {A : Type} (compare : A -> A -> float) (x : A) (l : list A) : list A :=
  match l with
  | [] => [x]
  | y :: l' =>
      if (0 <? compare x y)%float then y :: insertBy compare x l' else x :: l
  end.

Fixpoint sortBy {A : Type} (compare : A -> A -> float) (l : list A) : list A :=
  match l with
  | [] => []
  | x :: l' => insertBy compare x (sortBy compare l')
  end.

(** [(a, b) => b.similarity - a.similarity] *)
Definition bySimilarity (a b : SearchResult) : float :=
  (similarity b - similarity a)%float.

Definition rank (results : list SearchResult) (topK : Z) : list SearchResult :=
  JS.slice (sortBy bySimilarity results) 0 topK.

Definition fallbackTextSearch (q : string) (topK : Z) (docs : list Document)
    : list SearchResult :=
  let queryLower := lower q in
  rank (map (fun doc =>
          {| document := doc;
             similarity := simpleTextSimilarity queryLower (lower (doc_content doc)) |})
        docs) topK.

(** The scoring loop of [searchSimilar]; it stops at the first throw. *)
Fixpoint scoreAll (q : string) (queryEmbedding : list float) (docs : list Document)
    : Exn + list SearchResult :=
  match docs with
  | [] => inr []
  | doc :: rest =>
      let scored :=
        match embedding doc with
        | Some e => cosineSimilarity queryEmbedding e
        | None => inr (simpleTextSimilarity (lower q) (lower (doc_content doc)))
        end in
      match scored with
      | inl err => inl err
      | inr sim =>
          match scoreAll q queryEmbedding rest with
          | inl err => inl err
          | inr results => inr ({| document := doc; similarity := sim |} :: results)
          end
      end
  end.

Definition liftExn {A : Type} (r : Exn + A) : M A :=
  match r with
  | inl e => throw e
  | inr a => mret a
  end.

Definition searchSimilar (q : string) (topK : Z) : M (list SearchResult) :=
  docs ← gets documents;
  if bool_decide (length docs = 0%nat) then mret []
  else
    tryCatch
      (queryEmbedding ← GeminiService.generateEmbedding E q;
       results ← liftExn (scoreAll q queryEmbedding docs);
       mret (rank results topK))
      (fun _ => mret (fallbackTextSearch q topK docs)).

Definition getAllDocuments : M (list Document) := gets documents.

Definition getDocumentCount : M Z := gets (fun w => Z.of_nat (length (documents w))).

Definition clearDocuments : M unit := modify (setDocuments (fun _ => [])).

Definition getDocumentsByFilename (name : string) : M (list Document) :=
  gets (fun w => filter (fun doc => filename (metadata doc) = name) (documents w)).

End WithEnv.
End VectorStore.

(** ** Plugins *)

Definition chars (s : string) : list ascii := list_ascii_of_string s.
Definition str (s : list ascii) : string := string_of_list_ascii s.

(** [keywords.some(keyword => messageWords.some(word => word.includes(keyword)))] *)
Definition someWordIncludes (keywords : list string) (messageWords : list (list ascii)) : bool :=
  existsb (fun keyword =>
    existsb (fun word => JS.includes word (chars keyword)) messageWords) keywords.

(** [userMessage.toLowerCase().split(/\s+/)] *)
Definition lowerWords (userMessage : string) : list (list ascii) :=
  Regex.split (Regex.Plus Regex.space) (JS.toLowerCase (chars userMessage)).

Module MathPlugin.
Section WithEnv.
Context (E : Env).

Definition mathKeywords : list string :=
  ["calculate"; "compute"; "solve"; "math"; "equation"; "add"; "subtract";
   "multiply"; "divide"; "plus"; "minus"; "times"; "equals"; "sum"; "total"].

Definition shouldExecute (userMessage : string) : bool :=
  let hasOperators := Regex.test (Regex.Chr (Regex.oneOf "+-*/^%=()")) (chars userMessage) in
  let hasKeywords := someWordIncludes mathKeywords (lowerWords userMessage) in
  let hasNumbers := Regex.test Regex.digit (chars userMessage) in
  (hasOperators && hasNumbers) || (hasKeywords && hasNumbers).

(** [[0-9+\-*/^().\s*]] *)
Definition exprChar : ascii -> bool :=
  fun c => JS.isDigit c || Regex.oneOf "+-*/^()." c || JS.isSpace c.

(** [[+\-*/^*]] *)
Definition opChar : ascii -> bool := Regex.oneOf "+-*/^".

(** [(\d+(?:\.\d+)?)] as group [n] *)
Definition number (n : nat) : Regex.regex :=
  Regex.Group n (Regex.Seq (Regex.Plus Regex.digit)
    (Regex.Opt (Regex.Seq (Regex.lit "."%char) (Regex.Plus Regex.digit)))).

Definition directMath : Regex.regex :=
  Regex.Group 1
    (Regex.Seq (Regex.Plus (Regex.Chr exprChar))
       (Regex.Star (Regex.Seq (Regex.Chr opChar) (Regex.Star (Regex.Chr exprChar))))).

(** [/<keyword>\s+([0-9+\-*/^().\s]+)/i] after the words [ws] *)
Definition afterWords (ws : list string) : Regex.regex :=
  fold_right (fun w r => Regex.Seq (Regex.wordI (chars w)) (Regex.Seq (Regex.Plus Regex.space) r))
    (Regex.Group 1 (Regex.Plus (Regex.Chr exprChar))) ws.

(** [/(\d+(?:\.\d+)?)\s+<w>\s+(\d+(?:\.\d+)?)/i] *)
Definition binaryWord (w : string) : Regex.regex :=
  Regex.Seq (number 1) (Regex.Seq (Regex.Plus Regex.space)
    (Regex.Seq (Regex.wordI (chars w)) (Regex.Seq (Regex.Plus Regex.space) (number 2)))).

Definition group (i : nat) (caps : Regex.Captures) : list ascii :=
  default [] (Regex.capture i caps).

Definition binaryMatch (w op : string) (userMessage : list ascii) : option (list ascii) :=
  match Regex.exec (binaryWord w) userMessage with
  | Some (_, caps) => Some (group 1 caps ++ chars op ++ group 2 caps)
  | None => None
  end.

(** The ordered matchers of [extractExpression]; [None] is [null], and
    [o1 ∪ o2] is [o1] unless it is [None]. *)
Definition extractExpression (userMessage : string) : option (list ascii) :=
  let msg := chars userMessage in
  match Regex.exec directMath msg with
  | Some (_, caps) =>
      if (1 <? Z.of_nat (length (JS.trim (group 1 caps)))) then Some (JS.trim (group 1 caps))
      else None
  | None => None
  end
  ∪ match Regex.exec (afterWords ["what"; "is"]) msg with
    | Some (_, caps) => Some (JS.trim (group 1 caps))
    | None => None
    end
  ∪ match Regex.exec (afterWords ["calculate"]) msg with
    | Some (_, caps) => Some (JS.trim (group 1 caps))
    | None => None
    end
  ∪ binaryMatch "plus" " + " msg
  ∪ binaryMatch "times" " * " msg
  ∪ binaryMatch "minus" " - " msg.

Definition cleanExpression (expression : list ascii) : list ascii :=
  let e1 := Regex.replaceAll (Regex.Plus Regex.space) [] expression in
  let e2 := Regex.replaceAll (Regex.word (chars "**")) (chars "^") e1 in
  let e3 := Regex.replaceAll
              (Regex.Chr (fun c => negb (JS.isDigit c || Regex.oneOf "+-*/^()." c))) [] e2 in
  let e4 := Regex.replaceAll (Regex.litI "x"%char) (chars "*") e3 in
  (* the last replacement looks for two code units above 255 *)
  e4.

Definition failure (expr : string) (inner outer : option string) : PluginResult :=
  {| plugin_name := "math";
     payload := MathPayload {| expression := expr; result := 0%float;
                               math_success := false; math_error := inner |};
     success := false;
     error := outer |}.

Definition execute (context : PluginExecutionContext) : M PluginResult :=
  tryCatch
    (match extractExpression (user_message context) with
     | None | Some [] =>
         mret (failure "unknown"
                 (Some "Could not extract mathematical expression from the message")
                 (Some "No valid mathematical expression found"))
     | Some expression =>
         let cleanExpression := cleanExpression expression in
         value ← VectorStore.liftExn (evaluate E (str cleanExpression));
         let mathResult :=
           {| expression := str cleanExpression;
              result := match value with
                        | MathNumber x => x
                        | MathOther shown => parseFloat E shown
                        end;
              math_success := true;
              math_error := None |} in
         mret {| plugin_name := "math"; payload := MathPayload mathResult;
                 success := true; error := None |}
     end)
    (fun '(Error msg) =>
       mret (failure "error" None (Some ("Mathematical evaluation failed: " +:+ msg)))).

Definition formatFailed (expr : string) : string :=
  "Mathematical calculation failed: " +:+ expr.

Definition formatForLLM (m : MathResult) : string :=
  if negb (math_success m) then formatFailed (expression m)
  else "Mathematical calculation:" +:+ GeminiService.nl
       +:+ "Expression: " +:+ expression m +:+ GeminiService.nl
       +:+ "Result: " +:+ numberToString E (result m).

End WithEnv.
End MathPlugin.

Module WeatherPlugin.
Section WithEnv.
Context (E : Env).

Definition weatherKeywords : list string :=
  ["weather"; "temperature"; "forecast"; "climate"; "rain"; "sunny";
   "cloudy"; "storm"; "humidity"; "wind"; "hot"; "cold"; "degrees"].

Definition shouldExecute (userMessage : string) : bool :=
  someWordIncludes weatherKeywords (lowerWords userMessage).

(** [([^?\s.!]+)] as group 1 *)
Definition place : Regex.regex :=
  Regex.Group 1 (Regex.Plus (Regex.Chr (fun c => negb (Regex.oneOf "?.!" c || JS.isSpace c)))).

(** [.]: any code unit but a line terminator *)
Definition anyChar : Regex.regex :=
  Regex.Chr (fun c => negb ((nat_of_ascii c =? 10)%nat || (nat_of_ascii c =? 13)%nat)).

Definition spaces : Regex.regex := Regex.Plus Regex.space.

Definition patterns : list Regex.regex :=
  [ Regex.Seq (Regex.wordI (chars "weather")) (Regex.Seq spaces
      (Regex.Seq (Regex.wordI (chars "in")) (Regex.Seq spaces place)));
    Regex.Seq (Regex.wordI (chars "temperature")) (Regex.Seq spaces
      (Regex.Seq (Regex.wordI (chars "in")) (Regex.Seq spaces place)));
    Regex.Seq (Regex.wordI (chars "forecast")) (Regex.Seq spaces
      (Regex.Seq (Regex.wordI (chars "for")) (Regex.Seq spaces place)));
    Regex.Seq (Regex.wordI (chars "how")) (Regex.Seq (Regex.Star anyChar)
      (Regex.Seq (Regex.Alt (Regex.wordI (chars "hot"))
                    (Regex.Alt (Regex.wordI (chars "cold")) (Regex.wordI (chars "warm"))))
        (Regex.Seq spaces
          (Regex.Seq (Regex.Opt (Regex.Seq (Regex.wordI (chars "is")) (Regex.Seq spaces
                        (Regex.Seq (Regex.wordI (chars "it")) spaces))))
            (Regex.Seq (Regex.wordI (chars "in")) (Regex.Seq spaces place)))))) ].

Fixpoint firstMatch (ps : list Regex.regex) (msg : list ascii) : option (list ascii) :=
  match ps with
  | [] => None
  | p :: rest =>
      match Regex.exec p msg with
      | Some (_, caps) => Some (JS.trim (MathPlugin.group 1 caps))
      | None => firstMatch rest msg
      end
  end.

Definition extractLocation (userMessage : string) : string :=
  match firstMatch patterns (chars userMessage) with
  | Some loc => str loc
  | None => "New York"
  end.

(** [Math.floor(Math.random() * k)] *)
Definition randomInt (k : Z) : M Z := fun w =>
  (inr (randomBelow E (rolls w) k mod k), roll w).

Definition getMockWeatherData (loc : string) : M PluginResult :=
  t ← randomInt 30;
  d ← randomInt 4;
  h ← randomInt 40;
  v ← randomInt 20;
  mret {| plugin_name := "weather";
          payload := WeatherPayload
            {| location := loc;
               temperature := t + 5;
               description := default "undefined"
                 (["sunny"; "cloudy"; "partly cloudy"; "rainy"] !! Z.to_nat d);
               humidity := h + 40;
               wind_speed := v + 5 |};
          success := true; error := None |}.

Definition fetchWeatherData (loc : string) : M WeatherData :=
  modify (emit (WeatherCall loc));;
  orThrow (fetchWeather E loc) "Request failed".

Definition hasKey : bool :=
  match weatherApiKey E with
  | None | Some "" => false
  | Some _ => true
  end.

Definition execute (context : PluginExecutionContext) : M PluginResult :=
  tryCatch
    (let loc := extractLocation (user_message context) in
     if negb hasKey then getMockWeatherData loc
     else
       weatherData ← fetchWeatherData loc;
       mret {| plugin_name := "weather"; payload := WeatherPayload weatherData;
               success := true; error := None |})
    (fun _ => getMockWeatherData (extractLocation (user_message context))).

Definition degree : string := String (ascii_of_nat 176) "".

Definition formatFields (loc t d h v : string) : string :=
  "Current weather in " +:+ loc +:+ ":" +:+ GeminiService.nl
  +:+ "- Temperature: " +:+ t +:+ degree +:+ "C" +:+ GeminiService.nl
  +:+ "- Conditions: " +:+ d +:+ GeminiService.nl
  +:+ "- Humidity: " +:+ h +:+ "%" +:+ GeminiService.nl
  +:+ "- Wind Speed: " +:+ v +:+ " km/h".

Definition formatForLLM (w : WeatherData) : string :=
  formatFields (location w) (intToString E (temperature w)) (description w)
    (intToString E (humidity w)) (intToString E (wind_speed w)).

End WithEnv.
End WeatherPlugin.

Module PluginManager.
Section WithEnv.
Context (E : Env).

Definition executePlugins (context : PluginExecutionContext) : M (list PluginResult) :=
  tryCatch
    (results1 ←
       (if WeatherPlugin.shouldExecute (user_message context)
        then weatherResult ← WeatherPlugin.execute E context; mret [weatherResult]
        else mret []);
     results2 ←
       (if MathPlugin.shouldExecute (user_message context)
        then mathResult ← MathPlugin.execute E context; mret (results1 ++ [mathResult])
        else mret results1);
     mret results2)
    (fun _ => mret []).

(** The source writes these line breaks as a backslash followed by [n]. *)
Definition bn : string := MemoryService.backslash_n.

(** The formatter chosen by [plugin_name], applied to a payload of type [any]. *)
Definition formatPayload (name : string) (p : PluginPayload) : string :=
  if bool_decide (name = "weather") then
    match p with
    | WeatherPayload w => WeatherPlugin.formatForLLM E w
    | MathPayload _ =>
        WeatherPlugin.formatFields "undefined" "undefined" "undefined" "undefined" "undefined"
    end
  else if bool_decide (name = "math") then
    match p with
    | MathPayload m => MathPlugin.formatForLLM E m
    | WeatherPayload _ => MathPlugin.formatFailed "undefined"
    end
  else "".

Definition formatPluginResults (results : list PluginResult) : string :=
  if bool_decide (length results = 0%nat) then ""
  else
    fold_left (fun formatted r =>
        if success r
        then formatted +:+ formatPayload (plugin_name r) (payload r) +:+ bn +:+ bn
        else formatted +:+ plugin_name r +:+ " plugin failed: "
             +:+ default "undefined" (error r) +:+ bn +:+ bn)
      results (bn +:+ bn +:+ "--- Plugin Results ---" +:+ bn).

Definition getAvailablePlugins : list string := ["weather"; "math"].

Definition getPluginCapabilities : string :=
  let nl := GeminiService.nl in
  let q := String (ascii_of_nat 34) "" in
  "Available plugins:" +:+ nl
  +:+ "1. Weather Plugin: Provides current weather information for any location" +:+ nl
  +:+ "   - Triggers on: weather, temperature, forecast, climate-related queries" +:+ nl
  +:+ "   - Example: " +:+ q +:+ "What's the weather in London?" +:+ q +:+ nl
  +:+ nl
  +:+ "2. Math Plugin: Performs mathematical calculations and evaluations" +:+ nl
  +:+ "   - Triggers on: mathematical expressions, calculation requests" +:+ nl
  +:+ "   - Example: " +:+ q +:+ "What is 2 + 2 * 5?" +:+ q +:+ nl
  +:+ nl
  +:+ "These plugins will automatically activate when relevant queries are detected.".

(** [testPlugins]: the object [results] gets its keys one by one; what was
    set before a throw stays. *)
Definition testPlugins : M (list (string * bool)) := fun w =>
  let weatherContext :=
    {| query := "weather in New York";
       user_message := "What is the weather in New York?";
       ctx_session_id := "test" |} in
  match WeatherPlugin.execute E weatherContext w with
  | (inl _, w1) => (inr [], w1)
  | (inr weatherResult, w1) =>
      let results := [("weather", success weatherResult)] in
      let mathContext :=
        {| query := "calculate 2 + 2";
           user_message := "What is 2 + 2?";
           ctx_session_id := "test" |} in
      match MathPlugin.execute E mathContext w1 with
      | (inl _, w2) => (inr results, w2)
      | (inr mathResult, w2) => (inr (results ++ [("math", success mathResult)]), w2)
      end
  end.

End WithEnv.
End PluginManager.

(** ** AgentService: one conversational turn *)

Module AgentService.
Section WithEnv.
Context (E : Env).

Definition bn : string := MemoryService.backslash_n.
Definition nl : string := GeminiService.nl.
Definition quote : string := String (ascii_of_nat 34) "".

Definition formatContextForPrompt (results : list SearchResult) : string :=
  if bool_decide (length results = 0%nat)
  then "No relevant context found in knowledge base."
  else
    fst (fold_left (fun '(formatted, index) r =>
        let doc := document r in
        let head := formatted +:+ "Context " +:+ intToString E (index + 1)
                    +:+ " (from " +:+ filename (metadata doc) +:+ "):" in
        let titled :=
          match title (metadata doc) with
          | None | Some "" => head
          | Some t => head +:+ " " +:+ quote +:+ t +:+ quote
          end in
        (titled +:+ bn +:+ doc_content doc +:+ bn +:+ bn, index + 1))
      results ("Relevant information from knowledge base:" +:+ bn +:+ bn, 0)).

Definition generateSystemPrompt (memoryText contextText pluginText : string) : string :=
  "You are an intelligent AI assistant with access to a knowledge base and various tools." +:+ nl
  +:+ nl
  +:+ "## Core Instructions:" +:+ nl
  +:+ "- Provide helpful, accurate, and conversational responses" +:+ nl
  +:+ "- Use the provided context and plugin results to enhance your answers" +:+ nl
  +:+ "- Maintain a professional yet friendly tone" +:+ nl
  +:+ "- If you don't know something, admit it rather than making assumptions" +:+ nl
  +:+ "- Be concise but comprehensive in your responses" +:+ nl
  +:+ nl
  +:+ "## Technical Architecture:" +:+ nl
  +:+ "- Chat responses and document embeddings powered by Google Gemini" +:+ nl
  +:+ "- Real-time plugin execution for weather and math operations" +:+ nl
  +:+ "- Session-based memory management with intelligent context injection" +:+ nl
  +:+ nl
  +:+ "## Available Capabilities:" +:+ nl
  +:+ PluginManager.getPluginCapabilities +:+ nl
  +:+ nl
  +:+ "## Conversation Context:" +:+ nl
  +:+ memoryText +:+ nl
  +:+ nl
  +:+ "## Retrieved Knowledge Base Context (via Gemini embeddings):" +:+ nl
  +:+ contextText +:+ nl
  +:+ nl
  +:+ "## Plugin Execution Results:" +:+ nl
  +:+ pluginText +:+ nl
  +:+ nl
  +:+ "## Guidelines:" +:+ nl
  +:+ "1. If plugin results are available, incorporate them naturally into your response" +:+ nl
  +:+ "2. Use the knowledge base context to provide more detailed and accurate information" +:+ nl
  +:+ "3. Reference previous conversation when relevant" +:+ nl
  +:+ "4. If asked about weather or math calculations, the plugin results will provide current data" +:+ nl
  +:+ "5. Always be helpful and try to fully address the user's question" +:+ nl
  +:+ nl
  +:+ "Please provide a helpful response based on all the available information above.".

Definition apology : string :=
  "I apologize, but I encountered an error while processing your message. Please try again.".

Definition processMessage (request : AgentMessage) : M AgentResponse :=
  let message := message request in
  let session_id := req_session_id request in
  timestamp ← nowISO E;
  tryCatch
    (MemoryService.addMessage E session_id user message;;
     contextResults ← tryCatch (VectorStore.searchSimilar E message 3) (fun _ => mret []);
     let contextText := formatContextForPrompt contextResults in
     let pluginContext :=
       {| query := message; user_message := message; ctx_session_id := session_id |} in
     pluginResults ← PluginManager.executePlugins E pluginContext;
     let pluginText := PluginManager.formatPluginResults E pluginResults in
     conversationHistory ← MemoryService.getRecentMessages session_id 4;
     memoryText ← MemoryService.getConversationSummary session_id;
     let systemPrompt := generateSystemPrompt memoryText contextText pluginText in
     aiResponse ← GeminiService.generateChatCompletion E systemPrompt message
                    (JS.slice conversationHistory 0 (-1));
     MemoryService.addMessage E session_id assistant aiResponse;;
     mret {| reply := aiResponse;
             resp_session_id := session_id;
             resp_timestamp := timestamp;
             plugins_used := map plugin_name pluginResults;
             context_retrieved := (0 <? Z.of_nat (length contextResults)) |})
    (fun _ =>
       mret {| reply := apology;
               resp_session_id := session_id;
               resp_timestamp := timestamp;
               plugins_used := [];
               context_retrieved := false |}).

Record HealthStatus := {
  status : string;
  services : list (string * bool);
  documentCount : Z;
  pluginStatus : list (string * bool)
}.

Definition getHealthStatus : M HealthStatus :=
  tryCatch
    (geminiStatus ← GeminiService.testConnection E;
     pluginStatus ← PluginManager.testPlugins E;
     documentCount ← VectorStore.getDocumentCount;
     let allServicesHealthy := geminiStatus && forallb snd pluginStatus in
     mret {| status := if allServicesHealthy then "healthy" else "degraded";
             services := [("gemini", geminiStatus);
                          ("vectorStore", 0 <? documentCount);
                          ("memory", true)];
             documentCount := documentCount;
             pluginStatus := pluginStatus |})
    (fun _ =>
       mret {| status := "unhealthy";
               services := [("gemini", false); ("vectorStore", false); ("memory", false)];
               documentCount := 0;
               pluginStatus := [] |}).

Definition getSessionStats (sessionId : string) : M (option (Z * string * string)) :=
  MemoryService.getSessionStats sessionId.

Definition clearSession (sessionId : string) : M unit :=
  MemoryService.clearSession sessionId.

End WithEnv.
End AgentService.

(** ** DocumentLoader: the chunker *)

Module DocumentLoader.

Definition CHUNK_SIZE : Z := 1000.
Definition CHUNK_OVERLAP : Z := 200.

Definition len (text : list ascii) : Z := Z.of_nat (length text).

(** The source writes the paragraph break as two backslash-[n] pairs. *)
Definition paragraphBreak : list ascii :=
  [ascii_of_nat 92; "n"%char; ascii_of_nat 92; "n"%char].

(** Where the chunk that starts at [start] ends. *)
Definition chunkEnd (text : list ascii) (start : Z) : Z :=
  let end_ := start + CHUNK_SIZE in
  if end_ <? len text then
    let lastSentence := JS.lastIndexOf text ["."%char] end_ in
    let lastNewline := JS.lastIndexOf text paragraphBreak end_ in
    let lastParagraph := Z.max lastSentence lastNewline in
    if start + CHUNK_SIZE / 2 <? lastParagraph then lastParagraph + 1 else end_
  else end_.

(** Where the next chunk starts. *)
Definition nextStart (text : list ascii) (start : Z) : Z :=
  Z.max (start + CHUNK_SIZE - CHUNK_OVERLAP) (chunkEnd text start).

(** The [while] loop of [chunkText]; [None] when [fuel] iterations did not
    bring [start] to the end of the text. *)
Fixpoint chunkLoop (fuel : nat) (text : list ascii) (start : Z)
    (chunks : list (list ascii)) : option (list (list ascii)) :=
  if start <? len text then
    match fuel with
    | O => None
    | S fuel' =>
        let chunk := JS.trim (JS.slice text start (chunkEnd text start)) in
        let chunks' := if 0 <? len chunk then chunks ++ [chunk] else chunks in
        chunkLoop fuel' text (nextStart text start) chunks'
    end
  else Some chunks.

Definition chunkText (fuel : nat) (text : string) : option (list string) :=
  option_map (map str) (chunkLoop fuel (chars text) 0 []).

(** [[...new Set(xs)]]: the distinct elements, in the order of their first
    occurrence. *)
Definition distinct (xs : list string) : list string :=
  fold_left (fun seen x => if bool_decide (x ∈ seen) then seen else seen ++ [x]) xs [].

Record DocumentStats := {
  totalDocuments : Z;
  totalChunks : Z;
  fileNames : list string
}.

Definition getLoadedDocumentStats : M DocumentStats :=
  documents ← VectorStore.getAllDocuments;
  let fileNames := distinct (map (fun doc => filename (metadata doc)) documents) in
  mret {| totalDocuments := Z.of_nat (length fileNames);
          totalChunks := Z.of_nat (length documents);
          fileNames := fileNames |}.

End DocumentLoader.

(** ** PersistentVectorStore: change detection *)

Module PersistentVectorStore.

Record DocumentMetadata := {
  md_filename : string;
  fileHash : string;
  lastModified : float;
  chunkCount : Z;
  processedAt : string
}.

(** The file system and the libraries around it, as the code reads them.
    [None] is a thrown exception. *)
Record FileSystem := {
  readdirSync : string -> option (list string);
  mtimeMs : string -> option float;      (** [fs.statSync(p).mtimeMs] *)
  readFileSync : string -> option string;
  md5hex : string -> string;             (** [crypto.createHash('md5')...digest('hex')] *)
  pathJoin : string -> string -> string  (** [path.join] *)
}.

Section WithFiles.
Context (F : FileSystem).

Definition getFileHash (filePath : string) : string :=
  match readFileSync F filePath with
  | Some content => md5hex F content
  | None => ""
  end.

(** [x !== y] on numbers *)
Definition numberDiffers (x y : float) : bool := negb (x =? y)%float.

Definition hasFileChanged (filePath : string) (md : DocumentMetadata) : bool :=
  match mtimeMs F filePath with
  | Some mtime =>
      let currentHash := getFileHash filePath in
      negb (String.eqb currentHash (fileHash md)) || numberDiffers mtime (lastModified md)
  | None => true
  end.

Record FilesToProcess := {
  newFiles : list string;
  changedFiles : list string;
  unchangedFiles : list string
}.

Definition isMarkdown (file : string) : bool := JS.endsWith (chars file) (chars ".md").

Definition classifyStep (directoryPath : string)
    (existingMetadata : gmap string DocumentMetadata)
    (acc : FilesToProcess) (name : string) : FilesToProcess :=
  let filePath := pathJoin F directoryPath name in
  match existingMetadata !! name with
  | None =>
      {| newFiles := newFiles acc ++ [filePath]; changedFiles := changedFiles acc;
         unchangedFiles := unchangedFiles acc |}
  | Some md =>
      if hasFileChanged filePath md
      then {| newFiles := newFiles acc; changedFiles := changedFiles acc ++ [filePath];
              unchangedFiles := unchangedFiles acc |}
      else {| newFiles := newFiles acc; changedFiles := changedFiles acc;
              unchangedFiles := unchangedFiles acc ++ [filePath] |}
  end.

Definition getFilesToProcess (directoryPath : string)
    (existingMetadata : gmap string DocumentMetadata) : Exn + FilesToProcess :=
  match readdirSync F directoryPath with
  | None => inl (Error "ENOENT")
  | Some files =>
      let markdownFiles := List.filter isMarkdown files in
      inr (fold_left (classifyStep directoryPath existingMetadata) markdownFiles
             {| newFiles := []; changedFiles := []; unchangedFiles := [] |})
  end.

(** [createFileMetadata]: [fs.statSync] throws on a file it cannot read;
    [basename] is [path.basename]. *)
Definition createFileMetadata (E : Env) (basename : string -> string)
    (filePath : string) (chunks : Z) : M DocumentMetadata :=
  mtime ← orThrow (mtimeMs F filePath) "ENOENT: no such file or directory";
  let filename := basename filePath in
  let hash := getFileHash filePath in
  processedAt ← nowISO E;
  mret {| md_filename := filename; fileHash := hash; lastModified := mtime;
          chunkCount := chunks; processedAt := processedAt |}.

End WithFiles.
End PersistentVectorStore.

(** ** The request validation and the routes of the agent

    A handler answers with a status and a body; [next] is the rest of the
    chain of handlers. *)

Module AgentRouter.

(** A field of [req.body], as [express.json()] produces it. *)
Inductive JsValue :=
| JUndefined
| JNull
| JBoolean (b : bool)
| JNumber (x : float)
| JString (s : string)
| JObject.

(** [!v] is [negb (truthy v)]. *)
Definition truthy (v : JsValue) : bool :=
  match v with
  | JUndefined | JNull => false
  | JBoolean b => b
  | JNumber x => negb ((x =? 0)%float || PrimFloat.is_nan x)
  | JString s => negb (bool_decide (s = ""))
  | JObject => true
  end.

(** [typeof v === 'string'] *)
Definition isString (v : JsValue) : bool :=
  match v with JString _ => true | _ => false end.

(** The string a field holds; the handlers read it behind the validation. *)
Definition asString (v : JsValue) : string :=
  match v with JString s => s | _ => "" end.

(** [req.body] when the body parsers left an object: the two fields the
    route reads, [JUndefined] for a field that is absent.  The other
    outcomes of the parsers are those of [App.Parsed]. *)
Record Body := {
  body_message : JsValue;
  body_session_id : JsValue
}.

(** [{ error: { message, timestamp } }], with or without [success: false]. *)
Record RouteError := {
  error_message : string;
  error_timestamp : string
}.

Record Response (A : Type) := {
  statusCode : Z;
  answer : RouteError + A
}.
Arguments statusCode {A} _.
Arguments answer {A} _.

Section WithEnv.
Context (E : Env).

Definition reject {A : Type} (code : Z) (msg : string) : M (Response A) :=
  ts ← nowISO E;
  mret {| statusCode := code;
          answer := inl {| error_message := msg; error_timestamp := ts |} |}.

(** [requestLogger] reads the clock for its log line. *)
Definition requestLogger {A : Type} (next : M A) : M A :=
  nowISO E;; next.

Definition validateAgentMessage {A : Type} (body : Body) (next : M (Response A))
    : M (Response A) :=
  let message := body_message body in
  let session_id := body_session_id body in
  if negb (truthy message) || negb (isString message)
  then reject 400 "Message is required and must be a string"
  else if negb (truthy session_id) || negb (isString session_id)
  then reject 400 "Session ID is required and must be a string"
  else if 2000 <? Z.of_nat (String.length (asString message))
  then reject 400 "Message too long (max 2000 characters)"
  else next.

(** [POST /agent/message] *)
Definition postMessage (body : Body) : M (Response AgentResponse) :=
  requestLogger (validateAgentMessage body
    (tryCatch
       (let agentMessage :=
          {| message := asString (body_message body);
             req_session_id := asString (body_session_id body) |} in
        response ← AgentService.processMessage E agentMessage;
        mret {| statusCode := 200; answer := inr response |})
       (fun _ => reject 500 "Failed to process message"))).

(** [GET /agent/health] *)
Definition getHealth : M (Response AgentService.HealthStatus) :=
  requestLogger
    (tryCatch
       (healthStatus ← AgentService.getHealthStatus E;
        let statusCode :=
          if bool_decide (AgentService.status healthStatus = "healthy") then 200
          else if bool_decide (AgentService.status healthStatus = "degraded") then 206
          else 503 in
        mret {| statusCode := statusCode; answer := inr healthStatus |})
       (fun _ => reject 503 "Health check failed")).

(** [GET /agent/session/:sessionId/stats] *)
Definition getStats (sessionId : string)
    : M (Response (string * (Z * string * string))) :=
  requestLogger
    (tryCatch
       (stats ← AgentService.getSessionStats sessionId;
        match stats with
        | None => reject 404 "Session not found"
        | Some stats => mret {| statusCode := 200; answer := inr (sessionId, stats) |}
        end)
       (fun _ => reject 500 "Failed to get session stats")).

(** [DELETE /agent/session/:sessionId]: the answer is the message and its
    timestamp. *)
Definition deleteSession (sessionId : string) : M (Response (string * string)) :=
  requestLogger
    (tryCatch
       (AgentService.clearSession sessionId;;
        ts ← nowISO E;
        mret {| statusCode := 200;
                answer := inr ("Session " +:+ sessionId +:+ " cleared successfully", ts) |})
       (fun _ => reject 500 "Failed to clear session")).

End WithEnv.
End AgentRouter.

(** ** The application ([index.ts]): body parsers, router, error handler *)

Module App.

(** What the router finds of the body of a request.  [express.json()] and
    [express.urlencoded()] run before the router; a body they cannot parse
    (malformed JSON, more than the limit of 10mb) ends in an [Error] handed
    to [next], which skips the router.  When they leave [req.body]
    undefined, the destructuring of [validateAgentMessage] throws a
    [TypeError], with the message the engine gives it, and Express hands
    it to [next] as well. *)
Inductive Parsed :=
| ParseError (msg : string)
| NoBody (thrown : string)
| Fields (body : AgentRouter.Body).

(** [{ error: { message, timestamp, path } }] and its status. *)
Record ErrorReport := {
  report_status : Z;
  report_message : string;
  report_timestamp : string;
  report_path : string
}.

Section WithEnv.
Context (E : Env).

Definition errorHandler (error : Exn) (path : string) : M ErrorReport :=
  let '(Error error_message) := error in
  let includes (word : string) : bool := JS.includes (chars error_message) (chars word) in
  let st : Z * string := (500, "Internal Server Error") in
  let st := if includes "OpenAI" then (503, "AI service temporarily unavailable") else st in
  let st := if includes "validation" then (400, "Invalid request data") else st in
  let st := if includes "rate limit" then (429, "Too many requests") else st in
  ts ← nowISO E;
  mret {| report_status := fst st; report_message := snd st;
          report_timestamp := ts; report_path := path |}.

(** [POST /agent/message] through [app]: the body parsers, then the router
    with [requestLogger], [validateAgentMessage] and the handler, then
    [errorHandler] for what was handed to [next]. *)
Definition postMessage (path : string) (parsed : Parsed)
    : M (ErrorReport + AgentRouter.Response AgentResponse) :=
  match parsed with
  | ParseError msg =>
      report ← errorHandler (Error msg) path;
      mret (inl report)
  | NoBody thrown =>
      AgentRouter.requestLogger E
        (report ← errorHandler (Error thrown) path;
         mret (inl report))
  | Fields body =>
      resp ← AgentRouter.postMessage E body;
      mret (inr resp)
  end.

End WithEnv.
End App.

(** * Vocabulary of the statements *)

(** The messages a session holds; none when the session does not exist. *)
Definition history (w : World) (sid : string) : list ConversationMessage :=
  match sessions w !! sid with
  | Some s => messages s
  | None => []
  end.

(** The last [n] elements of a list. *)
Definition lastN {A : Type} (n : nat) (l : list A) : list A := drop (length l - n) l.

(** What [addMessage] leaves of the pushed list. *)
Definition capped (l : list ConversationMessage) : list ConversationMessage :=
  lastN 20 l.

(** The clock readings [addMessage] makes: two, or four for a new session. *)
Definition addTicks (w : World) (sid : string) : nat :=
  match sessions w !! sid with Some _ => 2%nat | None => 4%nat end.

(** A sequence of [addMessage] calls on one session. *)
Fixpoint addAll (E : Env) (sid : string) (ms : list (Role * string)) : M unit :=
  match ms with
  | [] => mret tt
  | (r, c) :: rest => MemoryService.addMessage E sid r c ;; addAll E sid rest
  end.

(** Who said what: a message without its timestamp. *)
Definition said (m : ConversationMessage) : Role * string := (role m, content m).

(** The invariant of the session store. *)
Definition withinCap (w : World) : Prop :=
  forall sid, (length (history w sid) <= 20)%nat.

(** The operations of the service, and the world after a sequence of them. *)
Inductive MemoryCall :=
| AddMessage (sid : string) (r : Role) (c : string)
| GetSessionHistory (sid : string)
| GetRecentMessages (sid : string) (limit : Z)
| GetConversationSummary (sid : string)
| ClearSession (sid : string)
| GetSessionStats (sid : string).

Definition afterCall (E : Env) (w : World) (call : MemoryCall) : World :=
  match call with
  | AddMessage sid r c => snd (MemoryService.addMessage E sid r c w)
  | GetSessionHistory sid => snd (MemoryService.getSessionHistory sid w)
  | GetRecentMessages sid limit => snd (MemoryService.getRecentMessages sid limit w)
  | GetConversationSummary sid => snd (MemoryService.getConversationSummary sid w)
  | ClearSession sid => snd (MemoryService.clearSession sid w)
  | GetSessionStats sid => snd (MemoryService.getSessionStats sid w)
  end.

Definition afterCalls (E : Env) (calls : list MemoryCall) (w : World) : World :=
  fold_left (afterCall E) calls w.

(** The world at start-up. *)
Definition emptyWorld : World :=
  {| sessions := ∅; documents := []; time := 0; rolls := 0; trace := [] |}.

(** The conversation histories handed to the chat provider, oldest call first. *)
Definition chatHistories (t : list Event) : list (list ConversationMessage) :=
  omap (fun e => match e with ChatCall _ _ h => Some h | _ => None end) t.

(** The texts whose embedding was requested. *)
Definition embedRequests (t : list Event) : list string :=
  omap (fun e => match e with EmbedCall q => Some q | _ => None end) t.

(** The query embedding [generateEmbedding] resolves to. *)
Definition embeddingOf (E : Env) (q : string) : list float :=
  match embedContent E q with
  | Some e => e
  | None => GeminiService.generateFallbackEmbedding q
  end.

(** What [searchSimilar] returns on a store that is not empty. *)
Definition searchResults (E : Env) (q : string) (topK : Z) (docs : list Document)
    : list SearchResult :=
  match VectorStore.scoreAll q (embeddingOf E q) docs with
  | inr results => VectorStore.rank results topK
  | inl _ => VectorStore.fallbackTextSearch q topK docs
  end.

(** The prompts handed to [generateContent], oldest call first:
    [generateChatCompletion] builds the prompt of a call from its three
    arguments. *)
Definition chatPrompts (t : list Event) : list string :=
  omap (fun e => match e with
                 | ChatCall sp m h => Some (GeminiService.fullPrompt sp m h)
                 | _ => None
                 end) t.

(** A step that leaves the sessions, the index and the clock alone and
    makes no chat call. *)
Definition quiet (w w' : World) : Prop :=
  sessions w' = sessions w /\ documents w' = documents w /\ time w' = time w /\
  chatHistories (trace w') = chatHistories (trace w) /\
  chatPrompts (trace w') = chatPrompts (trace w).

(** The world once the inbound message of a turn is in Session Memory. *)
Definition userTurn (E : Env) (req : AgentMessage) (w : World) : World :=
  snd (MemoryService.addMessage E (req_session_id req) user (message req) (tick w)).

(** The prompt of the chat call of a turn.  The call is recorded when it
    is made, whether it then succeeds or fails, and it is the last call of
    the trace the turn leaves. *)
Definition turnPrompt (E : Env) (req : AgentMessage) (w : World) : string :=
  default "" (last (chatPrompts (trace (snd (AgentService.processMessage E req w))))).

(** ** A sample environment, for the concrete runs

    An arithmetic evaluator for sums and products of integer literals, a
    clock that shows the number of its reading, an embedding provider that
    is down and a chat provider that always greets. *)

Module Sample.

Fixpoint readDigits (s : list ascii) (acc : Z) : Z * list ascii :=
  match s with
  | c :: s' =>
      if JS.isDigit c then readDigits s' (10 * acc + Z.of_nat (nat_of_ascii c) - 48)
      else (acc, s)
  | [] => (acc, [])
  end.

(** Integer arithmetic with the usual precedence: sums of products of
    literals and parenthesised sums. *)
Fixpoint evalSum (fuel : nat) (s : list ascii) : option (float * list ascii) :=
  match fuel with
  | O => None
  | S fuel' =>
      let atom (s : list ascii) : option (float * list ascii) :=
        match s with
        | "("%char :: s' =>
            match evalSum fuel' s' with
            | Some (v, ")"%char :: rest) => Some (v, rest)
            | _ => None
            end
        | c :: _ =>
            if JS.isDigit c
            then let '(n, rest) := readDigits s 0 in Some (GeminiService.ofZ n, rest)
            else None
        | [] => None
        end in
      let fix factors (k : nat) (acc : float) (s : list ascii) {struct k}
          : option (float * list ascii) :=
        match k, s with
        | S k', "*"%char :: s' =>
            match atom s' with
            | Some (v, rest) => factors k' (acc * v)%float rest
            | None => None
            end
        | S k', "/"%char :: s' =>
            match atom s' with
            | Some (v, rest) => factors k' (acc / v)%float rest
            | None => None
            end
        | _, _ => Some (acc, s)
        end in
      let product (s : list ascii) : option (float * list ascii) :=
        match atom s with
        | Some (v, rest) => factors (length rest) v rest
        | None => None
        end in
      let fix terms (k : nat) (acc : float) (s : list ascii) {struct k}
          : option (float * list ascii) :=
        match k, s with
        | S k', "+"%char :: s' =>
            match product s' with
            | Some (v, rest) => terms k' (acc + v)%float rest
            | None => None
            end
        | S k', "-"%char :: s' =>
            match product s' with
            | Some (v, rest) => terms k' (acc - v)%float rest
            | None => None
            end
        | _, _ => Some (acc, s)
        end in
      match product s with
      | Some (v, rest) => terms (length rest) v rest
      | None => None
      end
  end.

Definition arithmetic (e : string) : Exn + MathValue :=
  match evalSum (S (String.length e)) (chars e) with
  | Some (v, []) => inr (MathNumber v)
  | _ => inl (Error "Unexpected part of the expression")
  end.

Fixpoint digitsOf (fuel : nat) (n : Z) (acc : string) : string :=
  match fuel with
  | O => acc
  | S fuel' =>
      let acc' := String (ascii_of_nat (Z.to_nat (48 + n mod 10))) acc in
      if n <? 10 then acc' else digitsOf fuel' (n / 10) acc'
  end.

Definition showInt (n : Z) : string :=
  if n <? 0 then "-" +:+ digitsOf (Z.to_nat (- n)) (- n) ""
  else digitsOf (S (Z.to_nat n)) n "".

Definition env : Env :=
  {| clock := fun n => "T" +:+ showInt (Z.of_nat n);
     embedContent := fun _ => None;
     generateContent := fun _ => Some "Hello!";
     fetchWeather := fun _ => None;
     weatherApiKey := None;
     randomBelow := fun _ _ => 7;
     evaluate := arithmetic;
     parseFloat := fun _ => nan;
     numberToString := fun _ => "a number";
     intToString := showInt |}.

(** The same, with a chat provider that is down. *)
Definition envChatDown : Env :=
  {| clock := clock env; embedContent := embedContent env;
     generateContent := fun _ => None;
     fetchWeather := fetchWeather env; weatherApiKey := None;
     randomBelow := randomBelow env; evaluate := arithmetic;
     parseFloat := parseFloat env; numberToString := numberToString env;
     intToString := showInt |}.

(** The same, with a chat provider that fails on the prompts whose current
    message is [hello] and greets on every other prompt. *)
Definition envFlaky : Env :=
  {| clock := clock env; embedContent := embedContent env;
     generateContent := fun prompt =>
       if JS.includes (chars prompt)
            (chars ("Current message from Human: hello" +:+ GeminiService.nl))
       then None else Some "Hello!";
     fetchWeather := fetchWeather env; weatherApiKey := None;
     randomBelow := randomBelow env; evaluate := arithmetic;
     parseFloat := parseFloat env; numberToString := numberToString env;
     intToString := showInt |}.

End Sample.

(** The inbound message of a turn, as [addMessage] stores it. *)
Definition appended (E : Env) (req : AgentMessage) (w : World) : ConversationMessage :=
  {| role := user; content := message req; timestamp := clock E (S (time w)) |}.

(** A session that holds four messages, and a request on it. *)
Definition ws4 : World :=
  snd (addAll Sample.env "s"
         [(user, "one"); (assistant, "two"); (user, "three"); (assistant, "four")]
         emptyWorld).

Definition hello : AgentMessage := {| message := "hello"; req_session_id := "s" |}.

(** The scenario of the arithmetic plugin. *)
Definition twelveTimesFour : string := "What is 12 * 4?".

(** A success outcome of the arithmetic plugin. *)
Definition mathOutcome (expr : string) (x : float) : PluginResult :=
  {| plugin_name := "math";
     payload := MathPayload {| expression := expr; result := x;
                               math_success := true; math_error := None |};
     success := true; error := None |}.

(** Twenty-five messages, numbered from 1. *)
Definition twentyFive : list (Role * string) :=
  map (fun n => (if Nat.even n then assistant else user, Sample.showInt (Z.of_nat n)))
    (seq 1 25).

(** A text with a character that is not white space. *)
Definition hasInk (s : list ascii) : bool := existsb (fun c => negb (JS.isSpace c)) s.

(** The shape of a chunk: trimmed, with ink, of at most 1001 characters. *)
Definition wellShaped (chunk : list ascii) : Prop :=
  (0 < length chunk <= 1001)%nat /\ hasInk chunk = true.

(** A text of 1002 characters: a thousand letters, a full stop, a letter. *)
Definition longSentence : string :=
  str (repeat "a"%char 1000 ++ ["."%char; "b"%char]).

(** The classes of the change detection. *)
Inductive FileClass := IsNew | IsChanged | IsUnchanged.

#[export] Instance FileClass_eq_dec : EqDecision FileClass.
Proof. solve_decision. Defined.

Section FileClasses.
Context (F : PersistentVectorStore.FileSystem).

(** The content hash computed now is not the stored one. *)
Definition hashDiffers (filePath : string) (md : PersistentVectorStore.DocumentMetadata) : bool :=
  negb (String.eqb (PersistentVectorStore.getFileHash F filePath)
                   (PersistentVectorStore.fileHash md)).

(** The modification time read now is not the stored one: it is another
    number, or none can be read. *)
Definition timestampDiffers (filePath : string)
    (md : PersistentVectorStore.DocumentMetadata) : bool :=
  match PersistentVectorStore.mtimeMs F filePath with
  | Some t => PersistentVectorStore.numberDiffers t (PersistentVectorStore.lastModified md)
  | None => true
  end.

(** The class of a file by the words of the specification. *)
Definition classOf (directoryPath : string)
    (known : gmap string PersistentVectorStore.DocumentMetadata)
    (name : string) : FileClass :=
  match known !! name with
  | None => IsNew
  | Some md =>
      let filePath := PersistentVectorStore.pathJoin F directoryPath name in
      if hashDiffers filePath md || timestampDiffers filePath md then IsChanged
      else IsUnchanged
  end.

(** The paths of the files of class [c]. *)
Definition pathsOf (directoryPath : string)
    (known : gmap string PersistentVectorStore.DocumentMetadata)
    (c : FileClass) (names : list string) : list string :=
  map (PersistentVectorStore.pathJoin F directoryPath)
    (List.filter (fun name => bool_decide (classOf directoryPath known name = c)) names).

End FileClasses.

(** A directory of four markdown files and a text file: one file is not
    known yet, one was touched, one was edited, one is as it was. *)
Definition sampleFiles : PersistentVectorStore.FileSystem :=
  {| PersistentVectorStore.readdirSync := fun _ =>
       Some ["new.md"; "touched.md"; "edited.md"; "same.md"; "notes.txt"];
     PersistentVectorStore.mtimeMs := fun p =>
       Some (if String.eqb p "docs/touched.md" then 2%float else 1%float);
     PersistentVectorStore.readFileSync := fun p =>
       Some (if String.eqb p "docs/edited.md" then "second draft" else "first draft");
     PersistentVectorStore.md5hex := fun c => "md5 of " +:+ c;
     PersistentVectorStore.pathJoin := fun d n => d +:+ "/" +:+ n |}.

Definition seenBefore (name : string) : PersistentVectorStore.DocumentMetadata :=
  {| PersistentVectorStore.md_filename := name;
     PersistentVectorStore.fileHash := "md5 of first draft";
     PersistentVectorStore.lastModified := 1%float;
     PersistentVectorStore.chunkCount := 1;
     PersistentVectorStore.processedAt := "T0" |}.

Definition sampleKnown : gmap string PersistentVectorStore.DocumentMetadata :=
  <["touched.md" := seenBefore "touched.md"]>
    (<["edited.md" := seenBefore "edited.md"]>
       (<["same.md" := seenBefore "same.md"]> ∅)).

(** ** Binary64 numbers

    The value of a number that is not NaN, in units of [2^emin]; an
    infinity lies beyond every finite value. *)
Definition scaled (x : spec_float) : Z :=
  match x with
  | S754_zero _ => 0
  | S754_nan => 0
  | S754_infinity s => cond_Zopp s (2 ^ (emax - emin))
  | S754_finite s m e => cond_Zopp s (Zpos m * 2 ^ (e - emin))
  end.

Definition notNaN (x : spec_float) : Prop := x <> S754_nan.

(** A number with the sign [s] that is not zero: finite or infinite. *)
Definition signed (s : bool) (r : spec_float) : Prop :=
  match r with
  | S754_finite s' _ _ | S754_infinity s' => s' = s
  | _ => False
  end.

(** The key by which numbers that are not NaN are ordered. *)
Definition key (f : float) : Z := scaled (Prim2SF f).

(** ** Vectors *)


Definition dotProduct (a b : list float) : float :=
  fold_left (fun acc xy => (acc + fst xy * snd xy)%float) (combine a b) 0%float.






(** ** Ranking *)

(** The key of a result. *)
Definition scoreKey (r : SearchResult) : Z := key (similarity r).

Definition noNaN (results : list SearchResult) : Prop :=
  Forall (fun r => is_nan (similarity r) = false) results.

(** The score of one document, by its own path. *)
Definition scoreOf (q : string) (queryEmbedding : list float) (doc : Document) : Exn + float :=
  match embedding doc with
  | Some e => VectorStore.cosineSimilarity queryEmbedding e
  | None => inr (VectorStore.simpleTextSimilarity (VectorStore.lower q)
                   (VectorStore.lower (doc_content doc)))
  end.

(** The documents with their scores, in the order of the store: each by its
    own path, or all by the text heuristic when a cosine similarity threw. *)
Definition scoredBy (E : Env) (q : string) (docs : list Document) : list SearchResult :=
  match VectorStore.scoreAll q (embeddingOf E q) docs with
  | inr results => results
  | inl _ =>
      map (fun doc =>
             {| document := doc;
                similarity :=
                  VectorStore.simpleTextSimilarity (VectorStore.lower q)
                    (VectorStore.lower (doc_content doc)) |})
          docs
  end.

(** Descending order of the scores. *)
Definition descending (a b : SearchResult) : Prop :=
  (similarity b <=? similarity a)%float = true.

Definition sameScore (s : float) (r : SearchResult) : bool := (similarity r =? s)%float.

(** The same order on the keys. *)
Definition keyDescending (a b : SearchResult) : Prop := scoreKey b <= scoreKey a.

(** A store of three chunks: two with an embedding, one without; and a
    provider that embeds every text as the first unit vector. *)
Definition plainDoc (name text : string) (e : option (list float)) : Document :=
  {| id := name; doc_content := text;
     metadata := {| filename := name +:+ ".md"; title := None; author := None;
                    source := None; chunk_index := 0 |};
     embedding := e |}.

Definition envVectors : Env :=
  {| clock := clock Sample.env;
     embedContent := fun _ => Some [1%float; 0%float];
     generateContent := generateContent Sample.env;
     fetchWeather := fetchWeather Sample.env; weatherApiKey := None;
     randomBelow := randomBelow Sample.env; evaluate := evaluate Sample.env;
     parseFloat := parseFloat Sample.env; numberToString := numberToString Sample.env;
     intToString := intToString Sample.env |}.

Definition storeOfThree : World :=
  {| sessions := ∅;
     documents := [plainDoc "d1" "alpha" (Some [0%float; 1%float]);
                   plainDoc "d2" "beta" None;
                   plainDoc "d3" "gamma" (Some [1%float; 0%float])];
     time := 0; rolls := 0; trace := [] |}.

(** A provider whose embeddings overflow when squared, and a store of two
    chunks: the first is scored NaN (infinity by infinity), the second 0. *)
Definition envHuge : Env :=
  {| clock := clock Sample.env;
     embedContent := fun _ => Some [0x1p+600%float];
     generateContent := generateContent Sample.env;
     fetchWeather := fetchWeather Sample.env; weatherApiKey := None;
     randomBelow := randomBelow Sample.env; evaluate := evaluate Sample.env;
     parseFloat := parseFloat Sample.env; numberToString := numberToString Sample.env;
     intToString := intToString Sample.env |}.

Definition storeOfTwo : World :=
  {| sessions := ∅;
     documents := [plainDoc "d1" "alpha" (Some [0x1p+600%float]);
                   plainDoc "d2" "beta" (Some [1%float])];
     time := 0; rolls := 0; trace := [] |}.

(** ** Vocabulary of the further properties *)

(** The polynomial of base 31 over the code units of a string. *)
Definition polyHash (str : list ascii) : Z :=
  fold_left (fun h c => 31 * h + Z.of_nat (nat_of_ascii c)) str 0.

(** The prompt of the connection test. *)
Definition testPrompt : string :=
  GeminiService.fullPrompt "You are a helpful assistant."
    "Hello, can you respond briefly?" [].

(** The connection test fails: the chat provider answers and the embedding
    provider returns a vector without components. *)
Definition connectionFails (E : Env) : Prop :=
  is_Some (generateContent E testPrompt) /\ embedContent E "test connection" = Some [].

(** The code unit 92. *)
Definition backslash : ascii := ascii_of_nat 92.

Definition hasBackslash (s : list ascii) : bool := existsb (Ascii.eqb backslash) s.

(** The documents of a file. *)
Definition ofFile (name : string) (doc : Document) : Prop :=
  filename (metadata doc) = name.

(** The pieces occur in the text one after the other, without overlap. *)
Fixpoint inOrder (pieces : list (list ascii)) (text : list ascii) : Prop :=
  match pieces with
  | [] => True
  | piece :: rest =>
      exists before after, text = before ++ piece ++ after /\ inOrder rest after
  end.

(** The number of characters of a list of chunks. *)
Definition totalLength (chunks : list string) : nat :=
  fold_right (fun chunk n => (String.length chunk + n)%nat) 0%nat chunks.

(** The metadata [createFileMetadata] gives for the files [names] of a
    directory, as [processFiles] records them by file name. *)
Definition processedBy (F : PersistentVectorStore.FileSystem) (E : Env)
    (basename : string -> string) (dir : string) (names : list string)
    : gmap string PersistentVectorStore.DocumentMetadata :=
  list_to_map
    (omap (fun name =>
             match fst (PersistentVectorStore.createFileMetadata F E basename
                          (PersistentVectorStore.pathJoin F dir name) 1 emptyWorld) with
             | inr md => Some (name, md)
             | inl _ => None
             end) names).

(** What follows the last slash. *)
Definition afterSlash (p : string) : string :=
  str (JS.sliceFrom (chars p)
         (JS.lastIndexOf (chars p) ["/"%char] (Z.of_nat (String.length p)) + 1)).

(** The descriptions of the mock weather. *)
Definition mockDescriptions : list string := ["sunny"; "cloudy"; "partly cloudy"; "rainy"].

(** Weather data within the ranges of the mock. *)
Definition mockRanges (loc : string) (data : WeatherData) : Prop :=
  location data = loc /\
  5 <= temperature data < 35 /\
  description data ∈ mockDescriptions /\
  40 <= humidity data < 80 /\
  5 <= wind_speed data < 25.

(** A success of the weather plugin. *)
Definition weatherOutcome (data : WeatherData) : PluginResult :=
  {| plugin_name := "weather"; payload := WeatherPayload data;
     success := true; error := None |}.

(** The names of the plugins whose trigger fires on a message, in the
    order the manager runs them. *)
Definition triggered (userMessage : string) : list string :=
  (if WeatherPlugin.shouldExecute userMessage then ["weather"] else []) ++
  (if MathPlugin.shouldExecute userMessage then ["math"] else []).

(** The number of chat calls of a trace. *)
Definition chatCalls (t : list Event) : nat := length (chatHistories t).

(** A body the validation lets through: a message of 1 to 2000 code units
    and a session identifier that is not empty, both strings. *)
Definition validBody (body : AgentRouter.Body) : bool :=
  match AgentRouter.body_message body, AgentRouter.body_session_id body with
  | AgentRouter.JString m, AgentRouter.JString s =>
      negb (bool_decide (m = "")) && negb (bool_decide (s = ""))
      && (Z.of_nat (String.length m) <=? 2000)
  | _, _ => false
  end.

(** The request of a valid body. *)
Definition requestOf (body : AgentRouter.Body) : AgentMessage :=
  {| message := AgentRouter.asString (AgentRouter.body_message body);
     req_session_id := AgentRouter.asString (AgentRouter.body_session_id body) |}.

(** The status [errorHandler] gives an error, by its message: of the
    keywords the message contains, the one tested last decides. *)
Definition errorStatus (msg : string) : Z :=
  if JS.includes (chars msg) (chars "rate limit") then 429
  else if JS.includes (chars msg) (chars "validation") then 400
  else if JS.includes (chars msg) (chars "OpenAI") then 503
  else 500.

(** The message V8 gives the [TypeError] of destructuring an undefined
    [req.body]. *)
Definition destructureError : string :=
  "Cannot destructure property 'message' of 'req.body' as it is undefined.".

(** The status of an answer of the application. *)
Definition statusOf (out : App.ErrorReport + AgentRouter.Response AgentResponse) : Z :=
  match out with
  | inl report => App.report_status report
  | inr resp => AgentRouter.statusCode resp
  end.

(** The error a request ends with before the handler is reached, if any. *)
Definition handedToNext (parsed : App.Parsed) : option string :=
  match parsed with
  | App.ParseError msg | App.NoBody msg => Some msg
  | App.Fields _ => None
  end.

(** The evaluator computes the sum of the plugin test. *)
Definition evaluatesTestSum (E : Env) : Prop := exists v, evaluate E "2+2" = inr v.

(** The characters [cleanExpression] keeps. *)
Definition mathChar (c : ascii) : bool := JS.isDigit c || Regex.oneOf "+-*/^()." c.

(** A word without white space. *)
Definition spaceless (word : list ascii) : bool :=
  forallb (fun c => negb (JS.isSpace c)) word.

(** The message, in lower case, contains one of the keywords. *)
Definition mentions (keywords : list string) (userMessage : string) : bool :=
  existsb (fun keyword => JS.includes (JS.toLowerCase (chars userMessage)) (chars keyword))
    keywords.




(** The requests the router serves. *)
Inductive Request :=
| PostMessage (body : AgentRouter.Body)
| GetHealth
| GetStats (sessionId : string)
| DeleteSession (sessionId : string).

(** The world after a request, and after a sequence of requests. *)
Definition serve (E : Env) (w : World) (request : Request) : World :=
  match request with
  | PostMessage body => snd (AgentRouter.postMessage E body w)
  | GetHealth => snd (AgentRouter.getHealth E w)
  | GetStats sessionId => snd (AgentRouter.getStats E sessionId w)
  | DeleteSession sessionId => snd (AgentRouter.deleteSession E sessionId w)
  end.

Definition served (E : Env) (requests : list Request) (w : World) : World :=
  fold_left (serve E) requests w.

(** A message as the routes store it: not empty, and of at most 2000 code
    units when it is the user's. *)
Definition wellStored (m : ConversationMessage) : Prop :=
  content m <> "" /\ (role m = user -> (String.length (content m) <= 2000)%nat).

(** The invariant of the sessions behind the routes. *)
Definition tidy (w : World) : Prop :=
  forall sid, (length (history w sid) <= 20)%nat /\ Forall wellStored (history w sid).

Ltac by_compare :=
  f_equal; symmetry;
  first [ apply Z.compare_eq_iff; lia
        | apply Z.compare_lt_iff; lia
        | apply Z.compare_gt_iff; lia ].

Ltac mrun :=
  unfold mbind, M_bind, mret, M_ret, gets, modify, nowISO, throw, tryCatch, orThrow,
    tick, roll, emit, setSessions, setDocuments; simpl.

(** * Properties *)

(** ** The monad *)

Lemma bind_run {A B : Type} (m : M A) (f : A -> M B) (w : World) :
  (m ≫= f) w =
  match m w with
  | (inl e, w') => (inl e, w')
  | (inr a, w') => f a w'
  end.
Proof. reflexivity. Qed.

Lemma bind_ok {A B : Type} (m : M A) (f : A -> M B) (w w' : World) (a : A) :
  m w = (inr a, w') -> (m ≫= f) w = f a w'.
Proof. intros H. rewrite bind_run, H. reflexivity. Qed.

Lemma bind_throw {A B : Type} (m : M A) (f : A -> M B) (w w' : World) (e : Exn) :
  m w = (inl e, w') -> (m ≫= f) w = (inl e, w').
Proof. intros H. rewrite bind_run, H. reflexivity. Qed.

(** ** Binary64 arithmetic: order and the sign of a difference *)

Section Binary64.

Lemma digits2_pos_bounds (m : positive) :
  2 ^ (Zpos (digits2_pos m) - 1) <= Zpos m < 2 ^ Zpos (digits2_pos m).
Proof.
  induction m as [m IH|m IH|]; cbn [digits2_pos].
  - rewrite Pos2Z.inj_succ.
    replace (Z.succ (Zpos (digits2_pos m)) - 1) with (Z.succ (Zpos (digits2_pos m) - 1)) by lia.
    rewrite !Z.pow_succ_r by lia. lia.
  - rewrite Pos2Z.inj_succ.
    replace (Z.succ (Zpos (digits2_pos m)) - 1) with (Z.succ (Zpos (digits2_pos m) - 1)) by lia.
    rewrite !Z.pow_succ_r by lia. lia.
  - cbn. lia.
Qed.

Lemma bounded_inv (m : positive) (e : Z) :
  bounded prec emax m e = true ->
  emin <= e <= emax - prec /\
  Zpos (digits2_pos m) <= prec /\
  (emin < e -> Zpos (digits2_pos m) = prec).
Proof.
  unfold bounded, canonical_mantissa, fexp. intros H.
  apply andb_true_iff in H. destruct H as [H1 H2].
  apply Z.eqb_eq in H1. apply Z.leb_le in H2.
  unfold SpecFloat.emin, prec, emax in *. lia.
Qed.

Lemma finite_scaled_bounds (m : positive) (e : Z) :
  bounded prec emax m e = true ->
  0 < Zpos m * 2 ^ (e - emin) < 2 ^ (emax - emin).
Proof.
  intros H. apply bounded_inv in H. destruct H as (He & Hd & _).
  pose proof (digits2_pos_bounds m) as [_ Hm].
  change emin with (-1074) in *. change prec with 53 in *. change emax with 1024 in *.
  assert (Hp : 0 < 2 ^ (e - -1074)) by (apply Z.pow_pos_nonneg; lia).
  split; [apply Z.mul_pos_pos; lia|].
  apply Z.lt_le_trans with (2 ^ 53 * 2 ^ (e - -1074)).
  - apply Z.mul_lt_mono_pos_r; [exact Hp|].
    apply Z.lt_le_trans with (2 ^ Zpos (digits2_pos m)); [exact Hm|].
    apply Z.pow_le_mono_r; lia.
  - rewrite <- Z.pow_add_r by lia.
    apply Z.pow_le_mono_r; lia.
Qed.

(** Canonical numbers of the same sign are ordered by exponent first. *)
Lemma canonical_order (m1 m2 : positive) (e1 e2 : Z) :
  bounded prec emax m1 e1 = true -> bounded prec emax m2 e2 = true ->
  e1 < e2 ->
  Zpos m1 * 2 ^ (e1 - emin) < Zpos m2 * 2 ^ (e2 - emin).
Proof.
  intros H1 H2 Hlt.
  apply bounded_inv in H1. destruct H1 as (He1 & Hd1 & _).
  apply bounded_inv in H2. destruct H2 as (He2 & Hd2 & Hn2).
  pose proof (digits2_pos_bounds m1) as [_ Hm1].
  pose proof (digits2_pos_bounds m2) as [Hm2 _].
  change emin with (-1074) in *. change prec with 53 in *. change emax with 1024 in *.
  rewrite Hn2 in Hm2 by lia.
  replace (e2 - -1074) with ((e2 - e1) + (e1 - -1074)) by lia.
  rewrite Z.pow_add_r by lia.
  rewrite Z.mul_assoc.
  apply Z.mul_lt_mono_pos_r; [apply Z.pow_pos_nonneg; lia|].
  apply Z.lt_le_trans with (2 ^ 53).
  - apply Z.lt_le_trans with (2 ^ Zpos (digits2_pos m1)); [exact Hm1|].
    apply Z.pow_le_mono_r; lia.
  - assert (H21 : 2 ^ 1 <= 2 ^ (e2 - e1)) by (apply Z.pow_le_mono_r; lia).
    change (2 ^ 1) with 2 in H21.
    change (2 ^ 53) with (2 * 2 ^ (53 - 1)).
    assert (0 < 2 ^ (53 - 1)) by (apply Z.pow_pos_nonneg; lia).
    nia.
Qed.

Lemma compare_scaled (x y : spec_float) :
  valid_binary x = true -> valid_binary y = true -> notNaN x -> notNaN y ->
  SFcompare x y = Some (scaled x ?= scaled y).
Proof.
  intros Vx Vy Nx Ny.
  assert (HB : 0 < 2 ^ (emax - emin))
    by (apply Z.pow_pos_nonneg; cbv; [reflexivity | discriminate]).
  destruct x as [sx|sx| |sx mx ex]; [| |exfalso; apply Nx; reflexivity|];
  destruct y as [sy|sy| |sy my ey]; try (exfalso; apply Ny; reflexivity);
  cbn [valid_binary] in Vx, Vy;
  try (pose proof (finite_scaled_bounds mx ex Vx));
  try (pose proof (finite_scaled_bounds my ey Vy));
  cbn [SFcompare scaled];
  try set (vx := Zpos mx * 2 ^ (ex - emin)) in *;
  try set (vy := Zpos my * 2 ^ (ey - emin)) in *;
  set (B := 2 ^ (emax - emin)) in *.
  all: try (destruct sx; try destruct sy; cbn [cond_Zopp]; by_compare).
  all: try (destruct sy; cbn [cond_Zopp]; by_compare).
  (* finite, finite *)
  assert (Hp : 0 < 2 ^ (ex - emin)).
  { apply Z.pow_pos_nonneg; [lia|]. apply bounded_inv in Vx. lia. }
  assert (Hsame : ex = ey ->
            (Zpos mx < Zpos my -> vx < vy) /\ (Zpos my < Zpos mx -> vy < vx)
            /\ (mx = my -> vx = vy)).
  { intros <-. unfold vx, vy. repeat split; intros Hm.
    - apply Z.mul_lt_mono_pos_r; assumption.
    - apply Z.mul_lt_mono_pos_r; assumption.
    - subst my. reflexivity. }
  destruct sx, sy; cbn [cond_Zopp]; try by_compare.
  - destruct (Z.compare_spec ex ey) as [Heq|Hlt|Hgt].
    + destruct (Hsame Heq) as (H1 & H2 & H3).
      change (Pos.compare_cont Eq mx my) with (Pos.compare mx my).
      destruct (Pos.compare_spec mx my) as [Hm|Hm|Hm]; cbn [CompOpp].
      * specialize (H3 Hm). by_compare.
      * assert (vx < vy) by (apply H1; lia). by_compare.
      * assert (vy < vx) by (apply H2; lia). by_compare.
    + pose proof (canonical_order mx my ex ey Vx Vy Hlt) as Hc. fold vx vy in Hc. by_compare.
    + pose proof (canonical_order my mx ey ex Vy Vx Hgt) as Hc. fold vx vy in Hc. by_compare.
  - destruct (Z.compare_spec ex ey) as [Heq|Hlt|Hgt].
    + destruct (Hsame Heq) as (H1 & H2 & H3).
      change (Pos.compare_cont Eq mx my) with (Pos.compare mx my).
      destruct (Pos.compare_spec mx my) as [Hm|Hm|Hm].
      * specialize (H3 Hm). by_compare.
      * assert (vx < vy) by (apply H1; lia). by_compare.
      * assert (vy < vx) by (apply H2; lia). by_compare.
    + pose proof (canonical_order mx my ex ey Vx Vy Hlt) as Hc. fold vx vy in Hc. by_compare.
    + pose proof (canonical_order my mx ey ex Vy Vx Hgt) as Hc. fold vx vy in Hc. by_compare.
Qed.

(** ** Rounding a positive number *)

Lemma shr_1_m (r : shr_record) :
  0 <= shr_m r -> shr_m (shr_1 r) = shr_m r / 2.
Proof.
  destruct r as [m b s]. cbn [shr_m]. intros Hm.
  destruct m as [|p|p]; [reflexivity| |lia].
  destruct p as [p|p|]; cbn [shr_1 shr_m].
  - rewrite Pos2Z.inj_xI. apply Z.div_unique with 1; lia.
  - rewrite Pos2Z.inj_xO. apply Z.div_unique with 0; lia.
  - reflexivity.
Qed.

Lemma pow2_xO (q : positive) : 2 ^ Zpos q~0 = 2 ^ Zpos q * 2 ^ Zpos q.
Proof.
  replace (Zpos q~0) with (Zpos q + Zpos q) by lia.
  apply Z.pow_add_r; lia.
Qed.

Lemma pow2_xI (q : positive) : 2 ^ Zpos q~1 = 2 * (2 ^ Zpos q * 2 ^ Zpos q).
Proof.
  replace (Zpos q~1) with (Z.succ (Zpos q + Zpos q)) by lia.
  rewrite Z.pow_succ_r by lia. rewrite Z.pow_add_r by lia. reflexivity.
Qed.

Lemma iter_shr_1_m (q : positive) : forall r : shr_record,
  0 <= shr_m r -> shr_m (SpecFloat.iter_pos shr_1 q r) = shr_m r / 2 ^ Zpos q.
Proof.
  assert (Hnn : forall r, 0 <= shr_m r -> 0 <= shr_m (shr_1 r)).
  { intros r Hr. rewrite shr_1_m by exact Hr. apply Z.div_pos; lia. }
  induction q as [q IH|q IH|]; intros r Hr; cbn [SpecFloat.iter_pos].
  - assert (Hp : 0 < 2 ^ Zpos q) by (apply Z.pow_pos_nonneg; lia).
    assert (H1 : 0 <= shr_m (SpecFloat.iter_pos shr_1 q (shr_1 r))).
    { rewrite IH by (apply Hnn; exact Hr). apply Z.div_pos; [apply Hnn; exact Hr|exact Hp]. }
    rewrite IH by exact H1. rewrite IH by (apply Hnn; exact Hr).
    rewrite shr_1_m by exact Hr.
    rewrite !Z.div_div by lia. rewrite pow2_xI. f_equal; lia.
  - assert (Hp : 0 < 2 ^ Zpos q) by (apply Z.pow_pos_nonneg; lia).
    assert (H1 : 0 <= shr_m (SpecFloat.iter_pos shr_1 q r)).
    { rewrite IH by exact Hr. apply Z.div_pos; [exact Hr|exact Hp]. }
    rewrite IH by exact H1. rewrite IH by exact Hr.
    rewrite Z.div_div by lia. rewrite pow2_xO. reflexivity.
  - rewrite shr_1_m by exact Hr. reflexivity.
Qed.

Lemma shr_record_of_loc_m (m : Z) (l : SpecFloat.location) : shr_m (shr_record_of_loc m l) = m.
Proof. destruct l as [|[]]; reflexivity. Qed.

Lemma shr_fexp_pos (m e : Z) (l : SpecFloat.location) :
  0 < m -> emin <= e ->
  0 < shr_m (fst (shr_fexp prec emax m e l)) /\ emin <= snd (shr_fexp prec emax m e l).
Proof.
  intros Hm He. unfold shr_fexp, shr.
  destruct m as [|p|p]; try lia. cbn [Zdigits2].
  pose proof (digits2_pos_bounds p) as [Hlo _].
  set (d := Zpos (digits2_pos p)) in *.
  unfold fexp. change (SpecFloat.emin prec emax) with (-1074) in *. change prec with 53 in *.
  destruct (Z.max (d + e - 53) (-1074) - e) as [|q|q] eqn:Hn; cbn [fst snd].
  - rewrite shr_record_of_loc_m. lia.
  - rewrite iter_shr_1_m by (rewrite shr_record_of_loc_m; lia).
    rewrite shr_record_of_loc_m.
    assert (Hq : Zpos q = d - 53) by lia.
    split; [|lia].
    apply Z.div_str_pos. split; [apply Z.pow_pos_nonneg; lia|].
    apply Z.le_trans with (2 ^ (d - 1)); [|exact Hlo].
    apply Z.pow_le_mono_r; lia.
  - rewrite shr_record_of_loc_m. lia.
Qed.

Lemma round_nearest_even_pos (m : Z) (l : SpecFloat.location) :
  0 < m -> 0 < round_nearest_even m l.
Proof.
  intros Hm. destruct l as [|[]]; cbn [round_nearest_even]; try lia.
  destruct (Z.even m); lia.
Qed.

Lemma binary_round_aux_signed (s : bool) (m e : Z) (l : SpecFloat.location) :
  0 < m -> emin <= e -> signed s (binary_round_aux prec emax s m e l).
Proof.
  intros Hm He. unfold binary_round_aux.
  pose proof (shr_fexp_pos m e l Hm He) as [H1 H2].
  destruct (shr_fexp prec emax m e l) as [mrs1 e1]. cbn [fst snd] in H1, H2.
  pose proof (shr_fexp_pos _ e1 loc_Exact
                (round_nearest_even_pos _ (loc_of_shr_record mrs1) H1) H2) as [H3 _].
  destruct (shr_fexp prec emax _ e1 loc_Exact) as [mrs2 e2]. cbn [fst] in H3.
  destruct (shr_m mrs2) as [|p|p]; try lia.
  destruct (e2 <=? emax - prec); reflexivity.
Qed.

Lemma iter_xO_val (d m : positive) : Zpos (Pos.iter xO m d) = Zpos m * 2 ^ Zpos d.
Proof.
  induction d as [|d IH] using Pos.peano_ind.
  - cbn. lia.
  - rewrite Pos.iter_succ, Pos2Z.inj_xO, IH, Pos2Z.inj_succ, Z.pow_succ_r by lia. lia.
Qed.

Lemma shl_align_val (m : positive) (e ez : Z) :
  ez <= e ->
  Zpos (fst (shl_align m e ez)) = Zpos m * 2 ^ (e - ez) /\ snd (shl_align m e ez) = ez.
Proof.
  intros Hle. unfold shl_align.
  destruct (ez - e) as [|d|d] eqn:Hd; cbn [fst snd].
  - replace (e - ez) with 0 by lia. cbn. lia.
  - lia.
  - rewrite iter_xO_val. replace (e - ez) with (Zpos d) by lia. lia.
Qed.

Lemma binary_round_signed (s : bool) (m : positive) (e : Z) :
  emin <= e -> signed s (binary_round prec emax s m e).
Proof.
  intros He. unfold binary_round.
  destruct (shl_align m e (fexp prec emax (Zpos (digits2_pos m) + e))) as [mz ez] eqn:Hsh.
  apply binary_round_aux_signed; [lia|].
  unfold shl_align in Hsh.
  destruct (fexp prec emax (Zpos (digits2_pos m) + e) - e) eqn:Hd;
    injection Hsh as _ <-; try lia.
  unfold fexp. apply Z.le_max_r.
Qed.

(** The sign of a rounded integer is the sign of the integer. *)
Lemma binary_normalize_sign (D e : Z) :
  emin <= e ->
  SFltb (S754_zero false) (binary_normalize prec emax D e false) = (0 <? D).
Proof.
  intros He. destruct D as [|p|p]; cbn [binary_normalize].
  - reflexivity.
  - pose proof (binary_round_signed false p e He) as Hs.
    destruct (binary_round prec emax false p e); cbn in Hs; try contradiction; subst; reflexivity.
  - pose proof (binary_round_signed true p e He) as Hs.
    destruct (binary_round prec emax true p e); cbn in Hs; try contradiction; subst; reflexivity.
Qed.

(** ** The sign of a difference *)

Lemma aligned_scaled (m : positive) (e ez : Z) :
  emin <= ez -> ez <= e ->
  Zpos (fst (shl_align m e ez)) * 2 ^ (ez - emin) = Zpos m * 2 ^ (e - emin).
Proof.
  intros H1 H2. destruct (shl_align_val m e ez H2) as [-> _].
  rewrite <- Z.mul_assoc, <- Z.pow_add_r by lia. f_equal. f_equal. lia.
Qed.

Lemma cond_Zopp_mul (s : bool) (a b : Z) : cond_Zopp s a * b = cond_Zopp s (a * b).
Proof. destruct s; cbn; lia. Qed.

Lemma sub_sign (x y : spec_float) :
  valid_binary x = true -> valid_binary y = true -> notNaN x -> notNaN y ->
  SFltb (S754_zero false) (SFsub prec emax y x) = (scaled x <? scaled y).
Proof.
  intros Vx Vy Nx Ny.
  assert (HB : 0 < 2 ^ (emax - emin))
    by (apply Z.pow_pos_nonneg; cbv; [reflexivity | discriminate]).
  destruct x as [sx|sx| |sx mx ex]; [| |exfalso; apply Nx; reflexivity|];
  destruct y as [sy|sy| |sy my ey]; try (exfalso; apply Ny; reflexivity);
  cbn [valid_binary] in Vx, Vy;
  try (pose proof (finite_scaled_bounds mx ex Vx));
  try (pose proof (finite_scaled_bounds my ey Vy)).
  all: try (cbn [SFsub scaled];
            try set (vx := Zpos mx * 2 ^ (ex - emin)) in *;
            try set (vy := Zpos my * 2 ^ (ey - emin)) in *;
            set (B := 2 ^ (emax - emin)) in *;
            destruct sx; try destruct sy; cbn [cond_Zopp negb SFltb SFcompare];
            symmetry; first [apply Z.ltb_lt; lia | apply Z.ltb_ge; lia]).
  all: try (cbn [SFsub scaled];
            try set (vx := Zpos mx * 2 ^ (ex - emin)) in *;
            try set (vy := Zpos my * 2 ^ (ey - emin)) in *;
            set (B := 2 ^ (emax - emin)) in *;
            destruct sy; cbn [cond_Zopp negb SFltb SFcompare];
            symmetry; first [apply Z.ltb_lt; lia | apply Z.ltb_ge; lia]).
  (* finite, finite *)
  cbn [SFsub]. cbv zeta.
  pose proof (bounded_inv mx ex Vx) as (Hex & _).
  pose proof (bounded_inv my ey Vy) as (Hey & _).
  set (ez := Z.min ey ex).
  rewrite binary_normalize_sign by (unfold ez; lia).
  set (D := cond_Zopp sy (Zpos (fst (shl_align my ey ez)))
            - cond_Zopp sx (Zpos (fst (shl_align mx ex ez)))).
  assert (Hp : 0 < 2 ^ (ez - emin)) by (apply Z.pow_pos_nonneg; unfold ez; lia).
  assert (HD : D * 2 ^ (ez - emin) = scaled (S754_finite sy my ey) - scaled (S754_finite sx mx ex)).
  { unfold D. rewrite Z.mul_sub_distr_r, !cond_Zopp_mul.
    rewrite !aligned_scaled by (unfold ez; lia). reflexivity. }
  destruct (Z.ltb_spec 0 D) as [HD0|HD0]; symmetry.
  - apply Z.ltb_lt. nia.
  - apply Z.ltb_ge. nia.
Qed.

(** ** Primitive floats *)

Lemma is_nan_spec (f : float) : is_nan f = false -> notNaN (Prim2SF f).
Proof.
  unfold is_nan, notNaN. rewrite FloatAxioms.eqb_spec. intros H Hn. rewrite Hn in H. discriminate H.
Qed.

Lemma ltb_key (x y : float) :
  is_nan x = false -> is_nan y = false -> (x <? y)%float = (key x <? key y).
Proof.
  intros Hx Hy. rewrite FloatAxioms.ltb_spec. unfold SFltb, key.
  rewrite compare_scaled by auto using Prim2SF_valid, is_nan_spec.
  unfold Z.ltb. destruct (_ ?= _); reflexivity.
Qed.

Lemma leb_key (x y : float) :
  is_nan x = false -> is_nan y = false -> (x <=? y)%float = (key x <=? key y).
Proof.
  intros Hx Hy. rewrite FloatAxioms.leb_spec. unfold SFleb, key.
  rewrite compare_scaled by auto using Prim2SF_valid, is_nan_spec.
  unfold Z.leb. destruct (_ ?= _); reflexivity.
Qed.

Lemma eqb_key (x y : float) :
  is_nan x = false -> is_nan y = false -> (x =? y)%float = (key x =? key y).
Proof.
  intros Hx Hy. rewrite FloatAxioms.eqb_spec. unfold SFeqb, key.
  rewrite compare_scaled by auto using Prim2SF_valid, is_nan_spec.
  fold (key x) (key y).
  destruct (Z.compare_spec (key x) (key y)); symmetry;
    [apply Z.eqb_eq | apply Z.eqb_neq | apply Z.eqb_neq]; lia.
Qed.

Lemma sub_positive (x y : float) :
  is_nan x = false -> is_nan y = false -> (0 <? y - x)%float = (key x <? key y).
Proof.
  intros Hx Hy. rewrite FloatAxioms.ltb_spec, FloatAxioms.sub_spec.
  change (Prim2SF 0%float) with (S754_zero false).
  apply sub_sign; auto using Prim2SF_valid, is_nan_spec.
Qed.

End Binary64.

(** ** Cosine similarity *)

Section Cosine.
Import VectorStore.
Local Open Scope float_scope.




(** *** Multiplication commutes *)

Lemma SFmul_comm (x y : spec_float) : SFmul prec emax x y = SFmul prec emax y x.
Proof.
  destruct x as [sx|sx| |sx mx ex], y as [sy|sy| |sy my ey]; cbn [SFmul];
    rewrite ?(xorb_comm sx sy), ?(Pos.mul_comm mx my), ?(Z.add_comm ex ey); reflexivity.
Qed.

Lemma mul_comm (x y : float) : x * y = y * x.
Proof. apply Prim2SF_inj. rewrite !mul_spec. apply SFmul_comm. Qed.



(** *** Zero *)








(** *** A vector against itself and against its negation *)
















(** *** A quotient of a number by itself *)




(** *** A norm that is not finite *)







End Cosine.

Section CosineLaws.
Import VectorStore.
Local Open Scope float_scope.




End CosineLaws.

(** ** Slices *)

Section Slices.
Context {A : Type}.
Implicit Types l : list A.

Lemma slice_length_le l (b e : Z) : (length (JS.slice l b e) <= length l)%nat.
Proof.
  unfold JS.slice. rewrite length_take, length_drop. lia.
Qed.

Lemma slice_prefix l (k : Z) : 0 <= k -> JS.slice l 0 k = take (Z.to_nat k) l.
Proof.
  intros Hk. unfold JS.slice, JS.relIndex.
  change (0 <? 0) with false. cbv iota.
  destruct (Z.ltb_spec k 0); [lia|].
  replace (Z.to_nat (Z.min 0 (Z.of_nat (length l)))) with 0%nat by lia.
  rewrite drop_0.
  destruct (Z.le_ge_cases k (Z.of_nat (length l))).
  - f_equal. lia.
  - rewrite !take_ge by lia. reflexivity.
Qed.

(** [l.slice(0, k)] drops the last [-k] elements when [k] is negative. *)
Lemma slice_negative l (k : Z) :
  k < 0 -> JS.slice l 0 k = take (length l - Z.to_nat (- k)) l.
Proof.
  intros Hk. unfold JS.slice, JS.relIndex.
  change (0 <? 0) with false. cbv iota.
  destruct (Z.ltb_spec k 0); [|lia].
  replace (Z.to_nat (Z.min 0 (Z.of_nat (length l)))) with 0%nat by lia.
  rewrite drop_0. f_equal. lia.
Qed.

(** [l.slice(-n)] keeps the last [n] elements. *)
Lemma sliceFrom_last l (n : Z) :
  0 < n -> JS.sliceFrom l (- n) = drop (length l - Z.to_nat n) l.
Proof.
  intros Hn. unfold JS.sliceFrom, JS.slice, JS.relIndex.
  destruct (Z.ltb_spec (- n) 0); [|lia].
  destruct (Z.ltb_spec (Z.of_nat (length l)) 0); [lia|].
  rewrite take_ge by (rewrite length_drop; lia).
  f_equal. lia.
Qed.

(** [l.slice(0, -1)] drops the last element. *)
Lemma slice_drop_last l : JS.slice l 0 (-1) = take (length l - 1) l.
Proof.
  unfold JS.slice, JS.relIndex.
  change (0 <? 0) with false. change (-1 <? 0) with true. cbv iota.
  replace (Z.to_nat (Z.min 0 (Z.of_nat (length l)))) with 0%nat by lia.
  rewrite drop_0. f_equal. lia.
Qed.

End Slices.

(** ** Session memory *)

Lemma lastN_length {A : Type} (n : nat) (l : list A) : (length (lastN n l) <= n)%nat.
Proof. unfold lastN. rewrite length_drop. lia. Qed.

Lemma lastN_small {A : Type} (n : nat) (l : list A) :
  (length l <= n)%nat -> lastN n l = l.
Proof.
  intros H. unfold lastN. replace (length l - n)%nat with 0%nat by lia. apply drop_0.
Qed.

Lemma map_lastN {A B : Type} (f : A -> B) (n : nat) (l : list A) :
  map f (lastN n l) = lastN n (map f l).
Proof. unfold lastN. rewrite <- skipn_map, length_map. reflexivity. Qed.

Lemma lastN_app_lastN {A : Type} (n : nat) (l r : list A) :
  lastN n (lastN n l ++ r) = lastN n (l ++ r).
Proof.
  unfold lastN. rewrite !drop_app, drop_drop, !length_app, !length_drop.
  f_equal; f_equal; lia.
Qed.

Section Memory.
Context (E : Env).

Lemma addMessage_run sid r c w :
  exists s',
    MemoryService.addMessage E sid r c w =
      (inr tt,
       {| sessions := <[sid := s']> (sessions w); documents := documents w;
          time := (addTicks w sid + time w)%nat; rolls := rolls w; trace := trace w |})
    /\ messages s' =
         capped (history w sid ++ [{| role := r; content := c; timestamp := clock E (time w) |}]).
Proof.
  unfold MemoryService.addMessage, history, addTicks. mrun.
  destruct (sessions w !! sid) as [s|] eqn:Hs.
  - rewrite bool_decide_eq_true_2 by eauto. simpl. rewrite Hs.
    eexists. split.
    + reflexivity.
    + cbn. set (pushed := messages s ++ _).
      destruct (Z.ltb_spec MemoryService.MAX_MESSAGES_PER_SESSION (Z.of_nat (length pushed))).
      * rewrite sliceFrom_last by reflexivity. reflexivity.
      * symmetry. apply lastN_small. unfold MemoryService.MAX_MESSAGES_PER_SESSION in *. lia.
  - rewrite bool_decide_eq_false_2 by (intros [? ?]; discriminate). simpl.
    rewrite lookup_insert_eq. simpl. rewrite insert_insert_eq.
    eexists. split; reflexivity.
Qed.

Lemma addMessage_history sid r c w sid' :
  fst (MemoryService.addMessage E sid r c w) = inr tt /\
  history (snd (MemoryService.addMessage E sid r c w)) sid' =
    if decide (sid = sid')
    then capped (history w sid ++ [{| role := r; content := c; timestamp := clock E (time w) |}])
    else history w sid'.
Proof.
  destruct (addMessage_run sid r c w) as (s' & -> & Hs'). split; [reflexivity|].
  unfold history at 1. simpl. rewrite lookup_insert.
  destruct (decide (sid = sid')); [exact Hs' | reflexivity].
Qed.

Lemma capped_length l : (length (capped l) <= 20)%nat.
Proof. apply lastN_length. Qed.

Lemma addMessage_withinCap sid r c w :
  withinCap w -> withinCap (snd (MemoryService.addMessage E sid r c w)).
Proof.
  intros Hw sid'.
  destruct (addMessage_history sid r c w sid') as [_ ->].
  destruct (decide (sid = sid')); [apply capped_length | apply Hw].
Qed.

Lemma clearSession_withinCap sid w :
  withinCap w -> withinCap (snd (MemoryService.clearSession sid w)).
Proof.
  intros Hw sid'. unfold history. cbn.
  destruct (decide (sid = sid')) as [->|Hne].
  - rewrite lookup_delete_eq. cbn. lia.
  - rewrite lookup_delete_ne by done. apply Hw.
Qed.

Lemma addAll_history sid ms : forall w,
  (length (history w sid) <= 20)%nat ->
  fst (addAll E sid ms w) = inr tt /\
  map said (history (snd (addAll E sid ms w)) sid) =
    lastN 20 (map said (history w sid) ++ ms).
Proof.
  induction ms as [|[r c] ms IH]; intros w Hw.
  - cbn. split; [reflexivity|]. rewrite app_nil_r.
    symmetry. apply lastN_small. rewrite length_map. exact Hw.
  - cbn [addAll]. rewrite bind_run.
    pose proof (addMessage_history sid r c w sid) as [Hok Hh].
    destruct (MemoryService.addMessage E sid r c w) as [[e|[]] w1]; [discriminate|].
    cbn in Hh. rewrite decide_True in Hh by reflexivity.
    destruct (IH w1) as [IH1 IH2].
    { rewrite Hh. apply capped_length. }
    split; [exact IH1|].
    rewrite IH2, Hh. unfold capped. rewrite map_lastN, map_app. cbn [map said role content].
    rewrite lastN_app_lastN, <- app_assoc. reflexivity.
Qed.

Lemma addAll_any sid r c ms w :
  fst (addAll E sid ((r, c) :: ms) w) = inr tt /\
  map said (history (snd (addAll E sid ((r, c) :: ms) w)) sid) =
    lastN 20 (map said (history w sid) ++ (r, c) :: ms).
Proof.
  cbn [addAll]. rewrite bind_run.
  pose proof (addMessage_history sid r c w sid) as [Hok Hh].
  destruct (MemoryService.addMessage E sid r c w) as [[e|[]] w1]; [discriminate|].
  cbn in Hh. rewrite decide_True in Hh by reflexivity.
  destruct (addAll_history sid ms w1) as [IH1 IH2].
  { rewrite Hh. apply capped_length. }
  split; [exact IH1|].
  rewrite IH2, Hh. unfold capped. rewrite map_lastN, map_app. cbn [map said role content].
  rewrite lastN_app_lastN, <- app_assoc. reflexivity.
Qed.

Lemma readers_leave_world sid n w :
  snd (MemoryService.getSessionHistory sid w) = w /\
  snd (MemoryService.getRecentMessages sid n w) = w /\
  snd (MemoryService.getConversationSummary sid w) = w /\
  snd (MemoryService.getSessionStats sid w) = w.
Proof.
  unfold MemoryService.getConversationSummary, MemoryService.getRecentMessages,
    MemoryService.getSessionHistory, MemoryService.getSessionStats.
  mrun. repeat split; try reflexivity.
  destruct (bool_decide _); reflexivity.
Qed.

Lemma afterCall_withinCap w call : withinCap w -> withinCap (afterCall E w call).
Proof.
  intros Hw. destruct call as [sid r c|sid|sid n|sid|sid|sid]; cbn [afterCall].
  - apply addMessage_withinCap. exact Hw.
  - rewrite (proj1 (readers_leave_world sid 0 w)). exact Hw.
  - rewrite (proj1 (proj2 (readers_leave_world sid n w))). exact Hw.
  - rewrite (proj1 (proj2 (proj2 (readers_leave_world sid 0 w)))). exact Hw.
  - apply clearSession_withinCap. exact Hw.
  - rewrite (proj2 (proj2 (proj2 (readers_leave_world sid 0 w)))). exact Hw.
Qed.

Lemma afterCalls_withinCap calls : forall w, withinCap w -> withinCap (afterCalls E calls w).
Proof.
  unfold afterCalls. induction calls as [|call calls IH]; intros w Hw; [exact Hw|].
  cbn [fold_left]. apply IH. apply afterCall_withinCap. exact Hw.
Qed.

Lemma emptyWorld_withinCap : withinCap emptyWorld.
Proof. intros sid. unfold history. cbn. rewrite lookup_empty. cbn. lia. Qed.

(** C3.  No session ever holds more than 20 messages: the bound holds at
    start-up, every operation of the service keeps it, and so it holds
    after every sequence of operations; and of 25 messages appended to one
    session the last 20 remain, in order. *)
Theorem session_cap_fifo :
  (forall calls, withinCap (afterCalls E calls emptyWorld)) /\
  (forall w call, withinCap w -> withinCap (afterCall E w call)) /\
  (forall w sid ms,
     length ms = 25%nat ->
     fst (addAll E sid ms w) = inr tt /\
     map said (history (snd (addAll E sid ms w)) sid) = drop 5 ms).
Proof.
  split; [|split].
  - intros calls. apply afterCalls_withinCap, emptyWorld_withinCap.
  - intros w call. apply afterCall_withinCap.
  - intros w sid [|[r c] ms] Hlen; [discriminate|].
    destruct (addAll_any sid r c ms w) as [H1 H2]. split; [exact H1|].
    rewrite H2. unfold lastN. rewrite length_app, length_map, Hlen.
    rewrite drop_app_ge by (rewrite length_map; lia).
    f_equal. rewrite length_map. lia.
Qed.
End Memory.

Lemma session_cap_fifo_witness :
  withinCap (afterCall Sample.env emptyWorld (AddMessage "s" user "hi")) /\
  fst (addAll Sample.env "s" twentyFive emptyWorld) = inr tt /\
  map said (history (snd (addAll Sample.env "s" twentyFive emptyWorld)) "s") =
    drop 5 twentyFive.
Proof.
  pose proof (session_cap_fifo Sample.env) as (Hall & Hcall & Hfifo).
  split.
  - apply Hcall. exact (Hall []).
  - apply Hfifo. reflexivity.
Defined.

(** ** One turn of the orchestrator, step by step *)

Lemma quiet_refl w : quiet w w.
Proof. repeat split. Qed.

Lemma quiet_trans w1 w2 w3 : quiet w1 w2 -> quiet w2 w3 -> quiet w1 w3.
Proof. unfold quiet. intros (?&?&?&?&?) (?&?&?&?&?). repeat split; congruence. Qed.

Lemma chatHistories_app t1 t2 :
  chatHistories (t1 ++ t2) = chatHistories t1 ++ chatHistories t2.
Proof. apply omap_app. Qed.

Lemma chatPrompts_app t1 t2 :
  chatPrompts (t1 ++ t2) = chatPrompts t1 ++ chatPrompts t2.
Proof. apply omap_app. Qed.

Section Steps.
Context (E : Env).

Lemma generateEmbedding_run q w :
  GeminiService.generateEmbedding E q w = (inr (embeddingOf E q), emit (EmbedCall q) w).
Proof.
  unfold GeminiService.generateEmbedding, embeddingOf. mrun.
  destruct (embedContent E q); reflexivity.
Qed.

Lemma searchSimilar_run q k w :
  VectorStore.searchSimilar E q k w =
  if bool_decide (length (documents w) = 0%nat) then (inr [], w)
  else (inr (searchResults E q k (documents w)), emit (EmbedCall q) w).
Proof.
  unfold VectorStore.searchSimilar. rewrite bind_run. cbn [gets].
  destruct (bool_decide _); [reflexivity|].
  unfold tryCatch. rewrite bind_run, generateEmbedding_run.
  unfold searchResults. rewrite bind_run.
  destruct (VectorStore.scoreAll q (embeddingOf E q) (documents w)); reflexivity.
Qed.

Lemma searchSimilar_quiet q k w :
  exists res w', tryCatch (VectorStore.searchSimilar E q k) (fun _ => mret []) w = (inr res, w')
                 /\ quiet w w'.
Proof.
  unfold tryCatch. rewrite searchSimilar_run.
  destruct (bool_decide _); eexists _, _; (split; [reflexivity|]).
  - apply quiet_refl.
  - repeat split; cbn; rewrite ?chatHistories_app, ?chatPrompts_app; cbn; apply app_nil_r.
Qed.

Lemma randomInt_run k w :
  WeatherPlugin.randomInt E k w = (inr (randomBelow E (rolls w) k mod k), roll w).
Proof. reflexivity. Qed.

Lemma mock_quiet loc w :
  exists res w', WeatherPlugin.getMockWeatherData E loc w = (inr res, w') /\ quiet w w'
    /\ plugin_name res = "weather".
Proof.
  unfold WeatherPlugin.getMockWeatherData.
  rewrite !bind_run, !randomInt_run. cbn -[Z.modulo].
  eexists _, _. split; [reflexivity|]. split; [|reflexivity]. repeat split.
Qed.

Lemma weather_quiet ctx w :
  exists res w', WeatherPlugin.execute E ctx w = (inr res, w') /\ quiet w w'
    /\ plugin_name res = "weather".
Proof.
  unfold WeatherPlugin.execute, tryCatch.
  destruct (negb (WeatherPlugin.hasKey E)).
  - destruct (mock_quiet (WeatherPlugin.extractLocation (user_message ctx)) w)
      as (res & w' & -> & Hq). eauto.
  - unfold WeatherPlugin.fetchWeatherData. rewrite !bind_run. cbn [modify].
    unfold orThrow. destruct (fetchWeather E _) as [wd|].
    + cbn. eexists _, _. split; [reflexivity|]. split; [|reflexivity].
      repeat split; cbn; rewrite ?chatHistories_app, ?chatPrompts_app; cbn; apply app_nil_r.
    + cbn.
      destruct (mock_quiet (WeatherPlugin.extractLocation (user_message ctx))
                 (emit (WeatherCall (WeatherPlugin.extractLocation (user_message ctx))) w))
        as (res & w' & -> & Hq & Hn).
      eexists _, _. split; [reflexivity|]. split; [|exact Hn].
      eapply quiet_trans; [|exact Hq].
      repeat split; cbn; rewrite ?chatHistories_app, ?chatPrompts_app; cbn; apply app_nil_r.
Qed.

Lemma math_run ctx w :
  exists res, MathPlugin.execute E ctx w = (inr res, w) /\ plugin_name res = "math".
Proof.
  unfold MathPlugin.execute, tryCatch.
  destruct (MathPlugin.extractExpression (user_message ctx)) as [[|c e]|].
  - eexists. split; reflexivity.
  - rewrite bind_run. unfold VectorStore.liftExn.
    destruct (evaluate E _) as [[msg]|v]; cbn; eexists; split; reflexivity.
  - eexists. split; reflexivity.
Qed.

Lemma executePlugins_quiet ctx w :
  exists res w', PluginManager.executePlugins E ctx w = (inr res, w') /\ quiet w w'.
Proof.
  unfold PluginManager.executePlugins, tryCatch. rewrite bind_run.
  destruct (WeatherPlugin.shouldExecute (user_message ctx)).
  - rewrite bind_run.
    destruct (weather_quiet ctx w) as (r1 & w1 & -> & Hq & _).
    cbn. rewrite bind_run.
    destruct (MathPlugin.shouldExecute (user_message ctx)).
    + rewrite bind_run. destruct (math_run ctx w1) as (r2 & -> & _). cbn. eauto.
    + cbn. eauto.
  - cbn. rewrite bind_run.
    destruct (MathPlugin.shouldExecute (user_message ctx)).
    + rewrite bind_run. destruct (math_run ctx w) as (r2 & -> & _). cbn.
      eexists _, _. split; [reflexivity|apply quiet_refl].
    + cbn. eexists _, _. split; [reflexivity|apply quiet_refl].
Qed.

Lemma getRecentMessages_run sid n w :
  MemoryService.getRecentMessages sid n w = (inr (JS.sliceFrom (history w sid) (- n)), w).
Proof. reflexivity. Qed.

Lemma getConversationSummary_run sid w :
  exists summary, MemoryService.getConversationSummary sid w = (inr summary, w).
Proof.
  unfold MemoryService.getConversationSummary. rewrite bind_run, getRecentMessages_run.
  destruct (bool_decide _); eexists; reflexivity.
Qed.

Lemma addMessage_ok sid r c w :
  MemoryService.addMessage E sid r c w = (inr tt, snd (MemoryService.addMessage E sid r c w)).
Proof. destruct (addMessage_run E sid r c w) as (s' & -> & _). reflexivity. Qed.

Lemma processMessage_run req w :
  let sid := req_session_id req in
  let msg := message req in
  let ctx := {| query := msg; user_message := msg; ctx_session_id := sid |} in
  exists (contextResults : list SearchResult) pluginResults sp w1 w2,
    PluginManager.executePlugins E ctx w1 = (inr pluginResults, w2) /\
    quiet (userTurn E req w) w2 /\
    let hist := JS.slice (JS.sliceFrom (history w2 sid) (-4)) 0 (-1) in
    let w3 := emit (ChatCall sp msg hist) w2 in
    AgentService.processMessage E req w =
      match generateContent E (GeminiService.fullPrompt sp msg hist) with
      | Some text =>
          let aiResponse :=
            if bool_decide (text = "") then "No response generated" else text in
          (inr {| reply := aiResponse; resp_session_id := sid;
                  resp_timestamp := clock E (time w);
                  plugins_used := map plugin_name pluginResults;
                  context_retrieved := 0 <? Z.of_nat (length contextResults) |},
           snd (MemoryService.addMessage E sid assistant aiResponse w3))
      | None =>
          (inr {| reply := AgentService.apology; resp_session_id := sid;
                  resp_timestamp := clock E (time w);
                  plugins_used := []; context_retrieved := false |}, w3)
      end.
Proof.
  intros sid msg ctx.
  unfold AgentService.processMessage. rewrite bind_run. cbn [nowISO].
  unfold tryCatch at 1. rewrite bind_run.
  fold sid msg. rewrite addMessage_ok.
  change (snd (MemoryService.addMessage E sid user msg (tick w))) with (userTurn E req w).
  set (w0 := userTurn E req w).
  rewrite bind_run.
  destruct (searchSimilar_quiet msg 3 w0) as (contextResults & w1 & -> & Hq1).
  rewrite bind_run. fold ctx.
  destruct (executePlugins_quiet ctx w1) as (pluginResults & w2 & Hplug & Hq2).
  rewrite Hplug.
  rewrite bind_run, getRecentMessages_run, bind_run.
  destruct (getConversationSummary_run sid w2) as (memoryText & ->).
  set (sp := AgentService.generateSystemPrompt _ _ _).
  exists contextResults, pluginResults, sp, w1, w2.
  split; [exact Hplug|]. split; [eapply quiet_trans; eassumption|].
  cbv zeta.
  rewrite bind_run.
  unfold GeminiService.generateChatCompletion.
  rewrite bind_run. cbn [modify].
  unfold tryCatch. rewrite bind_run. unfold orThrow.
  destruct (generateContent E _) as [text|].
  - cbn [mret M_ret]. rewrite bind_run, addMessage_ok. reflexivity.
  - reflexivity.
Qed.
End Steps.

(** ** The history handed to the chat provider, and its failure *)

Lemma lastN_snoc {A : Type} (n : nat) (l : list A) (x : A) :
  lastN (S n) (l ++ [x]) = lastN n l ++ [x].
Proof.
  unfold lastN. rewrite length_app. cbn [length].
  rewrite drop_app_le by lia. f_equal. f_equal. lia.
Qed.

Lemma three_before_last {A : Type} (l : list A) (x : A) :
  (3 <= length l)%nat ->
  exists older m1 m2 m3, l = older ++ [m1; m2; m3].
Proof.
  intros H.
  exists (take (length l - 3) l).
  pose proof (take_drop (length l - 3) l) as Hsplit.
  assert (Hlen : length (drop (length l - 3) l) = 3%nat) by (rewrite length_drop; lia).
  destruct (drop (length l - 3) l) as [|m1 [|m2 [|m3 [|? ?]]]]; try discriminate.
  exists m1, m2, m3. symmetry. exact Hsplit.
Qed.

Section Turn.
Context (E : Env).

Lemma userTurn_history req w :
  history (userTurn E req w) (req_session_id req) =
  lastN 19 (history w (req_session_id req)) ++ [appended E req w].
Proof.
  unfold userTurn.
  destruct (addMessage_history E (req_session_id req) user (message req) (tick w)
              (req_session_id req)) as [_ ->].
  rewrite decide_True by reflexivity. unfold capped. apply lastN_snoc.
Qed.

Lemma addMessage_trace sid r c w :
  trace (snd (MemoryService.addMessage E sid r c w)) = trace w.
Proof. destruct (addMessage_run E sid r c w) as (s' & -> & _). reflexivity. Qed.

Lemma turnPrompt_last req w t sp hist :
  trace (snd (AgentService.processMessage E req w)) = t ++ [ChatCall sp (message req) hist] ->
  turnPrompt E req w = GeminiService.fullPrompt sp (message req) hist.
Proof.
  intros Ht. unfold turnPrompt. rewrite Ht, chatPrompts_app.
  change (chatPrompts [ChatCall sp (message req) hist])
    with [GeminiService.fullPrompt sp (message req) hist].
  rewrite last_snoc. reflexivity.
Qed.

(** The run of a turn, by the outcome of its chat call. *)
Lemma processMessage_by_call req w :
  let sid := req_session_id req in
  let msg := message req in
  let ctx := {| query := msg; user_message := msg; ctx_session_id := sid |} in
  exists (contextResults : list SearchResult) pluginResults w1 w2 w3,
    PluginManager.executePlugins E ctx w1 = (inr pluginResults, w2) /\
    sessions w3 = sessions (userTurn E req w) /\
    chatPrompts (trace (snd (AgentService.processMessage E req w))) =
      chatPrompts (trace w) ++ [turnPrompt E req w] /\
    AgentService.processMessage E req w =
      match generateContent E (turnPrompt E req w) with
      | Some text =>
          let aiResponse :=
            if bool_decide (text = "") then "No response generated" else text in
          (inr {| reply := aiResponse; resp_session_id := sid;
                  resp_timestamp := clock E (time w);
                  plugins_used := map plugin_name pluginResults;
                  context_retrieved := 0 <? Z.of_nat (length contextResults) |},
           snd (MemoryService.addMessage E sid assistant aiResponse w3))
      | None =>
          (inr {| reply := AgentService.apology; resp_session_id := sid;
                  resp_timestamp := clock E (time w);
                  plugins_used := []; context_retrieved := false |}, w3)
      end.
Proof.
  intros sid msg ctx.
  destruct (processMessage_run E req w) as (cr & pr & sp & w1 & w2 & Hplug & Hq & Hrun).
  cbv zeta in Hrun. fold sid msg in Hrun.
  set (hist := JS.slice (JS.sliceFrom (history w2 sid) (-4)) 0 (-1)) in Hrun.
  assert (Htr : trace (snd (AgentService.processMessage E req w)) =
                trace w2 ++ [ChatCall sp msg hist]).
  { rewrite Hrun.
    destruct (generateContent E _); cbn [snd]; rewrite ?addMessage_trace; reflexivity. }
  assert (Hp : turnPrompt E req w = GeminiService.fullPrompt sp msg hist).
  { apply (turnPrompt_last req w (trace w2)). exact Htr. }
  exists cr, pr, w1, w2, (emit (ChatCall sp msg hist) w2).
  split; [exact Hplug|]. split; [exact (proj1 Hq)|].
  split.
  { destruct Hq as (_ & _ & _ & _ & Hprompts).
    rewrite Htr, chatPrompts_app, Hprompts, Hp. f_equal.
    unfold userTurn. rewrite addMessage_trace. reflexivity. }
  rewrite Hp. exact Hrun.
Qed.

Lemma turn_chat_call req w :
  chatHistories (trace (snd (AgentService.processMessage E req w))) =
  chatHistories (trace w) ++
    [JS.slice (JS.sliceFrom (history (userTurn E req w) (req_session_id req)) (-4)) 0 (-1)].
Proof.
  destruct (processMessage_run E req w) as (cr & pr & sp & w1 & w2 & _ & Hq & Hrun).
  cbv zeta in Hrun. rewrite Hrun.
  destruct Hq as (Hs & _ & _ & Ht & _).
  assert (Hh : history w2 (req_session_id req) =
               history (userTurn E req w) (req_session_id req)).
  { unfold history. rewrite Hs. reflexivity. }
  assert (Ht0 : chatHistories (trace (userTurn E req w)) = chatHistories (trace w)).
  { unfold userTurn. rewrite addMessage_trace. reflexivity. }
  destruct (generateContent E _); cbn [snd].
  - rewrite addMessage_trace. cbn. rewrite chatHistories_app, Ht, Ht0, Hh. reflexivity.
  - cbn. rewrite chatHistories_app, Ht, Ht0, Hh. reflexivity.
Qed.

(** C1, amended.  When the session holds at least five messages once the
    inbound message is appended, the chat provider is handed the three
    messages that precede the appended one, oldest first: the last four
    are read, and the appended one is dropped from them. *)
Theorem chat_history_three_before req w :
  let msgs := history (userTurn E req w) (req_session_id req) in
  (5 <= length msgs)%nat ->
  exists older m1 m2 m3,
    msgs = older ++ [m1; m2; m3; appended E req w] /\
    chatHistories (trace (snd (AgentService.processMessage E req w))) =
      chatHistories (trace w) ++ [[m1; m2; m3]].
Proof.
  intros msgs Hlen. subst msgs.
  rewrite turn_chat_call.
  rewrite userTurn_history in *.
  rewrite length_app in Hlen. cbn [length] in Hlen.
  destruct (three_before_last (lastN 19 (history w (req_session_id req))) (appended E req w))
    as (older & m1 & m2 & m3 & Hsplit); [lia|].
  rewrite Hsplit. exists older, m1, m2, m3.
  rewrite <- app_assoc. cbn [app]. split; [reflexivity|].
  f_equal. f_equal.
  change (Z.neg 4) with (Z.opp (Z.pos 4)).
  rewrite sliceFrom_last by lia.
  rewrite length_app. cbn [length].
  rewrite drop_app_le by lia.
  replace (length older + 4 - Z.to_nat 4)%nat with (length older) by lia.
  rewrite drop_all. cbn [app].
  reflexivity.
Qed.

(** C2, amended.  When the chat call of a turn fails, whatever the
    provider does on other prompts, the turn returns the fixed apology,
    with no plugin names and no context flag, instead of an error; Session
    Memory is left as the inbound message left it: nothing is appended
    after it.  The call is the one chat call the turn makes. *)
Theorem chat_failure_apology req w :
  generateContent E (turnPrompt E req w) = None ->
  fst (AgentService.processMessage E req w) =
    inr {| reply := AgentService.apology;
           resp_session_id := req_session_id req;
           resp_timestamp := clock E (time w);
           plugins_used := [];
           context_retrieved := false |} /\
  sessions (snd (AgentService.processMessage E req w)) = sessions (userTurn E req w) /\
  history (snd (AgentService.processMessage E req w)) (req_session_id req) =
    lastN 19 (history w (req_session_id req)) ++ [appended E req w] /\
  chatPrompts (trace (snd (AgentService.processMessage E req w))) =
    chatPrompts (trace w) ++ [turnPrompt E req w].
Proof.
  intros Hdown.
  destruct (processMessage_by_call req w)
    as (cr & pr & w1 & w2 & w3 & _ & Hs & Hone & Hrun).
  split; [|split; [|split; [|exact Hone]]];
    cbv zeta in Hrun; rewrite Hrun, Hdown; cbn [fst snd].
  - reflexivity.
  - exact Hs.
  - rewrite <- userTurn_history. unfold history. rewrite Hs. reflexivity.
Qed.

End Turn.

Lemma chat_history_three_before_witness :
  exists older m1 m2 m3,
    history (userTurn Sample.env hello ws4) "s" =
      older ++ [m1; m2; m3; appended Sample.env hello ws4] /\
    chatHistories (trace (snd (AgentService.processMessage Sample.env hello ws4))) =
      chatHistories (trace ws4) ++ [[m1; m2; m3]].
Proof.
  apply (chat_history_three_before Sample.env hello ws4).
  vm_compute. lia.
Defined.

(** C1 as stated fails: on a session of four messages the provider is not
    handed the four messages that precede the appended one. *)
Lemma chat_history_four_before_fails :
  let msgs := history (userTurn Sample.env hello ws4) "s" in
  (5 <= length msgs)%nat /\
  chatHistories (trace (snd (AgentService.processMessage Sample.env hello ws4))) <>
    chatHistories (trace ws4) ++ [JS.slice msgs (-5) (-1)].
Proof.
  split.
  - vm_compute. lia.
  - intros H. apply (f_equal (map (@length _))) in H. vm_compute in H. discriminate H.
Qed.

Lemma chat_failure_apology_witness :
  fst (AgentService.processMessage Sample.envFlaky hello ws4) =
    inr {| reply := AgentService.apology;
           resp_session_id := "s";
           resp_timestamp := clock Sample.envFlaky (time ws4);
           plugins_used := [];
           context_retrieved := false |} /\
  sessions (snd (AgentService.processMessage Sample.envFlaky hello ws4)) =
    sessions (userTurn Sample.envFlaky hello ws4) /\
  history (snd (AgentService.processMessage Sample.envFlaky hello ws4)) "s" =
    lastN 19 (history ws4 "s") ++ [appended Sample.envFlaky hello ws4] /\
  chatPrompts (trace (snd (AgentService.processMessage Sample.envFlaky hello ws4))) =
    chatPrompts (trace ws4) ++ [turnPrompt Sample.envFlaky hello ws4].
Proof.
  apply (chat_failure_apology Sample.envFlaky hello ws4).
  vm_compute. reflexivity.
Defined.

(** C2 as stated fails: after a failed generation the last message of the
    session is not the apology. *)
Lemma apology_not_recorded :
  let w' := snd (AgentService.processMessage Sample.envChatDown hello ws4) in
  (forall prompt, generateContent Sample.envChatDown prompt = None) /\
  ~ exists ts,
      last (history w' "s") =
      Some {| role := assistant; content := AgentService.apology; timestamp := ts |}.
Proof.
  split; [reflexivity|].
  intros [ts H]. vm_compute in H. discriminate H.
Qed.

Section Scenario.
Context (E : Env).

Lemma math_execute_success ctx w expr x :
  MathPlugin.extractExpression (user_message ctx) = Some expr ->
  expr <> [] ->
  evaluate E (str (MathPlugin.cleanExpression expr)) = inr (MathNumber x) ->
  MathPlugin.execute E ctx w =
    (inr (mathOutcome (str (MathPlugin.cleanExpression expr)) x), w).
Proof.
  intros Hex Hne Hev. unfold MathPlugin.execute, tryCatch. rewrite Hex.
  destruct expr as [|c e]; [contradiction|].
  rewrite bind_run, Hev. reflexivity.
Qed.

Lemma scenario_plugins sid w :
  evaluate E "12*4" = inr (MathNumber 48%float) ->
  PluginManager.executePlugins E
    {| query := twelveTimesFour; user_message := twelveTimesFour; ctx_session_id := sid |} w =
  (inr [mathOutcome "12*4" 48%float], w).
Proof.
  intros Hev. unfold PluginManager.executePlugins, tryCatch. cbn [user_message].
  replace (WeatherPlugin.shouldExecute twelveTimesFour) with false by (vm_compute; reflexivity).
  replace (MathPlugin.shouldExecute twelveTimesFour) with true by (vm_compute; reflexivity).
  unfold mbind, M_bind, mret, M_ret.
  rewrite (math_execute_success _ w (chars "12 * 4") 48%float);
    [reflexivity | vm_compute; reflexivity | discriminate | exact Hev].
Qed.

(** C9, amended.  On [What is 12 * 4?], whatever the session holds, the
    arithmetic plugin triggers, extraction and sanitization give [12*4],
    the outcome is the success 48 when the evaluator computes it, and the
    weather plugin does not trigger; the response of the turn names the
    plugin [math] alone when the chat call of the turn, the one chat call
    it makes, succeeds, and no plugin when that call fails. *)
Theorem twelve_times_four sid w :
  evaluate E "12*4" = inr (MathNumber 48%float) ->
  let req := {| message := twelveTimesFour; req_session_id := sid |} in
  let ctx := {| query := twelveTimesFour; user_message := twelveTimesFour;
                ctx_session_id := sid |} in
  MathPlugin.shouldExecute twelveTimesFour = true /\
  option_map (fun e => str (MathPlugin.cleanExpression e))
    (MathPlugin.extractExpression twelveTimesFour) = Some "12*4" /\
  MathPlugin.execute E ctx w = (inr (mathOutcome "12*4" 48%float), w) /\
  WeatherPlugin.shouldExecute twelveTimesFour = false /\
  PluginManager.executePlugins E ctx w = (inr [mathOutcome "12*4" 48%float], w) /\
  chatPrompts (trace (snd (AgentService.processMessage E req w))) =
    chatPrompts (trace w) ++ [turnPrompt E req w] /\
  exists response,
    fst (AgentService.processMessage E req w) = inr response /\
    plugins_used response =
      match generateContent E (turnPrompt E req w) with
      | Some _ => ["math"]
      | None => []
      end.
Proof.
  intros Hev req ctx.
  split; [vm_compute; reflexivity|].
  split; [vm_compute; reflexivity|].
  split.
  { rewrite (math_execute_success ctx w (chars "12 * 4") 48%float);
      [reflexivity | vm_compute; reflexivity | discriminate | exact Hev]. }
  split; [vm_compute; reflexivity|].
  split; [apply scenario_plugins; exact Hev|].
  destruct (processMessage_by_call E req w)
    as (cr & pr & w1 & w2 & w3 & Hplug & _ & Hone & Hrun).
  split; [exact Hone|].
  cbv zeta in Hrun. cbn [message req_session_id req] in Hplug, Hrun.
  rewrite scenario_plugins in Hplug by exact Hev.
  injection Hplug as <- _.
  rewrite Hrun.
  destruct (generateContent E _) as [text|]; eexists; split; reflexivity.
Qed.
End Scenario.

Lemma twelve_times_four_witness :
  exists response,
    fst (AgentService.processMessage Sample.envFlaky
           {| message := twelveTimesFour; req_session_id := "s" |} ws4) = inr response /\
    plugins_used response = ["math"].
Proof.
  destruct (twelve_times_four Sample.envFlaky "s" ws4)
    as (_ & _ & _ & _ & _ & _ & response & Hr & Hp).
  - vm_compute. reflexivity.
  - exists response. split; [exact Hr|]. rewrite Hp. vm_compute. reflexivity.
Defined.

(** C9 as stated fails: when the chat provider is down, the arithmetic
    plugin still triggers on [What is 12 * 4?] with an empty history and
    computes 48, and the response of the turn names no plugin. *)
Lemma twelve_times_four_unnamed :
  let req := {| message := twelveTimesFour; req_session_id := "s" |} in
  let ctx := {| query := twelveTimesFour; user_message := twelveTimesFour;
                ctx_session_id := "s" |} in
  history emptyWorld "s" = [] /\
  MathPlugin.shouldExecute twelveTimesFour = true /\
  MathPlugin.execute Sample.envChatDown ctx emptyWorld =
    (inr (mathOutcome "12*4" 48%float), emptyWorld) /\
  exists response,
    fst (AgentService.processMessage Sample.envChatDown req emptyWorld) = inr response /\
    plugins_used response = [] /\
    plugins_used response <> ["math"].
Proof.
  split; [reflexivity|].
  split; [vm_compute; reflexivity|].
  split; [vm_compute; reflexivity|].
  eexists. split; [vm_compute; reflexivity|].
  split; [reflexivity | discriminate].
Qed.

(** ** Search on an empty store *)

(** C10.  On an empty store [searchSimilar] returns no result and leaves
    the world as it is: no embedding is requested. *)
Theorem empty_store_no_embedding (E : Env) (q : string) (k : Z) (w : World) :
  documents w = [] ->
  VectorStore.searchSimilar E q k w = (inr [], w) /\
  embedRequests (trace (snd (VectorStore.searchSimilar E q k w))) = embedRequests (trace w).
Proof.
  intros Hdocs. rewrite searchSimilar_run, Hdocs. cbn. split; reflexivity.
Qed.

Lemma empty_store_no_embedding_witness :
  VectorStore.searchSimilar Sample.env "anything" 3 emptyWorld = (inr [], emptyWorld) /\
  embedRequests (trace (snd (VectorStore.searchSimilar Sample.env "anything" 3 emptyWorld))) =
    embedRequests (trace emptyWorld).
Proof.
  apply (empty_store_no_embedding Sample.env "anything" 3 emptyWorld). reflexivity.
Defined.

(** ** The chunker *)

Section Chunker.
Import DocumentLoader.

Lemma nextStart_advances text start :
  nextStart text start = Z.max (chunkEnd text start) (start + CHUNK_SIZE - CHUNK_OVERLAP) /\
  start + 800 <= nextStart text start.
Proof.
  unfold nextStart, CHUNK_SIZE, CHUNK_OVERLAP. split; lia.
Qed.

Lemma chunkLoop_terminates text : forall fuel start chunks,
  len text - start <= 800 * Z.of_nat fuel ->
  exists result,
    forall fuel', (fuel <= fuel')%nat -> chunkLoop fuel' text start chunks = Some result.
Proof.
  induction fuel as [|fuel IH]; intros start chunks Hfuel.
  - exists chunks. intros fuel' _.
    destruct fuel'; cbn; destruct (Z.ltb_spec start (len text)); try lia; reflexivity.
  - destruct (Z.ltb_spec start (len text)) as [Hlt|Hge].
    + destruct (IH (nextStart text start)
                  (let chunk := JS.trim (JS.slice text start (chunkEnd text start)) in
                   if 0 <? len chunk then chunks ++ [chunk] else chunks)) as [result Hres].
      { pose proof (nextStart_advances text start). lia. }
      exists result. intros [|fuel'] Hle; [lia|].
      cbn [chunkLoop]. destruct (Z.ltb_spec start (len text)); [|lia].
      apply Hres. lia.
    + exists chunks. intros fuel' _.
      destruct fuel'; cbn [chunkLoop]; destruct (Z.ltb_spec start (len text)); try lia; reflexivity.
Qed.

Lemma chars_length (s : string) : length (chars s) = String.length s.
Proof. induction s as [|c s IH]; cbn; [reflexivity | f_equal; exact IH]. Qed.

(** C7.  Each iteration moves the start to the greater of the end of the
    chunk and the start plus 1000 - 200, at least 800 further; so the
    loop ends: with enough fuel, one iteration more than the length divided by 800, the
    model returns the chunks. *)
Theorem chunker_terminates :
  (forall text start,
     nextStart text start = Z.max (chunkEnd text start) (start + CHUNK_SIZE - CHUNK_OVERLAP) /\
     start + 800 <= nextStart text start) /\
  (forall text : string,
     exists chunks,
       forall fuel, (String.length text / 800 < fuel)%nat ->
         chunkText fuel text = Some chunks).
Proof.
  split; [apply nextStart_advances|].
  intros text.
  destruct (chunkLoop_terminates (chars text) (S (String.length text / 800)) 0 [])
    as [result Hres].
  { unfold len. rewrite chars_length.
    pose proof (Nat.mul_succ_div_gt (String.length text) 800). lia. }
  exists (map str result). intros fuel Hfuel.
  unfold chunkText. rewrite Hres by lia. reflexivity.
Qed.

Lemma chunker_terminates_witness :
  exists chunks, chunkText 2 "One sentence. And a second one." = Some chunks.
Proof.
  destruct (proj2 chunker_terminates "One sentence. And a second one.") as [chunks H].
  exists chunks. apply H. vm_compute. lia.
Defined.

Lemma lastIndexFrom_le (p : list ascii) (s : list ascii) : forall i pos acc,
  acc <= pos -> JS.lastIndexFrom p s i pos acc <= pos.
Proof.
  induction s as [|c s IH]; intros i pos acc Hacc; cbn [JS.lastIndexFrom];
    destruct (Z.ltb_spec pos i); try lia.
  - destruct (JS.startsWith p []); lia.
  - apply IH. destruct (JS.startsWith p (c :: s)); lia.
Qed.

Lemma lastIndexOf_le (s p : list ascii) (pos : Z) :
  0 <= pos -> JS.lastIndexOf s p pos <= pos.
Proof.
  intros Hpos. unfold JS.lastIndexOf. rewrite Z.max_l by lia.
  apply lastIndexFrom_le. lia.
Qed.

Lemma chunkEnd_bounds (text : list ascii) (start : Z) :
  0 <= start -> start < chunkEnd text start <= start + CHUNK_SIZE + 1.
Proof.
  intros Hs. unfold chunkEnd, CHUNK_SIZE.
  destruct (Z.ltb_spec (start + 1000) (len text)); [|lia].
  pose proof (lastIndexOf_le text ["."%char] (start + 1000) ltac:(lia)).
  pose proof (lastIndexOf_le text paragraphBreak (start + 1000) ltac:(lia)).
  change (1000 / 2) with 500.
  destruct (Z.ltb_spec (start + 500) (Z.max (JS.lastIndexOf text ["."%char] (start + 1000))
                                  (JS.lastIndexOf text paragraphBreak (start + 1000)))); lia.
Qed.

Lemma dropWhile_length {A : Type} (f : A -> bool) (l : list A) :
  (length (JS.dropWhile f l) <= length l)%nat.
Proof. induction l as [|x l IH]; cbn; [lia|]. destruct (f x); cbn; lia. Qed.

Lemma dropWhile_head {A : Type} (f : A -> bool) (l : list A) (x : A) (rest : list A) :
  JS.dropWhile f l = x :: rest -> f x = false.
Proof.
  induction l as [|y l IH]; cbn; [discriminate|].
  destruct (f y) eqn:Hy; [exact IH|]. intros H. injection H as -> _. exact Hy.
Qed.

Lemma dropWhile_keeps {A : Type} (f : A -> bool) (l : list A) :
  existsb (fun c => negb (f c)) l = existsb (fun c => negb (f c)) (JS.dropWhile f l).
Proof.
  induction l as [|y l IH]; cbn; [reflexivity|].
  destruct (f y) eqn:Hy; cbn; [exact IH|]. rewrite Hy. reflexivity.
Qed.

Lemma trim_length (s : list ascii) : (length (JS.trim s) <= length s)%nat.
Proof.
  unfold JS.trim, JS.trimEnd, JS.trimStart. rewrite length_rev.
  etransitivity; [apply dropWhile_length|]. rewrite length_rev. apply dropWhile_length.
Qed.

Lemma existsb_rev {A : Type} (f : A -> bool) (l : list A) :
  existsb f (rev l) = existsb f l.
Proof.
  induction l as [|x l IH]; [reflexivity|].
  cbn [rev existsb]. rewrite existsb_app, IH. cbn. rewrite orb_false_r. apply orb_comm.
Qed.

(** Trimming keeps the ink. *)
Lemma trim_ink (s : list ascii) : hasInk (JS.trim s) = hasInk s.
Proof.
  unfold hasInk, JS.trim, JS.trimEnd, JS.trimStart.
  rewrite existsb_rev, <- dropWhile_keeps, existsb_rev, <- dropWhile_keeps. reflexivity.
Qed.

(** What is left of a trimmed text has ink. *)
Lemma trim_nonempty_ink (s : list ascii) : JS.trim s <> [] -> hasInk (JS.trim s) = true.
Proof.
  intros Hne. unfold JS.trim, JS.trimEnd in *.
  destruct (JS.dropWhile JS.isSpace (rev (JS.trimStart s))) as [|x rest] eqn:Hd;
    [contradiction|].
  apply dropWhile_head in Hd. unfold hasInk. rewrite existsb_rev. cbn. rewrite Hd. reflexivity.
Qed.

Lemma slice_length_bound {A : Type} (l : list A) (b e : Z) :
  0 <= b -> b <= e -> Z.of_nat (length (JS.slice l b e)) <= e - b.
Proof.
  intros Hb He. unfold JS.slice, JS.relIndex. rewrite length_take, length_drop.
  destruct (Z.ltb_spec b 0), (Z.ltb_spec e 0); lia.
Qed.

Lemma chunkLoop_shape (text : list ascii) : forall fuel start chunks result,
  0 <= start -> Forall wellShaped chunks ->
  chunkLoop fuel text start chunks = Some result -> Forall wellShaped result.
Proof.
  induction fuel as [|fuel IH]; intros start chunks result Hs Hc; cbn [chunkLoop];
    destruct (Z.ltb_spec start (len text)); try discriminate;
    try (intros Heq; injection Heq as <-; exact Hc).
  apply IH.
  - pose proof (nextStart_advances text start). lia.
  - set (chunk := JS.trim (JS.slice text start (chunkEnd text start))).
    destruct (Z.ltb_spec 0 (len chunk)) as [Hpos|_]; [|exact Hc].
    apply Forall_app. split; [exact Hc|]. constructor; [|constructor].
    unfold len in Hpos. split.
    + split; [lia|].
      pose proof (trim_length (JS.slice text start (chunkEnd text start))).
      pose proof (chunkEnd_bounds text start Hs).
      pose proof (slice_length_bound text start (chunkEnd text start) Hs ltac:(lia)).
      unfold CHUNK_SIZE in *. fold chunk in H0. lia.
    + apply trim_nonempty_ink. fold chunk. destruct chunk; [cbn in Hpos; lia|discriminate].
Qed.

Lemma slice_all {A : Type} (l : list A) (e : Z) :
  Z.of_nat (length l) <= e -> JS.slice l 0 e = l.
Proof.
  intros He. unfold JS.slice, JS.relIndex.
  change (0 <? 0) with false. cbv iota.
  destruct (Z.ltb_spec e 0); [lia|].
  replace (Z.to_nat (Z.min 0 (Z.of_nat (length l)))) with 0%nat by lia.
  rewrite drop_0. apply take_ge. lia.
Qed.

Lemma chunkLoop_short (text : list ascii) (fuel : nat) :
  len text <= CHUNK_SIZE -> hasInk text = true ->
  chunkLoop (S fuel) text 0 [] = Some [JS.trim text].
Proof.
  intros Hlen Hink. unfold CHUNK_SIZE in Hlen.
  assert (Hne : 0 < len text).
  { unfold len. destruct text; [discriminate|]. cbn [length]. lia. }
  cbn [chunkLoop]. destruct (Z.ltb_spec 0 (len text)); [|lia].
  assert (Hend : chunkEnd text 0 = 1000).
  { unfold chunkEnd, CHUNK_SIZE. destruct (Z.ltb_spec (0 + 1000) (len text)); lia. }
  unfold nextStart. rewrite Hend. rewrite slice_all by (unfold len in Hlen; lia).
  assert (Hchunk : 0 < len (JS.trim text)).
  { pose proof (trim_ink text) as Ht. rewrite Hink in Ht.
    unfold len. destruct (JS.trim text); [discriminate|]. cbn [length]. lia. }
  destruct (Z.ltb_spec 0 (len (JS.trim text))); [|lia].
  cbn [app]. unfold CHUNK_SIZE, CHUNK_OVERLAP.
  destruct fuel; cbn [chunkLoop];
    destruct (Z.ltb_spec (Z.max (0 + 1000 - 200) 1000) (len text)); try lia; reflexivity.
Qed.


Lemma str_chars (l : list ascii) : chars (str l) = l.
Proof. apply list_ascii_of_string_of_list_ascii. Qed.

Lemma str_length (l : list ascii) : String.length (str l) = length l.
Proof. rewrite <- chars_length, str_chars. reflexivity. Qed.

(** Every chunk is trimmed text with ink, of at most 1001 characters. *)
Lemma chunks_well_shaped (fuel : nat) (text : string) (chunks : list string) :
  chunkText fuel text = Some chunks ->
  Forall (fun chunk => (0 < String.length chunk <= 1001)%nat /\ hasInk (chars chunk) = true)
    chunks.
Proof.
  unfold chunkText. intros H.
  destruct (chunkLoop fuel (chars text) 0 []) as [result|] eqn:Hloop; [|discriminate].
  injection H as <-.
  apply chunkLoop_shape in Hloop; [|lia|constructor].
  induction Hloop as [|chunk result [Hlen Hink] _ IH]; cbn [map]; constructor; [|exact IH].
  rewrite str_length, str_chars. split; assumption.
Qed.

(** A text of at most 1000 characters with ink is one chunk: itself, trimmed. *)
Lemma short_text_one_chunk (fuel : nat) (text : string) :
  (String.length text <= 1000)%nat -> hasInk (chars text) = true ->
  chunkText (S fuel) text = Some [str (JS.trim (chars text))].
Proof.
  intros Hlen Hink. unfold chunkText.
  rewrite chunkLoop_short; [reflexivity | | exact Hink].
  unfold len, CHUNK_SIZE. rewrite chars_length. lia.
Qed.

(** C6, at the failing input.  A full stop at index 1000 is found by
    [lastIndexOf('.', end)] and the chunk ends after it: the chunk has 1001
    characters, one more than the chunk size. *)
Theorem chunk_of_1001_characters :
  String.length longSentence = 1002%nat /\
  exists chunk,
    chunkText 3 longSentence = Some [chunk; "b"] /\ String.length chunk = 1001%nat.
Proof.
  split; [vm_compute; reflexivity|].
  eexists. split; vm_compute; reflexivity.
Qed.

End Chunker.

(** ** Change detection *)

Section Classification.
Import PersistentVectorStore.
Context (F : FileSystem).

Lemma hasFileChanged_spec filePath md :
  hasFileChanged F filePath md = hashDiffers F filePath md || timestampDiffers F filePath md.
Proof.
  unfold hasFileChanged, hashDiffers, timestampDiffers.
  destruct (mtimeMs F filePath); [reflexivity|].
  symmetry. apply orb_true_r.
Qed.

Lemma classifyStep_class dir known acc name :
  classifyStep F dir known acc name =
  let filePath := pathJoin F dir name in
  match classOf F dir known name with
  | IsNew =>
      {| newFiles := newFiles acc ++ [filePath]; changedFiles := changedFiles acc;
         unchangedFiles := unchangedFiles acc |}
  | IsChanged =>
      {| newFiles := newFiles acc; changedFiles := changedFiles acc ++ [filePath];
         unchangedFiles := unchangedFiles acc |}
  | IsUnchanged =>
      {| newFiles := newFiles acc; changedFiles := changedFiles acc;
         unchangedFiles := unchangedFiles acc ++ [filePath] |}
  end.
Proof.
  unfold classifyStep, classOf. destruct (known !! name) as [md|]; [|reflexivity].
  rewrite hasFileChanged_spec. cbv zeta.
  destruct (hashDiffers F _ md || timestampDiffers F _ md); reflexivity.
Qed.

Lemma pathsOf_cons dir known c name names :
  pathsOf F dir known c (name :: names) =
  (if bool_decide (classOf F dir known name = c) then [pathJoin F dir name] else [])
  ++ pathsOf F dir known c names.
Proof.
  unfold pathsOf. cbn [List.filter].
  destruct (bool_decide (classOf F dir known name = c)); reflexivity.
Qed.

Lemma classify_fold dir known names : forall acc,
  fold_left (classifyStep F dir known) names acc =
  {| newFiles := newFiles acc ++ pathsOf F dir known IsNew names;
     changedFiles := changedFiles acc ++ pathsOf F dir known IsChanged names;
     unchangedFiles := unchangedFiles acc ++ pathsOf F dir known IsUnchanged names |}.
Proof.
  induction names as [|name names IH]; intros acc.
  - unfold pathsOf. cbn. rewrite !app_nil_r. destruct acc; reflexivity.
  - cbn [fold_left]. rewrite IH, classifyStep_class, !pathsOf_cons. cbv zeta.
    destruct (classOf F dir known name); cbn; rewrite <- ?app_assoc; reflexivity.
Qed.

Lemma classes_partition dir known names :
  Permutation (pathsOf F dir known IsNew names ++ pathsOf F dir known IsChanged names
               ++ pathsOf F dir known IsUnchanged names)
              (map (pathJoin F dir) names).
Proof.
  induction names as [|name names IH]; [reflexivity|].
  rewrite !pathsOf_cons. cbn [map].
  destruct (classOf F dir known name); cbn [bool_decide decide_rel app];
    repeat (rewrite bool_decide_eq_false_2 by discriminate);
    repeat (rewrite bool_decide_eq_true_2 by reflexivity); cbn [app].
  - constructor. exact IH.
  - rewrite <- Permutation_middle. constructor. exact IH.
  - rewrite app_assoc, <- Permutation_middle, <- app_assoc. constructor. exact IH.
Qed.

(** C8.  The three lists hold the markdown files of each class, in the
    order of the directory listing, and together they hold every markdown
    file once; a file is new exactly when it has no metadata; a known file
    is changed exactly when its hash differs or its modification time
    differs, and unchanged exactly when neither does. *)
Theorem classification dir known :
  (forall files,
     readdirSync F dir = Some files ->
     exists r,
       getFilesToProcess F dir known = inr r /\
       newFiles r = pathsOf F dir known IsNew (List.filter isMarkdown files) /\
       changedFiles r = pathsOf F dir known IsChanged (List.filter isMarkdown files) /\
       unchangedFiles r = pathsOf F dir known IsUnchanged (List.filter isMarkdown files) /\
       Permutation (newFiles r ++ changedFiles r ++ unchangedFiles r)
                   (map (pathJoin F dir) (List.filter isMarkdown files))) /\
  (forall name,
     (classOf F dir known name = IsNew <-> known !! name = None) /\
     (forall md, known !! name = Some md ->
        let filePath := pathJoin F dir name in
        (classOf F dir known name = IsChanged <->
           getFileHash F filePath <> fileHash md \/ timestampDiffers F filePath md = true) /\
        (classOf F dir known name = IsUnchanged <->
           getFileHash F filePath = fileHash md /\ timestampDiffers F filePath md = false))).
Proof.
  split.
  - intros files Hdir. unfold getFilesToProcess. rewrite Hdir.
    eexists. split; [reflexivity|]. rewrite classify_fold. cbn.
    repeat split. apply classes_partition.
  - intros name. unfold classOf. split.
    + destruct (known !! name); [|tauto].
      destruct (_ || _); split; discriminate.
    + intros md ->. cbv zeta. unfold hashDiffers.
      destruct (String.eqb_spec (getFileHash F (pathJoin F dir name)) (fileHash md)) as [Heq|Hne];
        destruct (timestampDiffers F (pathJoin F dir name) md); cbn;
        (split; split; try tauto; try discriminate; try (intros [?|?]; congruence);
         try (intros [? ?]; congruence)).
Qed.
End Classification.

Lemma classification_witness :
  exists r,
    PersistentVectorStore.getFilesToProcess sampleFiles "docs" sampleKnown = inr r /\
    PersistentVectorStore.newFiles r = ["docs/new.md"] /\
    PersistentVectorStore.changedFiles r = ["docs/touched.md"; "docs/edited.md"] /\
    PersistentVectorStore.unchangedFiles r = ["docs/same.md"].
Proof.
  destruct (proj1 (classification sampleFiles "docs" sampleKnown)
              ["new.md"; "touched.md"; "edited.md"; "same.md"; "notes.txt"] eq_refl)
    as (r & Hr & Hnew & Hchanged & Hsame & _).
  exists r. split; [exact Hr|].
  rewrite Hnew, Hchanged, Hsame. vm_compute. repeat split.
Defined.

(** ** The ranking of the search results *)

Section Ranking.
Import VectorStore.

Lemma insertBy_perm (x : SearchResult) (l : list SearchResult) :
  Permutation (insertBy bySimilarity x l) (x :: l).
Proof.
  induction l as [|y l IH]; cbn [insertBy]; [reflexivity|].
  destruct (0 <? bySimilarity x y)%float; [|reflexivity].
  rewrite IH. apply perm_swap.
Qed.

Lemma sortBy_perm (l : list SearchResult) : Permutation (sortBy bySimilarity l) l.
Proof.
  induction l as [|x l IH]; cbn [sortBy]; [reflexivity|].
  rewrite insertBy_perm. constructor. exact IH.
Qed.

Lemma noNaN_perm (l l' : list SearchResult) : Permutation l l' -> noNaN l' -> noNaN l.
Proof. intros Hp H. unfold noNaN in *. rewrite Hp. exact H. Qed.

Lemma moves_behind (x y : SearchResult) :
  is_nan (similarity x) = false -> is_nan (similarity y) = false ->
  (0 <? bySimilarity x y)%float = (scoreKey x <? scoreKey y).
Proof. intros Hx Hy. unfold bySimilarity, scoreKey. apply sub_positive; assumption. Qed.

Lemma insertBy_sorted (x : SearchResult) (l : list SearchResult) :
  is_nan (similarity x) = false -> noNaN l ->
  StronglySorted keyDescending l ->
  StronglySorted keyDescending (insertBy bySimilarity x l).
Proof.
  intros Hx Hl Hs. induction Hs as [|y l Hs IH Hy]; cbn [insertBy].
  - repeat constructor.
  - inversion Hl as [|? ? Hny Hnl]; subst.
    rewrite moves_behind by assumption.
    destruct (Z.ltb_spec (scoreKey x) (scoreKey y)) as [Hlt|Hge].
    + constructor; [apply IH; exact Hnl|].
      rewrite insertBy_perm.
      constructor; [unfold keyDescending; lia | exact Hy].
    + constructor; [constructor; assumption|].
      constructor; [exact Hge|].
      eapply Forall_impl; [exact Hy|]. unfold keyDescending. intros z Hz. lia.
Qed.

Lemma sortBy_sorted (l : list SearchResult) :
  noNaN l -> StronglySorted keyDescending (sortBy bySimilarity l).
Proof.
  induction l as [|x l IH]; intros Hl; cbn [sortBy]; [constructor|].
  inversion Hl as [|? ? Hx Hl']; subst.
  apply insertBy_sorted; [exact Hx | | apply IH; exact Hl'].
  eapply noNaN_perm; [apply sortBy_perm | exact Hl'].
Qed.

Lemma insertBy_stable (k : Z) (x : SearchResult) (l : list SearchResult) :
  is_nan (similarity x) = false -> noNaN l ->
  List.filter (fun r => scoreKey r =? k) (insertBy bySimilarity x l) =
  List.filter (fun r => scoreKey r =? k) (x :: l).
Proof.
  intros Hx Hl. induction Hl as [|y l Hy Hl IH]; cbn [insertBy]; [reflexivity|].
  rewrite moves_behind by assumption.
  destruct (Z.ltb_spec (scoreKey x) (scoreKey y)) as [Hlt|Hge]; [|reflexivity].
  cbn [List.filter] in *. rewrite IH.
  destruct (Z.eqb_spec (scoreKey x) k), (Z.eqb_spec (scoreKey y) k); try reflexivity; lia.
Qed.

Lemma sortBy_stable (k : Z) (l : list SearchResult) :
  noNaN l ->
  List.filter (fun r => scoreKey r =? k) (sortBy bySimilarity l) =
  List.filter (fun r => scoreKey r =? k) l.
Proof.
  induction l as [|x l IH]; intros Hl; cbn [sortBy]; [reflexivity|].
  inversion Hl as [|? ? Hx Hl']; subst.
  rewrite insertBy_stable;
    [| exact Hx | eapply noNaN_perm; [apply sortBy_perm | exact Hl']].
  cbn [List.filter]. rewrite IH by exact Hl'. reflexivity.
Qed.


Lemma SFcompare_refl (x : spec_float) : notNaN x -> SFcompare x x = Some Eq.
Proof.
  intros Hx. destruct x as [s|s| |s m e]; cbn.
  - reflexivity.
  - destruct s; reflexivity.
  - exfalso. apply Hx. reflexivity.
  - rewrite Z.compare_refl.
    change (Pos.compare_cont Eq m m) with (Pos.compare m m). rewrite Pos.compare_refl.
    destruct s; reflexivity.
Qed.

Lemma eqb_nan_r (x s : float) : is_nan s = true -> (x =? s)%float = false.
Proof.
  unfold is_nan. rewrite !FloatAxioms.eqb_spec. intros Hs.
  apply negb_true_iff in Hs. unfold SFeqb in *.
  destruct (Prim2SF s) as [b|b| |b m e] eqn:Hp;
    try (rewrite SFcompare_refl in Hs by discriminate; discriminate Hs).
  destruct (Prim2SF x); reflexivity.
Qed.

Lemma sorted_descending (l : list SearchResult) :
  noNaN l -> StronglySorted keyDescending l -> StronglySorted descending l.
Proof.
  intros Hl Hs. induction Hs as [|x l Hs IH Hx]; [constructor|].
  inversion Hl as [|? ? Hnx Hnl]; subst.
  constructor; [apply IH; exact Hnl|].
  apply Forall_forall. intros y Hy.
  unfold descending. rewrite leb_key.
  - apply Z.leb_le. rewrite Forall_forall in Hx. apply Hx. exact Hy.
  - rewrite Forall_forall in Hnl. apply Hnl. exact Hy.
  - exact Hnx.
Qed.

Lemma filter_sameScore (s : float) (l : list SearchResult) :
  noNaN l ->
  List.filter (sameScore s) l =
  if is_nan s then [] else List.filter (fun r => scoreKey r =? key s) l.
Proof.
  intros Hl. induction Hl as [|x l Hx Hl IH]; [destruct (is_nan s); reflexivity|].
  cbn [List.filter]. rewrite IH. unfold sameScore at 1.
  destruct (is_nan s) eqn:Hs.
  - rewrite eqb_nan_r by exact Hs. reflexivity.
  - rewrite eqb_key by assumption. reflexivity.
Qed.

Lemma scoreAll_each (q : string) (e : list float) (docs : list Document) :
  forall rs, scoreAll q e docs = inr rs ->
    Forall2 (fun doc r => document r = doc /\ scoreOf q e doc = inr (similarity r)) docs rs.
Proof.
  induction docs as [|doc docs IH]; intros rs H; cbn [scoreAll] in H.
  - injection H as <-. constructor.
  - fold (scoreOf q e doc) in H.
    destruct (scoreOf q e doc) as [err|sim] eqn:Hs; [discriminate|].
    destruct (scoreAll q e docs) as [err|rest]; [discriminate|].
    injection H as <-. constructor; [split; [reflexivity|exact Hs]|].
    apply IH. reflexivity.
Qed.

Lemma scoredBy_documents (E : Env) (q : string) (docs : list Document) :
  map document (scoredBy E q docs) = docs.
Proof.
  unfold scoredBy.
  destruct (scoreAll q (embeddingOf E q) docs) as [err|rs] eqn:Hs.
  - rewrite map_map. cbn. apply map_id.
  - apply scoreAll_each in Hs. induction Hs as [|doc r docs rs [Hd _] _ IH]; [reflexivity|].
    cbn. rewrite Hd, IH. reflexivity.
Qed.

Lemma searchResults_rank (E : Env) (q : string) (k : Z) (docs : list Document) :
  searchResults E q k docs = rank (scoredBy E q docs) k.
Proof.
  unfold searchResults, scoredBy.
  destruct (scoreAll q (embeddingOf E q) docs); reflexivity.
Qed.

(** C5, amended.  On a store that is not empty and for scores that are
    numbers, [searchSimilar] returns [slice(0, k)] of one ranking of all
    the documents: its first [k] entries, hence at most [k] results, when
    [k >= 0], and all but its last [-k] entries when [k < 0].  Each
    document is scored by its own path (cosine similarity with an
    embedding, the text heuristic without), or all by the text heuristic
    when a cosine similarity throws; the ranking is in descending order of
    the scores and results of one score keep the order of the store. *)
Theorem search_ranking (E : Env) (q : string) (k : Z) (w : World) :
  documents w <> [] ->
  noNaN (scoredBy E q (documents w)) ->
  let scored := scoredBy E q (documents w) in
  exists ranked results,
    fst (searchSimilar E q k w) = inr results /\
    (0 <= k ->
     results = take (Z.to_nat k) ranked /\ (length results <= Z.to_nat k)%nat) /\
    (k < 0 -> results = take (length ranked - Z.to_nat (- k)) ranked) /\
    map document scored = documents w /\
    Permutation ranked scored /\
    StronglySorted descending ranked /\
    (forall s, List.filter (sameScore s) ranked = List.filter (sameScore s) scored) /\
    (forall rs,
       scoreAll q (embeddingOf E q) (documents w) = inr rs ->
       scored = rs /\
       Forall2 (fun doc r =>
                  document r = doc /\ scoreOf q (embeddingOf E q) doc = inr (similarity r))
               (documents w) rs) /\
    (forall err,
       scoreAll q (embeddingOf E q) (documents w) = inl err ->
       scored =
         map (fun doc =>
                {| document := doc;
                   similarity := simpleTextSimilarity (lower q) (lower (doc_content doc)) |})
             (documents w)).
Proof.
  intros Hdocs Hn scored.
  exists (sortBy bySimilarity scored), (JS.slice (sortBy bySimilarity scored) 0 k).
  assert (Hsorted : noNaN (sortBy bySimilarity scored)).
  { eapply noNaN_perm; [apply sortBy_perm | exact Hn]. }
  split.
  { rewrite searchSimilar_run.
    rewrite bool_decide_eq_false_2 by (destruct (documents w); [contradiction|discriminate]).
    cbn [fst]. rewrite searchResults_rank. reflexivity. }
  split.
  { intros Hk. rewrite slice_prefix by exact Hk.
    split; [reflexivity | rewrite length_take; lia]. }
  split; [intros Hk; apply slice_negative; exact Hk|].
  split; [apply scoredBy_documents|].
  split; [apply sortBy_perm|].
  split; [apply sorted_descending; [exact Hsorted | apply sortBy_sorted; exact Hn]|].
  split.
  { intros s. rewrite !filter_sameScore by assumption.
    destruct (is_nan s); [reflexivity|]. apply sortBy_stable. exact Hn. }
  split.
  { intros rs Hrs. split; [|apply scoreAll_each; exact Hrs].
    unfold scored, scoredBy. rewrite Hrs. reflexivity. }
  intros err Herr. unfold scored, scoredBy. rewrite Herr. reflexivity.
Qed.

End Ranking.

Lemma search_ranking_witness :
  exists ranked,
    fst (VectorStore.searchSimilar envVectors "beta" 2 storeOfThree) = inr (take 2 ranked) /\
    Permutation ranked (scoredBy envVectors "beta" (documents storeOfThree)) /\
    StronglySorted descending ranked /\
    map (fun r => id (document r)) (take 2 ranked) = ["d2"; "d3"].
Proof.
  destruct (search_ranking envVectors "beta" 2 storeOfThree)
    as (ranked & results & Hres & Hfirst & _ & _ & Hperm & Hsorted & _).
  - discriminate.
  - unfold noNaN. vm_compute. repeat constructor.
  - destruct Hfirst as [-> _]; [lia|].
    exists ranked. repeat split; try assumption.
    change (Z.to_nat 2) with 2%nat in Hres.
    assert (Hval : fst (VectorStore.searchSimilar envVectors "beta" 2 storeOfThree) =
                   inr (VectorStore.rank (scoredBy envVectors "beta" (documents storeOfThree)) 2)).
    { rewrite searchSimilar_run. cbn [fst bool_decide]. rewrite searchResults_rank. reflexivity. }
    rewrite Hres in Hval. injection Hval as ->. vm_compute. reflexivity.
Defined.

(** C5 as stated fails with the [k] the agent passes.  A score that is NaN
    is neither above nor below another score: on a store of two chunks
    scored NaN and 0, no order of the two results is descending, whatever
    the sort does with them. *)
Lemma nan_score_breaks_ranking :
  let scored := scoredBy envHuge "beta" (documents storeOfTwo) in
  documents storeOfTwo <> [] /\
  map similarity scored = [nan; 0%float] /\
  (forall ranked, Permutation ranked scored -> ~ StronglySorted descending ranked) /\
  exists results,
    fst (VectorStore.searchSimilar envHuge "beta" 3 storeOfTwo) = inr results /\
    (length results <= 3)%nat /\
    Permutation results scored /\
    ~ StronglySorted descending results.
Proof.
  intros scored.
  assert (Hscores : map similarity scored = [nan; 0%float]) by (vm_compute; reflexivity).
  assert (Hnone : forall ranked,
            Permutation ranked scored -> ~ StronglySorted descending ranked).
  { intros ranked Hperm Hs.
    destruct scored as [|a [|b [|c rest]]]; try discriminate Hscores.
    injection Hscores as Ha Hb.
    apply Permutation_sym, Permutation_length_2_inv in Hperm.
    destruct Hperm as [-> | ->];
      apply StronglySorted_inv in Hs; destruct Hs as [_ Hs];
      apply Forall_inv in Hs; unfold descending in Hs;
      rewrite Ha, Hb in Hs; vm_compute in Hs; discriminate Hs. }
  split; [discriminate|].
  split; [exact Hscores|].
  split; [exact Hnone|].
  exists (VectorStore.rank scored 3).
  assert (Hperm : Permutation (VectorStore.rank scored 3) scored).
  { unfold VectorStore.rank. rewrite slice_prefix by lia.
    rewrite take_ge; [apply sortBy_perm|].
    rewrite (Permutation_length (sortBy_perm scored)).
    rewrite <- (length_map similarity), Hscores. cbn. lia. }
  split.
  { rewrite searchSimilar_run. cbn [fst bool_decide]. rewrite searchResults_rank. reflexivity. }
  split; [|split; [exact Hperm | apply Hnone; exact Hperm]].
  rewrite (Permutation_length Hperm), <- (length_map similarity), Hscores. cbn. lia.
Qed.

(** * Further properties of the services *)

(** ** Session memory: limits, isolation, clearing *)

Lemma sliceFrom_drop {A : Type} (l : list A) (k : Z) :
  0 <= k -> JS.sliceFrom l k = drop (Z.to_nat k) l.
Proof.
  intros Hk. unfold JS.sliceFrom, JS.slice, JS.relIndex.
  destruct (Z.ltb_spec k 0); [lia|].
  destruct (Z.ltb_spec (Z.of_nat (length l)) 0); [lia|].
  rewrite Z.min_id.
  destruct (Z.le_ge_cases k (Z.of_nat (length l))).
  - rewrite Z.min_l by lia. apply take_ge. rewrite length_drop. lia.
  - rewrite Z.min_r by lia. rewrite !drop_ge by lia. apply take_nil.
Qed.

Section MemoryReads.
Context (E : Env).

(** X1.  [getRecentMessages] returns the last [limit] messages of the
    session when [limit] is positive; with the limit 0 it returns the whole
    history, and with a negative limit the history without its first
    [-limit] messages.  The session is left as it is. *)
Theorem recent_messages_by_limit (sid : string) (limit : Z) (w : World) :
  MemoryService.getRecentMessages sid limit w =
    (inr (if 0 <? limit then lastN (Z.to_nat limit) (history w sid)
          else drop (Z.to_nat (- limit)) (history w sid)), w).
Proof.
  rewrite getRecentMessages_run. f_equal. f_equal.
  destruct (Z.ltb_spec 0 limit).
  - apply sliceFrom_last. assumption.
  - apply sliceFrom_drop. lia.
Qed.

(** X2.  A write to one session leaves every other session as it is:
    neither [addMessage] nor [clearSession] on [sid] changes what the
    store holds for another identifier, so its history, statistics and
    summary read the same. *)
Theorem sessions_are_isolated (sid sid' : string) (r : Role) (c : string) (w : World) :
  sid <> sid' ->
  let added := snd (MemoryService.addMessage E sid r c w) in
  let cleared := snd (MemoryService.clearSession sid w) in
  sessions added !! sid' = sessions w !! sid' /\
  sessions cleared !! sid' = sessions w !! sid' /\
  history added sid' = history w sid' /\
  history cleared sid' = history w sid' /\
  fst (MemoryService.getSessionStats sid' added) = fst (MemoryService.getSessionStats sid' w) /\
  fst (MemoryService.getSessionStats sid' cleared) = fst (MemoryService.getSessionStats sid' w) /\
  fst (MemoryService.getConversationSummary sid' added) =
    fst (MemoryService.getConversationSummary sid' w).
Proof.
  intros Hne added cleared.
  assert (Ha : sessions added !! sid' = sessions w !! sid').
  { subst added. destruct (addMessage_run E sid r c w) as (s' & -> & _).
    cbn. apply lookup_insert_ne. exact Hne. }
  assert (Hc : sessions cleared !! sid' = sessions w !! sid').
  { subst cleared. cbn. apply lookup_delete_ne. exact Hne. }
  clearbody added cleared.
  split; [exact Ha|]. split; [exact Hc|].
  unfold history, MemoryService.getSessionStats, MemoryService.getConversationSummary,
    MemoryService.getRecentMessages, MemoryService.getSessionHistory.
  mrun. rewrite Ha, Hc. repeat split.
  destruct (bool_decide _); reflexivity.
Qed.

(** X3.  A cleared session is gone: its history is empty, it has no
    statistics, its summary is the sentence for no history, and the next
    message starts a session of one message. *)
Theorem cleared_session_is_gone (sid : string) (w : World) :
  let w' := snd (MemoryService.clearSession sid w) in
  fst (MemoryService.clearSession sid w) = inr tt /\
  fst (MemoryService.getSessionHistory sid w') = inr [] /\
  fst (MemoryService.getSessionStats sid w') = inr None /\
  fst (MemoryService.getConversationSummary sid w') =
    inr "No previous conversation history." /\
  forall r c,
    history (snd (MemoryService.addMessage E sid r c w')) sid =
      [{| role := r; content := c; timestamp := clock E (time w) |}].
Proof.
  intros w'.
  assert (Hgone : sessions w' !! sid = None) by (subst w'; cbn; apply lookup_delete_eq).
  assert (Htime : time w' = time w) by reflexivity.
  split; [reflexivity|]. clearbody w'.
  split; [unfold MemoryService.getSessionHistory; mrun; rewrite Hgone; reflexivity|].
  split; [unfold MemoryService.getSessionStats; mrun; rewrite Hgone; reflexivity|].
  split.
  { unfold MemoryService.getConversationSummary, MemoryService.getRecentMessages,
      MemoryService.getSessionHistory. mrun. rewrite Hgone. reflexivity. }
  intros r c.
  destruct (addMessage_history E sid r c w' sid) as [_ ->].
  rewrite decide_True by reflexivity.
  unfold history. rewrite Hgone, Htime. reflexivity.
Qed.

(** X4.  After [addMessage] the statistics of the session exist: the count
    is one more than before, capped at 20; the creation time of a session
    that existed is kept, and the update time is the last clock reading of
    the call. *)
Theorem stats_after_addMessage (sid : string) (r : Role) (c : string) (w : World) :
  exists created updated,
    fst (MemoryService.getSessionStats sid (snd (MemoryService.addMessage E sid r c w))) =
      inr (Some (Z.of_nat (Nat.min (S (length (history w sid))) 20), created, updated)) /\
    (forall s, sessions w !! sid = Some s -> created = created_at s) /\
    (sessions w !! sid = None -> created = clock E (S (time w))) /\
    updated = clock E (time w + addTicks w sid - 1)%nat.
Proof.
  unfold MemoryService.addMessage, MemoryService.getSessionStats, history, addTicks. mrun.
  destruct (sessions w !! sid) as [s|] eqn:Hs.
  - rewrite bool_decide_eq_true_2 by eauto. simpl. rewrite Hs. simpl.
    rewrite lookup_insert_eq. simpl.
    eexists _, _. split; [|split; [|split]].
    + do 3 f_equal. f_equal.
      set (pushed := messages s ++ _).
      assert (Hp : length pushed = S (length (messages s))).
      { subst pushed. rewrite length_app. cbn. lia. }
      destruct (Z.ltb_spec MemoryService.MAX_MESSAGES_PER_SESSION (Z.of_nat (length pushed)));
        unfold MemoryService.MAX_MESSAGES_PER_SESSION in *.
      * rewrite sliceFrom_last by reflexivity. rewrite length_drop. lia.
      * lia.
    + intros s0 [= <-]. reflexivity.
    + discriminate.
    + f_equal. lia.
  - rewrite bool_decide_eq_false_2 by (intros [? ?]; discriminate). simpl.
    rewrite lookup_insert_eq. simpl. rewrite lookup_insert_eq. simpl.
    eexists _, _. split; [|split; [|split]].
    + reflexivity.
    + discriminate.
    + reflexivity.
    + f_equal. lia.
Qed.

End MemoryReads.

Lemma sessions_are_isolated_witness :
  history (snd (MemoryService.addMessage Sample.env "t" user "hi" ws4)) "s" = history ws4 "s" /\
  history (snd (MemoryService.clearSession "t" ws4)) "s" = history ws4 "s".
Proof.
  destruct (sessions_are_isolated Sample.env "t" "s" user "hi" ws4)
    as (_ & _ & Ha & Hc & _); [discriminate|].
  split; assumption.
Defined.
(** ** The embedding service: the hash, the fallback, the batch, the test *)

Lemma toInt32_range z : - 2 ^ 31 <= GeminiService.toInt32 z < 2 ^ 31.
Proof.
  unfold GeminiService.toInt32.
  pose proof (Z.mod_pos_bound (z + 2 ^ 31) (2 ^ 32) ltac:(lia)). lia.
Qed.

Lemma toInt32_congruent a b :
  a mod 2 ^ 32 = b mod 2 ^ 32 -> GeminiService.toInt32 a = GeminiService.toInt32 b.
Proof.
  intros H. unfold GeminiService.toInt32. f_equal.
  rewrite <- (Zplus_mod_idemp_l a), <- (Zplus_mod_idemp_l b), H. reflexivity.
Qed.

Lemma toInt32_mod z : GeminiService.toInt32 z mod 2 ^ 32 = z mod 2 ^ 32.
Proof.
  unfold GeminiService.toInt32.
  rewrite <- Zminus_mod_idemp_l, Z.mod_mod by lia.
  rewrite Zminus_mod_idemp_l. f_equal. lia.
Qed.

Lemma hash_step h c :
  GeminiService.toInt32 (GeminiService.toInt32 (GeminiService.toInt32 h * 32) - h + c) =
  GeminiService.toInt32 (31 * h + c).
Proof.
  apply toInt32_congruent.
  rewrite <- Zplus_mod_idemp_l, <- Zminus_mod_idemp_l.
  rewrite toInt32_mod.
  rewrite <- (Zmult_mod_idemp_l (GeminiService.toInt32 h)), toInt32_mod.
  rewrite Zmult_mod_idemp_l, Zminus_mod_idemp_l, Zplus_mod_idemp_l.
  f_equal. lia.
Qed.

Lemma hash_fold str : forall a,
  fold_left (fun hash c =>
      GeminiService.toInt32
        (GeminiService.toInt32 (GeminiService.toInt32 hash * 32) - hash
         + Z.of_nat (nat_of_ascii c)))
    str (GeminiService.toInt32 a) =
  GeminiService.toInt32
    (fold_left (fun h c => 31 * h + Z.of_nat (nat_of_ascii c)) str a).
Proof.
  induction str as [|c str IH]; intros a; [reflexivity|].
  cbn [fold_left]. rewrite hash_step.
  rewrite <- IH. f_equal. apply toInt32_congruent.
  rewrite <- Zplus_mod_idemp_l, <- Zmult_mod_idemp_r, toInt32_mod.
  rewrite Zmult_mod_idemp_r, Zplus_mod_idemp_l. reflexivity.
Qed.

(** X5.  [simpleHash] is the polynomial hash of base 31 over the code
    units, wrapped to a signed 32-bit integer; the slot [|hash| % 768] it
    selects always lies in the embedding. *)
Theorem simpleHash_is_polynomial (str : list ascii) :
  GeminiService.simpleHash str = GeminiService.toInt32 (polyHash str) /\
  - 2 ^ 31 <= GeminiService.simpleHash str < 2 ^ 31 /\
  0 <= Z.abs (GeminiService.simpleHash str) mod 768 < 768.
Proof.
  assert (H : GeminiService.simpleHash str = GeminiService.toInt32 (polyHash str)).
  { unfold GeminiService.simpleHash, polyHash.
    change 0 with (GeminiService.toInt32 0) at 1. apply hash_fold. }
  split; [exact H|]. split.
  - rewrite H. apply toInt32_range.
  - apply Z.mod_pos_bound. lia.
Qed.

Lemma fallback_length text :
  length (GeminiService.generateFallbackEmbedding text) = 768%nat.
Proof.
  unfold GeminiService.generateFallbackEmbedding.
  set (bump := fun (st : list float * Z) (w : list ascii) => _).
  assert (Hfold : forall words st, length (fst st) = 768%nat ->
                    length (fst (fold_left bump words st)) = 768%nat).
  { induction words as [|wd words IH]; intros st Hst; [exact Hst|].
    cbn [fold_left]. apply IH. subst bump. destruct st as [embedding i]. cbn beta iota.
    destruct (i <? 100); [|exact Hst]. cbn [fst] in *. rewrite length_alter. exact Hst. }
  match goal with |- context [fold_left bump ?ws ?st] =>
    pose proof (Hfold ws st ltac:(apply length_replicate)) as Hlen;
    set (embedding := fst (fold_left bump ws st)) in *
  end.
  destruct (0 <? _)%float; [rewrite length_map|]; exact Hlen.
Qed.

Section Embeddings.
Context (E : Env).

(** X6.  [generateEmbedding] never fails and makes one request: it
    returns the vector of the provider, or, when the provider fails, the
    fallback embedding, which has 768 components. *)
Theorem embedding_never_fails (text : string) (w : World) :
  exists v,
    GeminiService.generateEmbedding E text w = (inr v, emit (EmbedCall text) w) /\
    match embedContent E text with
    | Some e => v = e
    | None => v = GeminiService.generateFallbackEmbedding text /\
              Z.of_nat (length v) = GeminiService.getEmbeddingDimensions
    end.
Proof.
  exists (embeddingOf E text). split; [apply generateEmbedding_run|].
  unfold embeddingOf. destruct (embedContent E text); [reflexivity|].
  split; [reflexivity|]. rewrite fallback_length. reflexivity.
Qed.

Lemma embedEach_run texts : forall acc w,
  GeminiService.embedEach E texts acc w =
    (inr (acc ++ map (embeddingOf E) texts),
     {| sessions := sessions w; documents := documents w; time := time w;
        rolls := rolls w; trace := trace w ++ map EmbedCall texts |}).
Proof.
  induction texts as [|text texts IH]; intros acc w.
  - cbn. rewrite !app_nil_r. destruct w; reflexivity.
  - cbn [GeminiService.embedEach]. rewrite bind_run, generateEmbedding_run, IH.
    cbn. rewrite <- !app_assoc. reflexivity.
Qed.

(** X7.  [generateEmbeddings] never fails: it returns one embedding per
    text, in the order of the texts, after one request per text in that
    order; sessions and documents are left alone. *)
Theorem embeddings_in_order (texts : list string) (w : World) :
  exists w',
    GeminiService.generateEmbeddings E texts w = (inr (map (embeddingOf E) texts), w') /\
    trace w' = trace w ++ map EmbedCall texts /\
    sessions w' = sessions w /\ documents w' = documents w.
Proof.
  unfold GeminiService.generateEmbeddings, tryCatch. rewrite embedEach_run.
  eexists. split; [reflexivity|]. repeat split.
Qed.

Lemma testConnection_run (w : World) :
  exists passed w',
    GeminiService.testConnection E w = (inr passed, w') /\
    (passed = false <-> connectionFails E) /\
    sessions w' = sessions w /\ documents w' = documents w.
Proof.
  unfold GeminiService.testConnection, GeminiService.generateChatCompletion, connectionFails.
  unfold tryCatch at 1. rewrite !bind_run. cbn [modify].
  unfold tryCatch, orThrow. rewrite bind_run. fold testPrompt.
  destruct (generateContent E testPrompt) as [text|] eqn:Hchat.
  - cbn [mret M_ret]. rewrite bind_run, generateEmbedding_run.
    eexists _, _. split; [reflexivity|]. split; [|split; reflexivity].
    assert (Hlen : (0 <? Z.of_nat (String.length
                      (if bool_decide (text = "") then "No response generated" else text)))
                   = true).
    { destruct (bool_decide (text = "")) eqn:Hempty; [reflexivity|].
      apply bool_decide_eq_false in Hempty.
      destruct text; [contradiction|]. cbn [String.length]. apply Z.ltb_lt. lia. }
    rewrite Hlen. cbn [andb]. unfold embeddingOf.
    destruct (embedContent E "test connection") as [[|x e]|].
    + split; [intros _; split; eauto | reflexivity].
    + split; [discriminate | intros [_ [=]]].
    + rewrite fallback_length. split; [discriminate | intros [_ [=]]].
  - cbn. eexists _, _. split; [reflexivity|]. split; [|split; reflexivity].
    split; [discriminate | intros [[? [=]] _]].
Qed.

(** X8.  The connection test passes when the chat provider is down and
    when the embedding provider is down: it fails only when the chat
    provider answers and the embedding provider returns a vector without
    components. *)
Theorem connection_test_result (w : World) :
  exists passed w',
    GeminiService.testConnection E w = (inr passed, w') /\
    (passed = false <->
     is_Some (generateContent E testPrompt) /\
     embedContent E "test connection" = Some []) /\
    (generateContent E testPrompt = None -> passed = true) /\
    (embedContent E "test connection" = None -> passed = true).
Proof.
  destruct (testConnection_run w) as (passed & w' & Hrun & Hiff & _).
  exists passed, w'. split; [exact Hrun|]. split; [exact Hiff|].
  split; intros Hdown; destruct passed; try reflexivity;
    destruct (proj1 Hiff eq_refl) as [[text Hchat] Hembed]; congruence.
Qed.

End Embeddings.
(** ** The vector store: removing, adding, searching *)

Section StoreUpdates.
Context (E : Env).

Lemma filter_not_ofFile name (docs : list Document) :
  filter (fun doc => filename (metadata doc) = name)
    (filter (fun doc => filename (metadata doc) <> name) docs) = [].
Proof.
  induction docs as [|doc docs IH]; [reflexivity|].
  rewrite (filter_cons (fun doc => filename (metadata doc) <> name)).
  destruct (decide (filename (metadata doc) <> name)) as [Hne|Heq]; [|exact IH].
  rewrite filter_cons, decide_False by exact Hne. exact IH.
Qed.

Lemma filter_other_file name other (docs : list Document) :
  other <> name ->
  filter (fun doc => filename (metadata doc) = other)
    (filter (fun doc => filename (metadata doc) <> name) docs) =
  filter (fun doc => filename (metadata doc) = other) docs.
Proof.
  intros Hne. induction docs as [|doc docs IH]; [reflexivity|].
  rewrite (filter_cons (fun doc => filename (metadata doc) <> name)).
  rewrite (filter_cons (fun doc => filename (metadata doc) = other) doc docs).
  destruct (decide (filename (metadata doc) <> name)) as [Hd|Hd].
  - rewrite filter_cons, IH. reflexivity.
  - rewrite IH. rewrite decide_False; [reflexivity|].
    intros Heq. apply Hd. congruence.
Qed.

Lemma filter_all_ofFile name (docs : list Document) :
  Forall (ofFile name) docs ->
  filter (fun doc => filename (metadata doc) = name) docs = docs.
Proof.
  induction 1 as [|doc docs Hd _ IH]; [reflexivity|].
  rewrite filter_cons, decide_True by exact Hd. rewrite IH. reflexivity.
Qed.

Lemma filter_split_length name (docs : list Document) :
  (length (filter (fun doc => filename (metadata doc) <> name) docs)
   + length (filter (fun doc => filename (metadata doc) = name) docs) = length docs)%nat.
Proof.
  induction docs as [|doc docs IH]; [reflexivity|].
  rewrite !filter_cons.
  destruct (decide (filename (metadata doc) = name)) as [Heq|Hne].
  - rewrite decide_False by (intros H; apply H; exact Heq). cbn [length]. lia.
  - rewrite decide_True by exact Hne. cbn [length]. lia.
Qed.

(** X9.  After [removeDocumentsByFilename] the store holds no document of
    that file and exactly the documents of every other file, in their
    order; adding the chunks of the file again makes them the documents of
    the file.  Sessions are left alone. *)
Theorem removed_file_has_no_documents (name : string) (w : World) :
  let w' := snd (VectorStore.removeDocumentsByFilename name w) in
  fst (VectorStore.removeDocumentsByFilename name w) = inr tt /\
  fst (VectorStore.getDocumentsByFilename name w') = inr [] /\
  (forall other, other <> name ->
     fst (VectorStore.getDocumentsByFilename other w') =
     fst (VectorStore.getDocumentsByFilename other w)) /\
  (length (documents w')
   + length (filter (fun doc => filename (metadata doc) = name) (documents w))
   = length (documents w))%nat /\
  (forall docs, Forall (ofFile name) docs ->
     fst (VectorStore.getDocumentsByFilename name
            (snd (VectorStore.addExistingDocuments docs w'))) = inr docs) /\
  sessions w' = sessions w.
Proof.
  cbn. split; [reflexivity|].
  split; [rewrite filter_not_ofFile; reflexivity|].
  split; [intros other Hne; rewrite filter_other_file by exact Hne; reflexivity|].
  split; [apply filter_split_length|].
  split; [|reflexivity].
  intros docs Hdocs.
  rewrite filter_app, filter_not_ofFile, filter_all_ofFile by exact Hdocs. reflexivity.
Qed.

Lemma addDocuments_run docs : forall w,
  VectorStore.addDocuments E docs w =
    (inr tt,
     {| sessions := sessions w;
        documents := documents w ++
          map (fun doc => VectorStore.withEmbedding doc (embeddingOf E (doc_content doc))) docs;
        time := time w; rolls := rolls w;
        trace := trace w ++ map (fun doc => EmbedCall (doc_content doc)) docs |}).
Proof.
  induction docs as [|doc docs IH]; intros w.
  - cbn. rewrite !app_nil_r. destruct w; reflexivity.
  - cbn [VectorStore.addDocuments]. rewrite bind_run. unfold tryCatch at 1.
    rewrite bind_run, generateEmbedding_run. cbn [modify]. rewrite IH.
    cbn. rewrite <- !app_assoc. reflexivity.
Qed.

(** X10.  [addDocuments] never fails and appends every document, in
    order, each with the embedding [generateEmbedding] gave for its
    content: no document it adds is left without an embedding.  It makes
    one embedding request per document, in order. *)
Theorem addDocuments_embeds_all (docs : list Document) (w : World) :
  exists w',
    VectorStore.addDocuments E docs w = (inr tt, w') /\
    documents w' = documents w ++
      map (fun doc => VectorStore.withEmbedding doc (embeddingOf E (doc_content doc))) docs /\
    Forall (fun doc => is_Some (embedding doc)) (drop (length (documents w)) (documents w')) /\
    embedRequests (trace w') = embedRequests (trace w) ++ map doc_content docs /\
    sessions w' = sessions w.
Proof.
  rewrite addDocuments_run. eexists. split; [reflexivity|]. cbn.
  split; [reflexivity|]. split; [|split; [|reflexivity]].
  - rewrite drop_app_length. apply Forall_map. apply Forall_true. intros doc. cbn. eauto.
  - unfold embedRequests. rewrite omap_app. f_equal.
    induction docs as [|doc docs IH]; [reflexivity|]. cbn. rewrite IH. reflexivity.
Qed.

Lemma slice_prefix_length {A : Type} (l : list A) (k : Z) :
  Z.of_nat (length (JS.slice l 0 k)) = JS.relIndex (Z.of_nat (length l)) k.
Proof.
  unfold JS.slice. rewrite length_take, length_drop.
  assert (H0 : JS.relIndex (Z.of_nat (length l)) 0 = 0).
  { unfold JS.relIndex. cbn. lia. }
  rewrite H0.
  assert (Hk : 0 <= JS.relIndex (Z.of_nat (length l)) k <= Z.of_nat (length l)).
  { unfold JS.relIndex. destruct (k <? 0) eqn:Hneg; [lia|].
    apply Z.ltb_ge in Hneg. lia. }
  lia.
Qed.

Lemma sortBy_length (l : list SearchResult) :
  length (VectorStore.sortBy VectorStore.bySimilarity l) = length l.
Proof. apply Permutation_length, sortBy_perm. Qed.

Lemma slice_sublist {A : Type} (l : list A) (b e : Z) : JS.slice l b e ⊆ l.
Proof.
  unfold JS.slice. etransitivity; [apply subseteq_take | apply subseteq_drop].
Qed.

(** X11.  [searchSimilar] never fails, whatever [k]: on a store of [n]
    documents it returns [min(k, n)] results for [k >= 0] and
    [max(n + k, 0)] results for a negative [k], each about a document of
    the store; it leaves sessions and documents alone and makes one
    embedding request, for the query, unless the store is empty. *)
Theorem search_result_count (q : string) (k : Z) (w : World) :
  exists res w',
    VectorStore.searchSimilar E q k w = (inr res, w') /\
    Z.of_nat (length res) =
      (if k <? 0 then Z.max (Z.of_nat (length (documents w)) + k) 0
       else Z.min k (Z.of_nat (length (documents w)))) /\
    Forall (fun r => document r ∈ documents w) res /\
    sessions w' = sessions w /\ documents w' = documents w /\
    embedRequests (trace w') =
      embedRequests (trace w) ++ (if bool_decide (documents w = []) then [] else [q]).
Proof.
  rewrite searchSimilar_run.
  destruct (documents w) as [|doc docs] eqn:Hdocs.
  - cbn. eexists _, _. split; [reflexivity|].
    split; [destruct (k <? 0) eqn:Hk; [apply Z.ltb_lt in Hk|apply Z.ltb_ge in Hk]; cbn; lia|].
    split; [constructor|]. rewrite app_nil_r. repeat split. exact Hdocs.
  - rewrite bool_decide_eq_false_2 by discriminate.
    eexists _, _. split; [reflexivity|].
    rewrite searchResults_rank. unfold VectorStore.rank.
    split; [|split].
    + rewrite slice_prefix_length, sortBy_length.
      rewrite <- (length_map document), scoredBy_documents. reflexivity.
    + apply Forall_forall. intros r Hr.
      apply slice_sublist in Hr.
      rewrite sortBy_perm in Hr.
      rewrite <- (scoredBy_documents E q (doc :: docs)).
      apply list_elem_of_In, in_map, list_elem_of_In. exact Hr.
    + cbn. rewrite Hdocs. repeat split.
      unfold embedRequests. rewrite omap_app. reflexivity.
Qed.

End StoreUpdates.

(** ** The text heuristic *)

Lemma matchAt_backslash_none (c : ascii) (s : list ascii) :
  Ascii.eqb backslash c = false ->
  Regex.matchAt VectorStore.backslash_s_plus (c :: s) = None.
Proof.
  intros Hc. unfold Regex.matchAt, VectorStore.backslash_s_plus, Regex.lit.
  cbn [length Regex.run]. fold backslash. rewrite Hc. reflexivity.
Qed.

Lemma splitFrom_no_backslash (s : list ascii) : forall n cur,
  hasBackslash s = false ->
  Regex.splitFrom n VectorStore.backslash_s_plus s cur = [cur ++ s].
Proof.
  induction s as [|c s IH]; intros n cur Hs.
  - destruct n; cbn; rewrite app_nil_r; reflexivity.
  - cbn [hasBackslash existsb] in Hs. apply orb_false_elim in Hs as [Hc Hs].
    destruct n as [|n]; [reflexivity|].
    cbn [Regex.splitFrom]. rewrite matchAt_backslash_none by exact Hc.
    rewrite IH by exact Hs. rewrite <- app_assoc. reflexivity.
Qed.

Lemma split_no_backslash (s : list ascii) :
  hasBackslash s = false -> Regex.split VectorStore.backslash_s_plus s = [s].
Proof.
  intros Hs. destruct s as [|c s]; [reflexivity|].
  unfold Regex.split. apply (splitFrom_no_backslash (c :: s) _ [] Hs).
Qed.

(** X12.  The separator of the text heuristic is written as a backslash
    followed by letters [s], so a query and a text without a backslash are
    one word each: the score is 1 when one of them contains the other, and
    0 otherwise. *)
Theorem lexical_score_without_backslash (q text : list ascii) :
  hasBackslash q = false -> hasBackslash text = false ->
  VectorStore.simpleTextSimilarity q text =
    if JS.includes text q || JS.includes q text then 1%float else 0%float.
Proof.
  intros Hq Ht. unfold VectorStore.simpleTextSimilarity.
  rewrite (split_no_backslash q Hq), (split_no_backslash text Ht).
  cbn [List.filter existsb]. rewrite orb_false_r.
  destruct (JS.includes text q || JS.includes q text); vm_compute; reflexivity.
Qed.

Lemma lexical_score_without_backslash_witness :
  VectorStore.simpleTextSimilarity (chars "vector store") (chars "a vector store of chunks") =
    1%float.
Proof.
  rewrite (lexical_score_without_backslash (chars "vector store")
             (chars "a vector store of chunks")); reflexivity.
Defined.
(** ** The chunker: what the chunks are made of *)

Section ChunkPieces.
Import DocumentLoader.

Lemma dropWhile_suffix {A : Type} (f : A -> bool) (l : list A) :
  exists before, l = before ++ JS.dropWhile f l.
Proof.
  induction l as [|x l [before IH]]; [exists []; reflexivity|].
  cbn [JS.dropWhile]. destruct (f x).
  - exists (x :: before). cbn. f_equal. exact IH.
  - exists []. reflexivity.
Qed.

Lemma trim_piece (s : list ascii) : exists before after, s = before ++ JS.trim s ++ after.
Proof.
  unfold JS.trim, JS.trimEnd, JS.trimStart.
  destruct (dropWhile_suffix JS.isSpace s) as [before Hb].
  destruct (dropWhile_suffix JS.isSpace (rev (JS.dropWhile JS.isSpace s))) as [after Ha].
  exists before, (rev after).
  rewrite <- rev_app_distr, <- Ha, rev_involutive. exact Hb.
Qed.

Lemma dropWhile_fixed {A : Type} (f : A -> bool) (l : list A) :
  head l = None \/ (exists x, head l = Some x /\ f x = false) -> JS.dropWhile f l = l.
Proof.
  destruct l as [|y l]; [reflexivity|]. cbn.
  intros [H|(x & [= ->] & Hx)]; [discriminate|]. rewrite Hx. reflexivity.
Qed.

Lemma dropWhile_head_cases {A : Type} (f : A -> bool) (l : list A) :
  head (JS.dropWhile f l) = None \/
  (exists x, head (JS.dropWhile f l) = Some x /\ f x = false).
Proof.
  destruct (JS.dropWhile f l) as [|x rest] eqn:Hd; [left; reflexivity|].
  right. exists x. split; [reflexivity|]. eapply dropWhile_head. exact Hd.
Qed.

(** Trimming what is trimmed changes nothing. *)
Lemma trim_trim (s : list ascii) : JS.trim (JS.trim s) = JS.trim s.
Proof.
  unfold JS.trim, JS.trimEnd, JS.trimStart.
  set (t := JS.dropWhile JS.isSpace s).
  set (u := JS.dropWhile JS.isSpace (rev t)).
  assert (Hu : JS.dropWhile JS.isSpace (rev u) = rev u).
  { apply dropWhile_fixed.
    destruct (dropWhile_suffix JS.isSpace (rev t)) as [before Hb]. fold u in Hb.
    assert (Ht : t = rev u ++ rev before).
    { rewrite <- rev_app_distr, <- Hb, rev_involutive. reflexivity. }
    destruct (rev u) as [|x ru] eqn:Hru; [left; reflexivity|].
    right. exists x. split; [reflexivity|].
    destruct (dropWhile_head_cases JS.isSpace s) as [Hnone|(y & Hy & Hfy)];
      fold t in Hnone || fold t in Hy; rewrite Ht in *; cbn in *; congruence. }
  rewrite Hu, rev_involutive.
  rewrite (dropWhile_fixed JS.isSpace u); [reflexivity|].
  apply dropWhile_head_cases.
Qed.

Lemma trim_blank (s : list ascii) : hasInk s = false -> JS.trim s = [].
Proof.
  intros Hs. destruct (JS.trim s) as [|c t] eqn:Ht; [reflexivity|].
  assert (Hink : hasInk (JS.trim s) = true) by (apply trim_nonempty_ink; rewrite Ht; discriminate).
  rewrite trim_ink in Hink. congruence.
Qed.

Lemma inOrder_later pieces : forall before text,
  inOrder pieces text -> inOrder pieces (before ++ text).
Proof.
  destruct pieces as [|piece rest]; intros before text H; [exact I|].
  destruct H as (b & a & -> & Hrest).
  exists (before ++ b), a. rewrite <- app_assoc. split; [reflexivity|exact Hrest].
Qed.

Lemma inOrder_app pieces : forall rest text,
  inOrder (pieces ++ rest) text <->
  exists front back, text = front ++ back /\ inOrder pieces front /\ inOrder rest back.
Proof.
  induction pieces as [|piece pieces IH]; intros rest text; cbn [app inOrder].
  - split.
    + intros H. exists [], text. repeat split; assumption.
    + intros (front & back & -> & _ & H). apply inOrder_later. exact H.
  - split.
    + intros (b & a & -> & H). apply IH in H as (front & back & -> & Hf & Hb).
      exists (b ++ piece ++ front), back. rewrite <- !app_assoc.
      split; [reflexivity|]. split; [|exact Hb]. exists b, front. split; [reflexivity|exact Hf].
    + intros (front & back & -> & (b & a & -> & Hf) & Hb).
      exists b, (a ++ back). rewrite <- !app_assoc. split; [reflexivity|].
      apply IH. exists a, back. repeat split; assumption.
Qed.

Lemma inOrder_length pieces : forall text,
  inOrder pieces text ->
  (fold_right (fun piece n => length piece + n) 0 pieces <= length text)%nat.
Proof.
  induction pieces as [|piece pieces IH]; intros text H; cbn; [lia|].
  destruct H as (b & a & -> & Hrest). apply IH in Hrest.
  rewrite !length_app. lia.
Qed.

Lemma includes_piece (before piece after : list ascii) :
  JS.includes (before ++ piece ++ after) piece = true.
Proof.
  assert (Hs : forall p s, JS.startsWith p (p ++ s) = true).
  { induction p as [|c p IH]; intros s; [destruct s; reflexivity|].
    cbn. rewrite Ascii.eqb_refl. apply IH. }
  induction before as [|c before IH].
  - cbn [app]. destruct (piece ++ after) eqn:Hpa; cbn [JS.includes];
      rewrite <- Hpa, Hs; reflexivity.
  - cbn [app JS.includes]. rewrite IH. apply orb_true_r.
Qed.

Lemma inOrder_includes pieces : forall text,
  inOrder pieces text -> Forall (fun piece => JS.includes text piece = true) pieces.
Proof.
  induction pieces as [|piece pieces IH]; intros text H; constructor.
  - destruct H as (b & a & -> & _). apply includes_piece.
  - destruct H as (b & a & -> & Hrest).
    apply IH in Hrest. eapply Forall_impl; [exact Hrest|].
    cbn. intros p Hp. clear -Hp.
    rewrite app_assoc.
    induction (b ++ piece) as [|c l IHl]; [exact Hp|].
    cbn [app JS.includes]. rewrite IHl. apply orb_true_r.
Qed.

(** The text from [start] on begins with the slice, and goes on with the
    text from any later position. *)
Lemma drop_slice_drop (text : list ascii) (start end_ next : Z) :
  0 <= start -> start < end_ -> end_ <= next ->
  exists gap,
    drop (Z.to_nat start) text =
      JS.slice text start end_ ++ gap ++ drop (Z.to_nat next) text.
Proof.
  intros Hs He Hn. unfold JS.slice, JS.relIndex.
  destruct (Z.ltb_spec start 0); [lia|]. destruct (Z.ltb_spec end_ 0); [lia|].
  set (n := Z.of_nat (length text)).
  destruct (Z.le_gt_cases n start) as [Hout|Hin].
  - exists []. rewrite Z.min_r by lia.
    rewrite !drop_ge by lia. rewrite take_nil. reflexivity.
  - rewrite (Z.min_l start) by lia.
    set (m := Z.min end_ n).
    exists (take (Z.to_nat (Z.min next n) - Z.to_nat m) (drop (Z.to_nat m) text)).
    assert (Hd : drop (Z.to_nat next) text = drop (Z.to_nat (Z.min next n)) text).
    { destruct (Z.le_gt_cases next n); [rewrite Z.min_l by lia; reflexivity|].
      rewrite Z.min_r by lia. rewrite !drop_ge by lia. reflexivity. }
    rewrite Hd.
    replace (drop (Z.to_nat (Z.min next n)) text)
      with (drop (Z.to_nat (Z.min next n) - Z.to_nat m) (drop (Z.to_nat m) text))
      by (rewrite drop_drop; f_equal; lia).
    rewrite take_drop.
    replace (drop (Z.to_nat m) text)
      with (drop (Z.to_nat (m - start)) (drop (Z.to_nat start) text))
      by (rewrite drop_drop; f_equal; lia).
    rewrite take_drop. reflexivity.
Qed.

Lemma chunkLoop_pieces (text : list ascii) : forall fuel start chunks result,
  0 <= start ->
  chunkLoop fuel text start chunks = Some result ->
  exists new, result = chunks ++ new /\ inOrder new (drop (Z.to_nat start) text) /\
              Forall (fun chunk => JS.trim chunk = chunk) new.
Proof.
  induction fuel as [|fuel IH]; intros start chunks result Hs; cbn [chunkLoop];
    destruct (Z.ltb_spec start (len text)); try discriminate;
    try (intros [= <-]; exists []; rewrite app_nil_r; repeat split; constructor).
  intros Hloop.
  pose proof (chunkEnd_bounds text start Hs) as Hend.
  pose proof (nextStart_advances text start) as [Hnext _].
  apply IH in Hloop as (new & -> & Horder & Htrim); [|lia].
  destruct (drop_slice_drop text start (chunkEnd text start) (nextStart text start))
    as [gap Hsplit]; [lia..|].
  set (piece := JS.slice text start (chunkEnd text start)) in *.
  destruct (Z.ltb_spec 0 (len (JS.trim piece))).
  - exists (JS.trim piece :: new). rewrite <- app_assoc. split; [reflexivity|].
    split; [|constructor; [apply trim_trim|exact Htrim]].
    destruct (trim_piece piece) as (b & a & Hp).
    exists b, (a ++ gap ++ drop (Z.to_nat (nextStart text start)) text).
    split.
    + rewrite Hsplit. rewrite Hp at 1. rewrite <- !app_assoc. reflexivity.
    + rewrite app_assoc. apply inOrder_later. exact Horder.
  - exists new. split; [reflexivity|]. split; [|exact Htrim].
    rewrite Hsplit, app_assoc. apply inOrder_later. exact Horder.
Qed.

Lemma chunkLoop_blank (text : list ascii) : hasInk text = false ->
  forall fuel start chunks result,
    chunkLoop fuel text start chunks = Some result -> result = chunks.
Proof.
  intros Hblank.
  assert (Hslice : forall b e, JS.trim (JS.slice text b e) = []).
  { intros b e. apply trim_blank. unfold hasInk in *.
    apply not_true_is_false. intros Hex.
    apply existsb_exists in Hex as (c & Hc & Hnc).
    assert (Hin : c ∈ text).
    { apply list_elem_of_In in Hc. unfold JS.slice in Hc.
      apply subseteq_take, subseteq_drop in Hc. exact Hc. }
    apply list_elem_of_In in Hin.
    assert (existsb (fun c => negb (JS.isSpace c)) text = true)
      by (apply existsb_exists; eauto).
    congruence. }
  induction fuel as [|fuel IH]; intros start chunks result; cbn [chunkLoop];
    destruct (Z.ltb_spec start (len text)); try discriminate;
    try (intros [= <-]; reflexivity).
  rewrite Hslice. cbn. apply IH.
Qed.

(** X13.  With the fuel the loop needs, [chunkText] returns chunks that
    are trimmed (no white space at either end), hold between 1 and 1001
    characters, and are not blank. *)
Theorem chunk_size_bounds (text : string) (fuel : nat) :
  (String.length text / 800 < fuel)%nat ->
  exists chunks,
    chunkText fuel text = Some chunks /\
    Forall (fun chunk =>
              (1 <= String.length chunk <= 1001)%nat /\
              hasInk (chars chunk) = true /\
              JS.trim (chars chunk) = chars chunk) chunks.
Proof.
  intros Hfuel.
  destruct (chunkLoop_terminates (chars text) (S (String.length text / 800)) 0 [])
    as [result Hres].
  { unfold len. rewrite chars_length.
    pose proof (Nat.mul_succ_div_gt (String.length text) 800). lia. }
  specialize (Hres fuel ltac:(lia)).
  exists (map str result). unfold chunkText. rewrite Hres. split; [reflexivity|].
  pose proof (chunkLoop_shape (chars text) fuel 0 [] result ltac:(lia) ltac:(constructor) Hres)
    as Hshape.
  apply chunkLoop_pieces in Hres as (new & Hnew & _ & Htrim); [|lia].
  cbn [app] in Hnew. subst new.
  apply Forall_map. rewrite Forall_forall in *. intros chunk Hin.
  destruct (Hshape chunk Hin) as [Hlen Hink]. cbn.
  rewrite str_length, str_chars. repeat split; try lia; auto.
Qed.

(** X14.  The chunks are pieces of the text taken one after the other:
    two chunks never share a character of the text, every chunk occurs in
    the text, and together they hold no more characters than the text. *)
Theorem chunks_do_not_overlap (text : string) (fuel : nat) :
  (String.length text / 800 < fuel)%nat ->
  exists chunks,
    chunkText fuel text = Some chunks /\
    inOrder (map chars chunks) (chars text) /\
    Forall (fun chunk => JS.includes (chars text) (chars chunk) = true) chunks /\
    (totalLength chunks <= String.length text)%nat.
Proof.
  intros Hfuel.
  destruct (chunkLoop_terminates (chars text) (S (String.length text / 800)) 0 [])
    as [result Hres].
  { unfold len. rewrite chars_length.
    pose proof (Nat.mul_succ_div_gt (String.length text) 800). lia. }
  specialize (Hres fuel ltac:(lia)).
  exists (map str result). unfold chunkText. rewrite Hres. split; [reflexivity|].
  apply chunkLoop_pieces in Hres as (new & Hnew & Horder & _); [|lia].
  cbn [app] in Hnew. subst new.
  change (drop (Z.to_nat 0) (chars text)) with (chars text) in Horder.
  assert (Hmap : map chars (map str result) = result).
  { rewrite map_map. erewrite map_ext; [apply map_id|]. intros l. apply str_chars. }
  rewrite Hmap. split; [exact Horder|]. split.
  - apply Forall_map. pose proof (inOrder_includes _ _ Horder) as Hinc.
    eapply Forall_impl; [exact Hinc|]. cbn. intros l Hl. rewrite str_chars. exact Hl.
  - apply inOrder_length in Horder. rewrite chars_length in Horder.
    etransitivity; [|exact Horder]. clear.
    induction result as [|l result IH]; cbn; [lia|]. rewrite str_length.
    unfold totalLength in IH. lia.
Qed.

(** X15.  A text without ink, the empty text among them, gives no chunk;
    a text of at most 1000 characters with ink gives one chunk, the text
    trimmed. *)
Theorem blank_and_short_texts (text : string) (fuel : nat) :
  (String.length text / 800 < fuel)%nat ->
  (hasInk (chars text) = false -> chunkText fuel text = Some []) /\
  ((String.length text <= 1000)%nat -> hasInk (chars text) = true ->
   chunkText fuel text = Some [str (JS.trim (chars text))]).
Proof.
  intros Hfuel. split.
  - intros Hblank.
    destruct (chunkLoop_terminates (chars text) (S (String.length text / 800)) 0 [])
      as [result Hres].
    { unfold len. rewrite chars_length.
      pose proof (Nat.mul_succ_div_gt (String.length text) 800). lia. }
    specialize (Hres fuel ltac:(lia)).
    unfold chunkText. rewrite Hres.
    apply (chunkLoop_blank _ Hblank) in Hres. subst result. reflexivity.
  - intros Hlen Hink. destruct fuel as [|fuel]; [lia|].
    apply short_text_one_chunk; assumption.
Qed.

End ChunkPieces.

Lemma chunk_size_bounds_witness :
  exists chunks,
    DocumentLoader.chunkText 3 longSentence = Some chunks /\
    Forall (fun chunk =>
              (1 <= String.length chunk <= 1001)%nat /\
              hasInk (chars chunk) = true /\
              JS.trim (chars chunk) = chars chunk) chunks.
Proof. apply (chunk_size_bounds longSentence 3). vm_compute. lia. Defined.

Lemma chunks_do_not_overlap_witness :
  exists chunks,
    DocumentLoader.chunkText 3 longSentence = Some chunks /\
    inOrder (map chars chunks) (chars longSentence) /\
    Forall (fun chunk => JS.includes (chars longSentence) (chars chunk) = true) chunks /\
    (totalLength chunks <= String.length longSentence)%nat.
Proof. apply (chunks_do_not_overlap longSentence 3). vm_compute. lia. Defined.

Lemma blank_and_short_texts_witness :
  DocumentLoader.chunkText 1 "   " = Some [] /\
  DocumentLoader.chunkText 1 " one line " = Some ["one line"].
Proof.
  split.
  - apply (blank_and_short_texts "   " 1); [vm_compute; lia | reflexivity].
  - apply (blank_and_short_texts " one line " 1);
      [vm_compute; lia | vm_compute; lia | reflexivity].
Defined.
(** ** Change detection: metadata that was just created *)

Section FreshMetadata.
Import PersistentVectorStore.
Context (F : FileSystem) (E : Env) (basename : string -> string).

Lemma createFileMetadata_run filePath n w :
  createFileMetadata F E basename filePath n w =
  match mtimeMs F filePath with
  | Some t =>
      (inr {| md_filename := basename filePath; fileHash := getFileHash F filePath;
              lastModified := t; chunkCount := n; processedAt := clock E (time w) |},
       tick w)
  | None => (inl (Error "ENOENT: no such file or directory"), w)
  end.
Proof.
  unfold createFileMetadata. rewrite bind_run. unfold orThrow.
  destruct (mtimeMs F filePath); reflexivity.
Qed.

Lemma fresh_not_changed filePath n w md w' :
  createFileMetadata F E basename filePath n w = (inr md, w') ->
  is_nan (lastModified md) = false ->
  hasFileChanged F filePath md = false.
Proof.
  rewrite createFileMetadata_run. unfold hasFileChanged.
  destruct (mtimeMs F filePath) as [t|]; [|discriminate].
  intros [= <- _]. cbn [fileHash lastModified]. intros Hnan.
  rewrite String.eqb_refl. cbn [negb orb].
  unfold numberDiffers. exact Hnan.
Qed.

(** X16.  [createFileMetadata] fails exactly when the status of the file
    cannot be read, also when its content can; otherwise it records the
    hash and the modification time that [hasFileChanged] reads, so the
    file is then not changed, unless its modification time is not a number. *)
Theorem fresh_metadata_is_current (filePath : string) (n : Z) (w : World) :
  (mtimeMs F filePath = None ->
   exists e, createFileMetadata F E basename filePath n w = (inl e, w)) /\
  (forall t, mtimeMs F filePath = Some t ->
   exists md,
     createFileMetadata F E basename filePath n w = (inr md, tick w) /\
     md_filename md = basename filePath /\ chunkCount md = n /\
     processedAt md = clock E (time w) /\
     hasFileChanged F filePath md = is_nan t).
Proof.
  rewrite createFileMetadata_run. split.
  - intros ->. eauto.
  - intros t Ht. rewrite Ht. eexists. split; [reflexivity|]. repeat split.
    unfold hasFileChanged. rewrite Ht. cbn [fileHash lastModified].
    rewrite String.eqb_refl. reflexivity.
Qed.

(** X17.  A directory whose markdown files all have the metadata
    [createFileMetadata] gave them, on the same file system, holds no new
    and no changed file: every markdown file is unchanged. *)
Theorem rescan_finds_nothing_to_do (dir : string) (known : gmap string DocumentMetadata)
    (files : list string) :
  readdirSync F dir = Some files ->
  (forall name, name ∈ files -> isMarkdown name = true ->
     exists md n w w',
       known !! name = Some md /\ is_nan (lastModified md) = false /\
       createFileMetadata F E basename (pathJoin F dir name) n w = (inr md, w')) ->
  getFilesToProcess F dir known =
    inr {| newFiles := []; changedFiles := [];
           unchangedFiles := map (pathJoin F dir) (List.filter isMarkdown files) |}.
Proof.
  intros Hdir Hknown. unfold getFilesToProcess. rewrite Hdir. f_equal.
  assert (Hmd : forall name, name ∈ List.filter isMarkdown files ->
                  classOf F dir known name = IsUnchanged).
  { intros name Hin. apply list_elem_of_In, filter_In in Hin as [Hin Hmark].
    apply list_elem_of_In in Hin.
    destruct (Hknown name Hin Hmark) as (md & n & w & w' & Hk & Hnan & Hcreate).
    unfold classOf. rewrite Hk, <- hasFileChanged_spec.
    rewrite (fresh_not_changed _ _ _ _ _ Hcreate Hnan). reflexivity. }
  rewrite classify_fold. cbn [newFiles changedFiles unchangedFiles app].
  induction (List.filter isMarkdown files) as [|name names IH]; [reflexivity|].
  rewrite !pathsOf_cons, Hmd by (left).
  cbn [bool_decide decide_rel app].
  rewrite !bool_decide_eq_false_2 by discriminate.
  rewrite bool_decide_eq_true_2 by reflexivity. cbn [app map].
  assert (IH' := IH (fun name Hin => Hmd name (list_elem_of_further _ _ _ Hin))).
  injection IH' as Hn Hc Hu. rewrite Hn, Hc, Hu. reflexivity.
Qed.

End FreshMetadata.

Lemma rescan_finds_nothing_to_do_witness :
  PersistentVectorStore.getFilesToProcess sampleFiles "docs"
    (processedBy sampleFiles Sample.env afterSlash "docs"
       ["new.md"; "touched.md"; "edited.md"; "same.md"]) =
  inr {| PersistentVectorStore.newFiles := [];
         PersistentVectorStore.changedFiles := [];
         PersistentVectorStore.unchangedFiles :=
           ["docs/new.md"; "docs/touched.md"; "docs/edited.md"; "docs/same.md"] |}.
Proof.
  apply (rescan_finds_nothing_to_do sampleFiles Sample.env afterSlash "docs" _
           ["new.md"; "touched.md"; "edited.md"; "same.md"; "notes.txt"]);
    [reflexivity|].
  intros name Hin Hmark.
  repeat (apply elem_of_cons in Hin as [->|Hin]);
    [..|apply elem_of_nil in Hin; contradiction];
    try discriminate Hmark;
    eexists _, 1, emptyWorld, _; (split; [vm_compute; reflexivity|]);
    (split; [|vm_compute; reflexivity]); vm_compute; reflexivity.
Defined.
(** ** The plugins *)

Lemma test_class (p : ascii -> bool) (s : list ascii) :
  Regex.test (Regex.Chr p) s = existsb p s.
Proof.
  unfold Regex.test. induction s as [|c s IH]; [reflexivity|].
  cbn [Regex.exec existsb]. unfold Regex.matchAt. cbn [length Regex.run].
  destruct (p c); [reflexivity|]. exact IH.
Qed.

Section Plugins.
Context (E : Env).

Lemma mock_run loc w :
  exists data,
    WeatherPlugin.getMockWeatherData E loc w =
      (inr (weatherOutcome data),
       {| sessions := sessions w; documents := documents w; time := time w;
          rolls := (4 + rolls w)%nat; trace := trace w |}) /\
    mockRanges loc data.
Proof.
  unfold WeatherPlugin.getMockWeatherData.
  rewrite !bind_run, !randomInt_run. cbn -[Z.modulo].
  eexists. split; [reflexivity|].
  unfold mockRanges. cbn -[Z.modulo].
  pose proof (Z.mod_pos_bound (randomBelow E (rolls w) 30) 30 ltac:(lia)).
  pose proof (Z.mod_pos_bound (randomBelow E (S (rolls w)) 4) 4 ltac:(lia)) as Hd.
  pose proof (Z.mod_pos_bound (randomBelow E (S (S (rolls w))) 40) 40 ltac:(lia)).
  pose proof (Z.mod_pos_bound (randomBelow E (S (S (S (rolls w)))) 20) 20 ltac:(lia)).
  repeat split; try lia.
  set (d := randomBelow E (S (rolls w)) 4 mod 4) in *.
  assert (Hcases : d = 0 \/ d = 1 \/ d = 2 \/ d = 3) by lia.
  unfold mockDescriptions.
  destruct Hcases as [-> | [-> | [-> | ->]]]; apply list_elem_of_In; cbn; tauto.
Qed.

Lemma weather_execute_run (ctx : PluginExecutionContext) (w : World) :
  let loc := WeatherPlugin.extractLocation (user_message ctx) in
  exists data w',
    WeatherPlugin.execute E ctx w = (inr (weatherOutcome data), w') /\
    sessions w' = sessions w /\ documents w' = documents w /\ time w' = time w /\
    (if WeatherPlugin.hasKey E
     then trace w' = trace w ++ [WeatherCall loc] /\
          match fetchWeather E loc with
          | Some fetched => data = fetched
          | None => mockRanges loc data
          end
     else trace w' = trace w /\ mockRanges loc data).
Proof.
  intros loc. unfold WeatherPlugin.execute, tryCatch. fold loc.
  destruct (WeatherPlugin.hasKey E); cbn [negb].
  - unfold WeatherPlugin.fetchWeatherData. rewrite !bind_run. cbn [modify].
    unfold orThrow. destruct (fetchWeather E loc) as [fetched|].
    + cbn. eexists _, _. split; [reflexivity|]. repeat split.
    + cbn. destruct (mock_run loc (emit (WeatherCall loc) w)) as (data & -> & Hr).
      eexists _, _. split; [reflexivity|]. repeat split; try apply Hr.
  - destruct (mock_run loc w) as (data & -> & Hr).
    eexists _, _. split; [reflexivity|]. repeat split; try apply Hr.
Qed.

(** X18.  The weather plugin always answers with a success: the data of
    the provider when a key is set and the request succeeds, and mock data
    otherwise, for the extracted location and within the ranges 5 to 34
    degrees, 40 to 79 percent, 5 to 24 km/h, with one of four
    descriptions.  Without a key no request is made. *)
Theorem weather_always_answers (ctx : PluginExecutionContext) (w : World) :
  let loc := WeatherPlugin.extractLocation (user_message ctx) in
  exists data w',
    WeatherPlugin.execute E ctx w = (inr (weatherOutcome data), w') /\
    sessions w' = sessions w /\ documents w' = documents w /\
    (if WeatherPlugin.hasKey E
     then trace w' = trace w ++ [WeatherCall loc] /\
          match fetchWeather E loc with
          | Some fetched => data = fetched
          | None => mockRanges loc data
          end
     else trace w' = trace w /\ mockRanges loc data).
Proof.
  intros loc.
  destruct (weather_execute_run ctx w) as (data & w' & Hrun & Hs & Hd & _ & Ht).
  exists data, w'. repeat split; assumption.
Qed.

Lemma math_execute_cases (ctx : PluginExecutionContext) (w : World) :
  exists res,
    MathPlugin.execute E ctx w = (inr res, w) /\
    plugin_name res = "math" /\
    (success res = true <->
     exists e value,
       MathPlugin.extractExpression (user_message ctx) = Some e /\ e <> [] /\
       evaluate E (str (MathPlugin.cleanExpression e)) = inr value) /\
    (success res = false -> is_Some (error res)).
Proof.
  unfold MathPlugin.execute, tryCatch.
  destruct (MathPlugin.extractExpression (user_message ctx)) as [[|c e]|] eqn:Hex.
  - eexists. split; [reflexivity|]. split; [reflexivity|]. split; [|cbn; eauto].
    split; [discriminate|]. intros (e & v & [= <-] & Hne & _). contradiction.
  - rewrite bind_run. unfold VectorStore.liftExn. cbv zeta.
    set (cleaned := str (MathPlugin.cleanExpression (c :: e))).
    destruct (evaluate E cleaned) as [[msg]|v] eqn:Hev.
    + eexists. split; [reflexivity|]. split; [reflexivity|]. split; [|cbn; eauto].
      split; [discriminate|]. intros (e' & v & [= <-] & _ & Hv).
      fold cleaned in Hv. rewrite Hv in Hev. discriminate Hev.
    + eexists. split; [reflexivity|]. split; [reflexivity|]. split; [|discriminate].
      split; [|reflexivity]. intros _. exists (c :: e), v.
      split; [reflexivity|]. split; [discriminate|exact Hev].
  - eexists. split; [reflexivity|]. split; [reflexivity|]. split; [|cbn; eauto].
    split; [discriminate|]. intros (e & v & [=] & _).
Qed.

(** X19.  The arithmetic plugin never throws and leaves the world as it
    is; it answers under the name [math], with a success exactly when an
    expression that is not empty was extracted and the evaluator computed
    its sanitized form; a failure carries an error message. *)
Theorem math_execute_outcome (ctx : PluginExecutionContext) (w : World) :
  exists res,
    MathPlugin.execute E ctx w = (inr res, w) /\
    plugin_name res = "math" /\
    (success res = true <->
     exists e value,
       MathPlugin.extractExpression (user_message ctx) = Some e /\ e <> [] /\
       evaluate E (str (MathPlugin.cleanExpression e)) = inr value) /\
    (success res = false -> exists msg, error res = Some msg).
Proof.
  destruct (math_execute_cases ctx w) as (res & Hrun & Hname & Hok & Herr).
  exists res. split; [exact Hrun|]. split; [exact Hname|]. split; [exact Hok|].
  intros Hfail. destruct (Herr Hfail) as [msg Hmsg]. eauto.
Qed.

Lemma executePlugins_run (ctx : PluginExecutionContext) (w : World) :
  exists results w',
    PluginManager.executePlugins E ctx w = (inr results, w') /\
    map plugin_name results = triggered (user_message ctx) /\
    sessions w' = sessions w /\ documents w' = documents w /\ time w' = time w /\
    trace w' = trace w ++
      (if WeatherPlugin.shouldExecute (user_message ctx) && WeatherPlugin.hasKey E
       then [WeatherCall (WeatherPlugin.extractLocation (user_message ctx))] else []).
Proof.
  unfold PluginManager.executePlugins, tryCatch, triggered. rewrite bind_run.
  destruct (WeatherPlugin.shouldExecute (user_message ctx)); cbn [andb].
  - rewrite bind_run.
    destruct (weather_execute_run ctx w) as (data & w1 & Hrun & Hs & Hd & Htime & Ht).
    assert (Htrace : trace w1 = trace w ++
                (if WeatherPlugin.hasKey E
                 then [WeatherCall (WeatherPlugin.extractLocation (user_message ctx))]
                 else [])).
    { cbv zeta in Ht. destruct (WeatherPlugin.hasKey E).
      - apply Ht.
      - rewrite app_nil_r. apply Ht. }
    rewrite Hrun.
    cbn. rewrite bind_run.
    destruct (MathPlugin.shouldExecute (user_message ctx)).
    + rewrite bind_run. destruct (math_execute_cases ctx w1) as (r2 & -> & Hn & _). cbn.
      eexists _, _. split; [reflexivity|]. cbn. rewrite Hn. repeat split; assumption.
    + cbn. eexists _, _. split; [reflexivity|]. repeat split; assumption.
  - cbn. rewrite bind_run.
    destruct (MathPlugin.shouldExecute (user_message ctx)).
    + rewrite bind_run. destruct (math_execute_cases ctx w) as (r2 & -> & Hn & _). cbn.
      eexists _, _. split; [reflexivity|]. cbn. rewrite Hn, app_nil_r. repeat split.
    + cbn. eexists _, _. split; [reflexivity|]. rewrite app_nil_r. repeat split.
Qed.

(** X20.  [executePlugins] never throws; it runs the weather plugin
    before the arithmetic plugin, each exactly when its trigger fires, so
    the names of the results are [weather] then [math], each present or
    not.  Sessions and documents are left alone; the one call it can make
    is the weather request, when a key is set. *)
Theorem plugins_run_in_order (ctx : PluginExecutionContext) (w : World) :
  exists results w',
    PluginManager.executePlugins E ctx w = (inr results, w') /\
    map plugin_name results =
      (if WeatherPlugin.shouldExecute (user_message ctx) then ["weather"] else []) ++
      (if MathPlugin.shouldExecute (user_message ctx) then ["math"] else []) /\
    sessions w' = sessions w /\ documents w' = documents w /\
    (WeatherPlugin.hasKey E = false -> trace w' = trace w) /\
    embedRequests (trace w') = embedRequests (trace w) /\
    chatHistories (trace w') = chatHistories (trace w).
Proof.
  destruct (executePlugins_run ctx w) as (results & w' & Hrun & Hnames & Hs & Hd & _ & Ht).
  exists results, w'. split; [exact Hrun|]. split; [exact Hnames|].
  split; [exact Hs|]. split; [exact Hd|]. rewrite Ht. split; [|split].
  - intros ->. rewrite andb_false_r. apply app_nil_r.
  - unfold embedRequests. rewrite omap_app.
    destruct (_ && _); cbn; apply app_nil_r.
  - rewrite chatHistories_app. destruct (_ && _); cbn; apply app_nil_r.
Qed.

End Plugins.
(** ** A whole turn *)

Section WholeTurn.
Context (E : Env).

Lemma addMessage_documents sid r c w :
  documents (snd (MemoryService.addMessage E sid r c w)) = documents w.
Proof. destruct (addMessage_run E sid r c w) as (s' & -> & _). reflexivity. Qed.

Lemma turn_steps req w :
  let sid := req_session_id req in
  let msg := message req in
  let ctx := {| query := msg; user_message := msg; ctx_session_id := sid |} in
  let w0 := userTurn E req w in
  let empty := bool_decide (length (documents w) = 0%nat) in
  let contextResults := if empty then [] else searchResults E msg 3 (documents w) in
  let w1 := if empty then w0 else emit (EmbedCall msg) w0 in
  exists pluginResults sp w2,
    PluginManager.executePlugins E ctx w1 = (inr pluginResults, w2) /\
    let hist := JS.slice (JS.sliceFrom (history w2 sid) (-4)) 0 (-1) in
    let w3 := emit (ChatCall sp msg hist) w2 in
    AgentService.processMessage E req w =
      match generateContent E (GeminiService.fullPrompt sp msg hist) with
      | Some text =>
          let aiResponse :=
            if bool_decide (text = "") then "No response generated" else text in
          (inr {| reply := aiResponse; resp_session_id := sid;
                  resp_timestamp := clock E (time w);
                  plugins_used := map plugin_name pluginResults;
                  context_retrieved := 0 <? Z.of_nat (length contextResults) |},
           snd (MemoryService.addMessage E sid assistant aiResponse w3))
      | None =>
          (inr {| reply := AgentService.apology; resp_session_id := sid;
                  resp_timestamp := clock E (time w);
                  plugins_used := []; context_retrieved := false |}, w3)
      end.
Proof.
  intros sid msg ctx w0 empty contextResults w1.
  unfold AgentService.processMessage. rewrite bind_run. cbn [nowISO].
  unfold tryCatch at 1. rewrite bind_run.
  fold sid msg. rewrite addMessage_ok.
  change (snd (MemoryService.addMessage E sid user msg (tick w))) with w0.
  rewrite bind_run. unfold tryCatch at 1. rewrite searchSimilar_run.
  assert (Hdocs : documents w0 = documents w).
  { subst w0. unfold userTurn. rewrite addMessage_documents. reflexivity. }
  rewrite Hdocs. fold empty.
  assert (Hsearch :
    (if empty then (inr [], w0)
     else (inr (searchResults E msg 3 (documents w)), emit (EmbedCall msg) w0))
    = (inr contextResults : Exn + list SearchResult, w1)).
  { subst contextResults w1. destruct empty; reflexivity. }
  rewrite Hsearch. rewrite bind_run. fold ctx.
  destruct (executePlugins_run E ctx w1) as (pluginResults & w2 & Hplug & _).
  rewrite Hplug.
  rewrite bind_run, getRecentMessages_run, bind_run.
  destruct (getConversationSummary_run sid w2) as (memoryText & ->).
  set (sp := AgentService.generateSystemPrompt _ _ _).
  exists pluginResults, sp, w2.
  split; [reflexivity|].
  cbv zeta.
  rewrite bind_run.
  unfold GeminiService.generateChatCompletion.
  rewrite bind_run. cbn [modify].
  unfold tryCatch. rewrite bind_run. unfold orThrow.
  destruct (generateContent E _) as [text|].
  - cbn [mret M_ret]. rewrite bind_run, addMessage_ok. reflexivity.
  - reflexivity.
Qed.

Lemma searchResults_nonempty q (docs : list Document) :
  docs <> [] -> (0 <? Z.of_nat (length (searchResults E q 3 docs))) = true.
Proof.
  intros Hne. rewrite searchResults_rank. unfold VectorStore.rank.
  apply Z.ltb_lt. rewrite slice_prefix_length, sortBy_length.
  rewrite <- (length_map document), scoredBy_documents.
  unfold JS.relIndex. cbn [Z.ltb Z.compare].
  destruct docs; [contradiction|]. cbn [length]. lia.
Qed.

Lemma embedRequests_app t1 t2 :
  embedRequests (t1 ++ t2) = embedRequests t1 ++ embedRequests t2.
Proof. apply omap_app. Qed.

(** The world when the plugins have run: the inbound message is in the
    session, and the trace holds the embedding request, unless the store
    is empty, and the weather request, if one was made. *)
Lemma turn_before_chat req w :
  let sid := req_session_id req in
  let msg := message req in
  exists (pluginResults : list PluginResult) sp w2 hist,
    map plugin_name pluginResults = triggered msg /\
    sessions w2 = sessions (userTurn E req w) /\
    documents w2 = documents w /\
    chatHistories (trace w2) = chatHistories (trace w) /\
    embedRequests (trace w2) =
      embedRequests (trace w) ++ (if bool_decide (documents w = []) then [] else [msg]) /\
    let w3 := emit (ChatCall sp msg hist) w2 in
    AgentService.processMessage E req w =
      match generateContent E (GeminiService.fullPrompt sp msg hist) with
      | Some text =>
          let aiResponse :=
            if bool_decide (text = "") then "No response generated" else text in
          (inr {| reply := aiResponse; resp_session_id := sid;
                  resp_timestamp := clock E (time w);
                  plugins_used := triggered msg;
                  context_retrieved := negb (bool_decide (documents w = [])) |},
           snd (MemoryService.addMessage E sid assistant aiResponse w3))
      | None =>
          (inr {| reply := AgentService.apology; resp_session_id := sid;
                  resp_timestamp := clock E (time w);
                  plugins_used := []; context_retrieved := false |}, w3)
      end.
Proof.
  intros sid msg.
  destruct (turn_steps req w) as (pluginResults & sp & w2 & Hplug & Hrun).
  cbv zeta in Hrun. fold sid msg in Hplug, Hrun.
  match type of Hplug with
  | PluginManager.executePlugins E ?ctx ?w1 = _ =>
      destruct (executePlugins_run E ctx w1)
        as (results & w2' & Hplug' & Hnames & Hs & Hd & _ & Ht)
  end.
  rewrite Hplug' in Hplug. injection Hplug as -> ->.
  cbn [user_message] in Hnames, Ht.
  exists pluginResults, sp, w2, (JS.slice (JS.sliceFrom (history w2 sid) (-4)) 0 (-1)).
  assert (Hdocs0 : documents (userTurn E req w) = documents w).
  { unfold userTurn. rewrite addMessage_documents. reflexivity. }
  assert (Htrace0 : trace (userTurn E req w) = trace w).
  { unfold userTurn. rewrite addMessage_trace. reflexivity. }
  assert (Hempty : bool_decide (length (documents w) = 0%nat) = bool_decide (documents w = [])).
  { destruct (documents w); reflexivity. }
  rewrite Hempty in *.
  split; [exact Hnames|].
  split; [rewrite Hs; destruct (bool_decide _); reflexivity|].
  split; [rewrite Hd; destruct (bool_decide _); [exact Hdocs0 | cbn; exact Hdocs0]|].
  split.
  { rewrite Ht, chatHistories_app.
    replace (chatHistories (if _ && _ then _ else _)) with (@nil (list ConversationMessage))
      by (destruct (_ && _); reflexivity).
    rewrite app_nil_r. destruct (bool_decide _); cbn [trace emit].
    - rewrite Htrace0. reflexivity.
    - rewrite chatHistories_app, Htrace0. cbn. apply app_nil_r. }
  split.
  { rewrite Ht, embedRequests_app.
    replace (embedRequests (if _ && _ then _ else _)) with (@nil string)
      by (destruct (_ && _); reflexivity).
    rewrite app_nil_r. destruct (bool_decide _); cbn [trace emit].
    - rewrite Htrace0, app_nil_r. reflexivity.
    - rewrite embedRequests_app, Htrace0. reflexivity. }
  cbv zeta. rewrite Hrun, Hnames.
  assert (Hflag : (0 <? Z.of_nat (length
             (if bool_decide (documents w = []) then []
              else searchResults E msg 3 (documents w)))) =
          negb (bool_decide (documents w = []))).
  { destruct (bool_decide (documents w = [])) eqn:Hb; [reflexivity|].
    apply searchResults_nonempty. apply bool_decide_eq_false in Hb. exact Hb. }
  rewrite Hflag. reflexivity.
Qed.

Lemma processMessage_returns (req : AgentMessage) (w : World) :
  exists response w', AgentService.processMessage E req w = (inr response, w').
Proof.
  destruct (turn_before_chat req w) as (pr & sp & w2 & hist & _ & _ & _ & _ & _ & Hrun).
  cbv zeta in Hrun. rewrite Hrun. destruct (generateContent E _); eauto.
Qed.

(** X21.  A turn never throws.  Its response carries the session of the
    request and the clock reading made at its start; the turn makes one
    chat call, one embedding request unless the store is empty, and
    leaves the documents and every other session as they are. *)
Theorem turn_never_throws (req : AgentMessage) (w : World) :
  exists response w',
    AgentService.processMessage E req w = (inr response, w') /\
    resp_session_id response = req_session_id req /\
    resp_timestamp response = clock E (time w) /\
    chatCalls (trace w') = S (chatCalls (trace w)) /\
    embedRequests (trace w') =
      embedRequests (trace w) ++
      (if bool_decide (documents w = []) then [] else [message req]) /\
    documents w' = documents w /\
    forall sid, sid <> req_session_id req -> history w' sid = history w sid.
Proof.
  destruct (turn_before_chat req w)
    as (pr & sp & w2 & hist & _ & Hs & Hd & Hc & He & Hrun).
  cbv zeta in Hrun. rewrite Hrun.
  set (w3 := emit (ChatCall sp (message req) hist) w2).
  assert (Hc3 : chatCalls (trace w3) = S (chatCalls (trace w))).
  { unfold chatCalls. subst w3. cbn [trace emit].
    rewrite chatHistories_app, length_app, Hc. cbn. lia. }
  assert (He3 : embedRequests (trace w3) =
                embedRequests (trace w) ++
                (if bool_decide (documents w = []) then [] else [message req])).
  { subst w3. cbn [trace emit]. rewrite embedRequests_app, He. cbn. apply app_nil_r. }
  assert (Hother : forall sid, sid <> req_session_id req -> history w3 sid = history w sid).
  { intros sid Hne. unfold history. subst w3. cbn [sessions emit]. rewrite Hs.
    unfold userTurn.
    destruct (addMessage_history E (req_session_id req) user (message req) (tick w) sid)
      as [_ Hh]. unfold history in Hh. rewrite Hh.
    rewrite decide_False by congruence. reflexivity. }
  destruct (generateContent E _) as [text|].
  - eexists _, _. split; [reflexivity|]. cbn [resp_session_id resp_timestamp].
    split; [reflexivity|]. split; [reflexivity|].
    rewrite addMessage_trace, addMessage_documents.
    split; [exact Hc3|]. split; [exact He3|]. split; [exact Hd|].
    intros sid Hne.
    destruct (addMessage_history E (req_session_id req) assistant
                (if bool_decide (text = "") then "No response generated" else text) w3 sid)
      as [_ ->].
    rewrite decide_False by congruence. apply Hother. exact Hne.
  - eexists _, _. split; [reflexivity|]. cbn [resp_session_id resp_timestamp].
    split; [reflexivity|]. split; [reflexivity|].
    split; [exact Hc3|]. split; [exact He3|]. split; [exact Hd|]. exact Hother.
Qed.

(** The turn makes one chat call, with the prompt [turnPrompt]. *)
Lemma turn_one_prompt req w :
  chatPrompts (trace (snd (AgentService.processMessage E req w))) =
  chatPrompts (trace w) ++ [turnPrompt E req w].
Proof.
  destruct (turn_steps req w) as (pluginResults & sp & w2 & Hplug & Hrun).
  cbv zeta in Hrun.
  match type of Hplug with
  | PluginManager.executePlugins E ?ctx ?w1 = _ =>
      destruct (executePlugins_run E ctx w1)
        as (results & w2' & Hplug' & _ & _ & _ & _ & Ht)
  end.
  rewrite Hplug' in Hplug. injection Hplug as -> ->.
  set (hist := JS.slice (JS.sliceFrom (history w2 (req_session_id req)) (-4)) 0 (-1)) in Hrun.
  assert (Htr : trace (snd (AgentService.processMessage E req w)) =
                trace w2 ++ [ChatCall sp (message req) hist]).
  { rewrite Hrun. destruct (generateContent E _); cbn [snd];
      rewrite ?addMessage_trace; reflexivity. }
  rewrite (turnPrompt_last E req w _ _ _ Htr), Htr, chatPrompts_app.
  f_equal. rewrite Ht, chatPrompts_app.
  replace (chatPrompts (if _ && _ then _ else _)) with (@nil string)
    by (destruct (_ && _); reflexivity).
  rewrite app_nil_r.
  assert (Htrace0 : trace (userTurn E req w) = trace w).
  { unfold userTurn. rewrite addMessage_trace. reflexivity. }
  destruct (bool_decide _); cbn [trace emit].
  - rewrite Htrace0. reflexivity.
  - rewrite chatPrompts_app, Htrace0. cbn. apply app_nil_r.
Qed.

(** X22.  When the chat call of a turn returns a text, whatever the
    provider does on other prompts, the reply is that text, or the
    sentence for an empty text, and is never empty; the response names the
    plugins whose trigger fired, weather before math, and flags retrieved
    context exactly when the store holds a document.  The session then
    ends with the inbound message and the reply, and holds the last 20
    messages.  The call is the one chat call the turn makes. *)
Theorem turn_records_exchange (req : AgentMessage) (w : World) (text : string) :
  generateContent E (turnPrompt E req w) = Some text ->
  let sid := req_session_id req in
  exists response w',
    AgentService.processMessage E req w = (inr response, w') /\
    reply response = (if bool_decide (text = "") then "No response generated" else text) /\
    reply response <> "" /\
    plugins_used response = triggered (message req) /\
    context_retrieved response = negb (bool_decide (documents w = [])) /\
    map said (history w' sid) =
      lastN 20 (map said (history w sid) ++
                [(user, message req); (assistant, reply response)]) /\
    chatPrompts (trace w') = chatPrompts (trace w) ++ [turnPrompt E req w].
Proof.
  intros Hchat sid. subst sid.
  pose proof (turn_one_prompt req w) as Hone.
  destruct (turn_before_chat req w)
    as (pr & sp & w2 & hist & _ & Hs & _ & _ & _ & Hrun).
  cbv zeta in Hrun.
  assert (Hp : turnPrompt E req w = GeminiService.fullPrompt sp (message req) hist).
  { apply (turnPrompt_last E req w (trace w2)). rewrite Hrun.
    destruct (generateContent E (GeminiService.fullPrompt sp (message req) hist));
      cbn [snd]; rewrite ?addMessage_trace; reflexivity. }
  rewrite <- Hp, Hchat in Hrun. rewrite Hrun in Hone |- *. cbn [snd] in Hone.
  set (aiResponse := if bool_decide (text = "") then "No response generated" else text) in *.
  eexists _, _. split; [reflexivity|]. cbn [reply plugins_used context_retrieved].
  split; [reflexivity|].
  split.
  { subst aiResponse. destruct (bool_decide (text = "")) eqn:Hb; [discriminate|].
    apply bool_decide_eq_false in Hb. exact Hb. }
  split; [reflexivity|]. split; [reflexivity|].
  split; [|exact Hone].
  destruct (addMessage_history E (req_session_id req) assistant aiResponse
              (emit (ChatCall sp (message req) hist) w2) (req_session_id req)) as [_ ->].
  rewrite decide_True by reflexivity.
  assert (Hh : history (emit (ChatCall sp (message req) hist) w2) (req_session_id req) =
               lastN 19 (history w (req_session_id req)) ++ [appended E req w]).
  { rewrite <- userTurn_history. unfold history. cbn [sessions emit]. rewrite Hs. reflexivity. }
  rewrite Hh. unfold capped.
  rewrite map_lastN, !map_app, map_lastN. cbn [map said role content appended].
  rewrite <- lastN_snoc, lastN_app_lastN, <- app_assoc. reflexivity.
Qed.

End WholeTurn.

Lemma turn_records_exchange_witness :
  exists response w',
    AgentService.processMessage Sample.envFlaky
      {| message := twelveTimesFour; req_session_id := "s" |} ws4 = (inr response, w') /\
    reply response = "Hello!" /\
    plugins_used response = ["math"] /\
    context_retrieved response = false /\
    map said (history w' "s") =
      lastN 20 (map said (history ws4 "s") ++
                [(user, twelveTimesFour); (assistant, "Hello!")]).
Proof.
  destruct (turn_records_exchange Sample.envFlaky
              {| message := twelveTimesFour; req_session_id := "s" |} ws4 "Hello!")
    as (response & w' & Hrun & Hreply & _ & Hplug & Hctx & Hhist & _).
  - vm_compute. reflexivity.
  - exists response, w'. rewrite Hreply in Hhist.
    split; [exact Hrun|]. split; [exact Hreply|].
    split; [rewrite Hplug; vm_compute; reflexivity|].
    split; [exact Hctx|]. exact Hhist.
Defined.
(** ** Health *)

Section Health.
Context (E : Env).

Lemma testPlugins_run w :
  exists mathOk w',
    PluginManager.testPlugins E w = (inr [("weather", true); ("math", mathOk)], w') /\
    (mathOk = true <-> evaluatesTestSum E) /\
    sessions w' = sessions w /\ documents w' = documents w.
Proof.
  unfold PluginManager.testPlugins.
  match goal with |- context [WeatherPlugin.execute E ?ctx w] =>
    destruct (weather_execute_run E ctx w) as (data & w1 & -> & Hs & Hd & _)
  end.
  match goal with |- context [MathPlugin.execute E ?ctx w1] =>
    destruct (math_execute_cases E ctx w1) as (res & -> & _ & Hok & _)
  end.
  cbn [success weatherOutcome app].
  eexists _, _. split; [reflexivity|]. split; [|split; assumption].
  rewrite Hok. cbn [user_message]. unfold evaluatesTestSum.
  assert (Hex : MathPlugin.extractExpression "What is 2 + 2?" = Some (chars "2 + 2"))
    by (vm_compute; reflexivity).
  assert (Hclean : str (MathPlugin.cleanExpression (chars "2 + 2")) = "2+2")
    by (vm_compute; reflexivity).
  split.
  - intros (e & v & He & _ & Hv). rewrite Hex in He.
    assert (He' : e = chars "2 + 2") by congruence.
    rewrite He', Hclean in Hv. eauto.
  - intros [v Hv]. exists (chars "2 + 2"), v.
    split; [exact Hex|]. split; [discriminate|]. rewrite Hclean. exact Hv.
Qed.

Lemma getHealthStatus_run (w : World) :
  exists health w',
    AgentService.getHealthStatus E w = (inr health, w') /\
    (AgentService.status health = "healthy" \/ AgentService.status health = "degraded") /\
    (AgentService.status health = "healthy" <-> ~ connectionFails E /\ evaluatesTestSum E) /\
    AgentService.documentCount health = Z.of_nat (length (documents w)) /\
    (exists mathOk, AgentService.pluginStatus health = [("weather", true); ("math", mathOk)]) /\
    sessions w' = sessions w /\ documents w' = documents w.
Proof.
  unfold AgentService.getHealthStatus, tryCatch. rewrite bind_run.
  destruct (testConnection_run E w) as (passed & w1 & Hconn & Hpassed & Hs1 & Hd1).
  rewrite Hconn, bind_run.
  destruct (testPlugins_run w1) as (mathOk & w2 & -> & Hmath & Hs2 & Hd2).
  cbn [mbind M_bind mret M_ret VectorStore.getDocumentCount gets].
  unfold mbind, M_bind, VectorStore.getDocumentCount, gets, mret, M_ret.
  cbn [forallb snd andb].
  eexists _, _. split; [reflexivity|].
  cbn [AgentService.status AgentService.documentCount AgentService.pluginStatus].
  rewrite andb_true_r.
  split; [destruct (passed && mathOk); eauto|].
  split.
  { destruct passed, mathOk; cbn [andb].
    - split; [intros _|reflexivity]. split; [|apply Hmath; reflexivity].
      intros Hf. apply Hpassed in Hf. discriminate.
    - split; [discriminate|]. intros [_ Hm]. apply Hmath in Hm. discriminate.
    - split; [discriminate|]. intros [Hn _]. exfalso. apply Hn, Hpassed. reflexivity.
    - split; [discriminate|]. intros [Hn _]. exfalso. apply Hn, Hpassed. reflexivity. }
  split; [rewrite Hd2, Hd1; reflexivity|].
  split; [eauto|]. split; congruence.
Qed.

Lemma getHealth_run (w : World) :
  exists health w',
    AgentService.getHealthStatus E (tick w) = (inr health, w') /\
    AgentRouter.getHealth E w =
      (inr {| AgentRouter.statusCode :=
                if bool_decide (AgentService.status health = "healthy") then 200 else 206;
              AgentRouter.answer := inr health |}, w').
Proof.
  unfold AgentRouter.getHealth, AgentRouter.requestLogger, tryCatch.
  rewrite bind_run. cbn [nowISO]. rewrite bind_run.
  destruct (getHealthStatus_run (tick w)) as (health & w' & -> & Hstatus & _).
  cbn [mret M_ret]. exists health, w'. split; [reflexivity|].
  destruct Hstatus as [-> | ->]; reflexivity.
Qed.

(** X23.  [getHealthStatus] never reports [unhealthy]: the status is
    [healthy] or [degraded].  It is [healthy] exactly when the connection
    test passes, which it does when the providers are down, and the
    evaluator computes the test sum; the weather plugin always passes.
    So [GET /agent/health] answers 200 or 206, never 503: 200 exactly when
    the status is [healthy]. *)
Theorem health_never_unhealthy (w : World) :
  (exists health w',
     AgentService.getHealthStatus E w = (inr health, w') /\
     AgentService.status health <> "unhealthy" /\
     (AgentService.status health = "healthy" \/ AgentService.status health = "degraded") /\
     (AgentService.status health = "healthy" <-> ~ connectionFails E /\ evaluatesTestSum E) /\
     AgentService.documentCount health = Z.of_nat (length (documents w)) /\
     (exists mathOk,
        AgentService.pluginStatus health = [("weather", true); ("math", mathOk)]) /\
     sessions w' = sessions w /\ documents w' = documents w) /\
  (exists health w',
     AgentRouter.getHealth E w =
       (inr {| AgentRouter.statusCode :=
                 if bool_decide (AgentService.status health = "healthy") then 200 else 206;
               AgentRouter.answer := inr health |}, w') /\
     (AgentService.status health = "healthy" <-> ~ connectionFails E /\ evaluatesTestSum E)).
Proof.
  split.
  - destruct (getHealthStatus_run w) as (health & w' & Hrun & Hstatus & Hrest).
    exists health, w'. split; [exact Hrun|]. split; [|split; [exact Hstatus|exact Hrest]].
    destruct Hstatus as [-> | ->]; discriminate.
  - destruct (getHealth_run w) as (health & w' & Hservice & Hroute).
    exists health, w'. split; [exact Hroute|].
    destruct (getHealthStatus_run (tick w)) as (health' & w2 & Hrun & _ & Hiff & _).
    rewrite Hservice in Hrun. injection Hrun as <- _. exact Hiff.
Qed.

End Health.

(** ** The routes of the agent *)

Section Routes.
Context (E : Env).

Lemma reject_run {A : Type} code msg w :
  AgentRouter.reject E (A := A) code msg w =
    (inr {| AgentRouter.statusCode := code;
            AgentRouter.answer :=
              inl {| AgentRouter.error_message := msg;
                     AgentRouter.error_timestamp := clock E (time w) |} |}, tick w).
Proof. reflexivity. Qed.

Lemma postMessage_cases (body : AgentRouter.Body) (w : World) :
  exists resp w',
    AgentRouter.postMessage E body w = (inr resp, w') /\
    if validBody body
    then exists response,
           AgentService.processMessage E (requestOf body) (tick w) = (inr response, w') /\
           resp = {| AgentRouter.statusCode := 200; AgentRouter.answer := inr response |}
    else AgentRouter.statusCode resp = 400 /\
         (exists err, AgentRouter.answer resp = inl err) /\
         sessions w' = sessions w /\ documents w' = documents w /\ trace w' = trace w.
Proof.
  unfold AgentRouter.postMessage, AgentRouter.requestLogger, AgentRouter.validateAgentMessage,
    validBody.
  rewrite bind_run. cbn [nowISO]. cbv zeta.
  destruct body as [m s]. cbn [AgentRouter.body_message AgentRouter.body_session_id].
  destruct m as [| |b|x|m|];
    try (cbn [AgentRouter.isString AgentRouter.truthy negb orb andb];
         rewrite ?orb_true_r, reject_run; eexists _, _; split; [reflexivity|];
         cbn; repeat split; eauto).
  cbn [AgentRouter.truthy AgentRouter.isString AgentRouter.asString negb orb].
  rewrite orb_false_r.
  destruct (bool_decide (m = "")) eqn:Hm; cbn [negb andb].
  { destruct s; rewrite reject_run; eexists _, _; (split; [reflexivity|]);
      cbn; repeat split; eauto. }
  destruct s as [| |b|x|s|];
    try (cbn [AgentRouter.isString AgentRouter.truthy negb orb andb];
         rewrite ?orb_true_r, reject_run; eexists _, _; split; [reflexivity|];
         cbn; repeat split; eauto).
  cbn [AgentRouter.truthy AgentRouter.isString AgentRouter.asString negb orb].
  rewrite orb_false_r.
  destruct (bool_decide (s = "")) eqn:Hs; cbn [negb andb].
  { rewrite reject_run. eexists _, _. split; [reflexivity|]. cbn. repeat split; eauto. }
  rewrite Z.leb_antisym.
  destruct (2000 <? Z.of_nat (String.length m)); cbn [negb].
  { rewrite reject_run. eexists _, _. split; [reflexivity|]. cbn. repeat split; eauto. }
  unfold tryCatch. rewrite bind_run.
  unfold requestOf. cbn [AgentRouter.body_message AgentRouter.body_session_id AgentRouter.asString].
  destruct (processMessage_returns E {| message := m; req_session_id := s |} (tick w))
    as (response & w' & ->).
  cbn [mret M_ret]. eexists _, _. split; [reflexivity|]. eauto.
Qed.

Lemma errorHandler_run (msg path : string) (w : World) :
  exists message,
    App.errorHandler E (Error msg) path w =
      (inr {| App.report_status := errorStatus msg; App.report_message := message;
              App.report_timestamp := clock E (time w); App.report_path := path |},
       tick w).
Proof.
  unfold App.errorHandler, errorStatus. rewrite bind_run. cbn [nowISO mret M_ret].
  destruct (JS.includes (chars msg) (chars "rate limit"));
    destruct (JS.includes (chars msg) (chars "validation"));
    destruct (JS.includes (chars msg) (chars "OpenAI"));
    eexists; reflexivity.
Qed.

(** X24.  [POST /agent/message], as the application serves it.  When a
    body parser fails, or [req.body] is undefined and its destructuring
    throws, the request ends in [errorHandler]: the answer has the status
    500, or 503, 400 or 429 when the message of the error contains
    [OpenAI], [validation] or [rate limit] (the keyword tested last
    decides), with the path of the request, and the turn is not run.  When
    [req.body] is an object, the answer is 200 with the response of the
    turn when the body holds a message of 1 to 2000 code units and a
    session identifier that is not empty, both strings; otherwise it is
    400 and the turn is not run: sessions, documents and provider calls
    are as before.  So the route answers 500 only from [errorHandler],
    never from the handler's own [catch]; it does for an undefined
    [req.body] with the message of V8. *)
Theorem message_route (path : string) (parsed : App.Parsed) (w : World) :
  (exists out w',
     App.postMessage E path parsed w = (inr out, w') /\
     match parsed with
     | App.Fields body =>
         if validBody body
         then exists response,
                AgentService.processMessage E (requestOf body) (tick w) = (inr response, w') /\
                out = inr {| AgentRouter.statusCode := 200;
                             AgentRouter.answer := inr response |}
         else exists resp,
                out = inr resp /\
                AgentRouter.statusCode resp = 400 /\
                (exists err, AgentRouter.answer resp = inl err) /\
                sessions w' = sessions w /\ documents w' = documents w /\ trace w' = trace w
     | App.ParseError msg | App.NoBody msg =>
         exists report,
           out = inl report /\
           App.report_status report = errorStatus msg /\
           App.report_path report = path /\
           sessions w' = sessions w /\ documents w' = documents w /\ trace w' = trace w
     end /\
     (statusOf out = 500 <->
      exists msg, handedToNext parsed = Some msg /\ errorStatus msg = 500)) /\
  errorStatus destructureError = 500.
Proof.
  split; [|vm_compute; reflexivity].
  destruct parsed as [msg|msg|body]; cbn [App.postMessage handedToNext].
  - rewrite bind_run.
    destruct (errorHandler_run msg path w) as (message & ->).
    cbn [mret M_ret]. eexists _, _. split; [reflexivity|].
    split; [eexists; repeat split|].
    cbn [statusOf App.report_status]. split.
    + intros H. exists msg. split; [reflexivity | exact H].
    + intros (msg' & [= <-] & H). exact H.
  - unfold AgentRouter.requestLogger. rewrite bind_run. cbn [nowISO]. rewrite bind_run.
    destruct (errorHandler_run msg path (tick w)) as (message & ->).
    cbn [mret M_ret]. eexists _, _. split; [reflexivity|].
    split; [eexists; repeat split|].
    cbn [statusOf App.report_status]. split.
    + intros H. exists msg. split; [reflexivity | exact H].
    + intros (msg' & [= <-] & H). exact H.
  - rewrite bind_run.
    destruct (postMessage_cases body w) as (resp & w' & -> & Hcases).
    cbn [mret M_ret]. eexists _, _. split; [reflexivity|].
    cbn [statusOf]. destruct (validBody body).
    + destruct Hcases as (response & Hturn & ->). split; [eauto|].
      split; [discriminate | intros (msg & [=] & _)].
    + destruct Hcases as (Hcode & Hrest). split; [eauto|].
      rewrite Hcode. split; [discriminate | intros (msg & [=] & _)].
Qed.

(** X25.  [GET /agent/session/:id/stats] answers 404 exactly when the
    store holds no session of that identifier, and otherwise 200 with the
    number of messages and the two dates of the session; the sessions are
    left alone.  [DELETE /agent/session/:id] always answers 200, and the
    statistics of the session are 404 after it. *)
Theorem session_routes (sid : string) (w : World) :
  (exists resp w',
     AgentRouter.getStats E sid w = (inr resp, w') /\ sessions w' = sessions w /\
     match sessions w !! sid with
     | None => AgentRouter.statusCode resp = 404 /\
               exists err, AgentRouter.answer resp = inl err
     | Some s =>
         resp = {| AgentRouter.statusCode := 200;
                   AgentRouter.answer :=
                     inr (sid, (Z.of_nat (length (messages s)), created_at s, updated_at s)) |}
     end) /\
  (exists done w1 resp w2,
     AgentRouter.deleteSession E sid w = (inr done, w1) /\
     AgentRouter.statusCode done = 200 /\
     sessions w1 = delete sid (sessions w) /\
     AgentRouter.getStats E sid w1 = (inr resp, w2) /\
     AgentRouter.statusCode resp = 404).
Proof.
  split.
  - unfold AgentRouter.getStats, AgentRouter.requestLogger, tryCatch,
      AgentService.getSessionStats, MemoryService.getSessionStats.
    rewrite !bind_run. cbn [nowISO]. rewrite !bind_run. cbn [gets tick sessions mret M_ret].
    destruct (sessions w !! sid) as [s|].
    + eexists _, _. split; [reflexivity|]. split; reflexivity.
    + rewrite reject_run. eexists _, _. split; [reflexivity|]. cbn. eauto.
  - unfold AgentRouter.deleteSession, AgentRouter.getStats, AgentRouter.requestLogger, tryCatch,
      AgentService.getSessionStats, MemoryService.getSessionStats,
      AgentService.clearSession, MemoryService.clearSession.
    eexists _, _, _, _. split; [mrun; reflexivity|]. split; [reflexivity|].
    split; [reflexivity|].
    rewrite !bind_run. cbn [nowISO]. rewrite !bind_run.
    cbn [gets tick sessions mret M_ret setSessions].
    rewrite lookup_delete_eq. rewrite reject_run. split; reflexivity.
Qed.

End Routes.

(** ** The statistics of the loaded documents *)

Lemma distinct_fold (xs : list string) : forall seen,
  NoDup seen ->
  let out := fold_left (fun seen x => if bool_decide (x ∈ seen) then seen else seen ++ [x])
               xs seen in
  NoDup out /\ (forall x, x ∈ out <-> x ∈ seen \/ x ∈ xs) /\
  (length out <= length seen + length xs)%nat /\
  exists added, out = seen ++ added.
Proof.
  induction xs as [|x xs IH]; intros seen Hnd; cbn [fold_left].
  - split; [exact Hnd|]. split; [|split; [cbn; lia|exists []; symmetry; apply app_nil_r]].
    intros y. rewrite elem_of_nil. tauto.
  - destruct (bool_decide (x ∈ seen)) eqn:Hx.
    + apply bool_decide_eq_true in Hx.
      destruct (IH seen Hnd) as (H1 & H2 & H3 & H4).
      split; [exact H1|]. split; [|split; [cbn [length]; lia|exact H4]].
      intros y. rewrite H2, elem_of_cons. split; [tauto|].
      intros [?|[->|?]]; tauto.
    + apply bool_decide_eq_false in Hx.
      destruct (IH (seen ++ [x])) as (H1 & H2 & H3 & added & H4).
      { apply NoDup_app. split; [exact Hnd|]. split; [|apply NoDup_singleton].
        intros y Hy Hy'. apply list_elem_of_singleton in Hy'. subst y. contradiction. }
      split; [exact H1|]. split; [|split].
      * intros y. rewrite H2, elem_of_app, list_elem_of_singleton, elem_of_cons. tauto.
      * rewrite length_app in H3. cbn [length] in *. lia.
      * exists (x :: added). rewrite H4, <- app_assoc. reflexivity.
Qed.

(** X26.  [getLoadedDocumentStats] counts every document of the store as
    a chunk and lists each file name of the store once; so there are no
    more files than chunks, and no file exactly when the store is empty.
    The store is left as it is. *)
Theorem loaded_document_stats (w : World) :
  exists stats,
    DocumentLoader.getLoadedDocumentStats w = (inr stats, w) /\
    DocumentLoader.totalChunks stats = Z.of_nat (length (documents w)) /\
    DocumentLoader.totalDocuments stats = Z.of_nat (length (DocumentLoader.fileNames stats)) /\
    NoDup (DocumentLoader.fileNames stats) /\
    (forall name, name ∈ DocumentLoader.fileNames stats <->
                  exists doc, doc ∈ documents w /\ filename (metadata doc) = name) /\
    DocumentLoader.totalDocuments stats <= DocumentLoader.totalChunks stats /\
    (DocumentLoader.totalDocuments stats = 0 <-> documents w = []).
Proof.
  unfold DocumentLoader.getLoadedDocumentStats, VectorStore.getAllDocuments.
  mrun. eexists. split; [reflexivity|].
  cbn [DocumentLoader.totalChunks DocumentLoader.totalDocuments DocumentLoader.fileNames].
  unfold DocumentLoader.distinct.
  destruct (distinct_fold (map (fun doc => filename (metadata doc)) (documents w)) []
              NoDup_nil_2) as (Hnd & Hin & Hlen & _).
  cbv zeta in *. set (names := fold_left _ _ _) in *.
  rewrite length_map in Hlen. cbn [length] in Hlen.
  split; [reflexivity|]. split; [reflexivity|]. split; [exact Hnd|].
  assert (Hmem : forall name, name ∈ names <->
            exists doc, doc ∈ documents w /\ filename (metadata doc) = name).
  { intros name. rewrite Hin, elem_of_nil.
    split.
    - intros [[]|Hn]. apply list_elem_of_In, in_map_iff in Hn as (doc & Hd & Hi).
      exists doc. split; [apply list_elem_of_In; exact Hi | exact Hd].
    - intros (doc & Hi & Hd). right. apply list_elem_of_In, in_map_iff.
      exists doc. split; [exact Hd | apply list_elem_of_In; exact Hi]. }
  split; [exact Hmem|]. split; [lia|].
  split.
  - intros Hz. destruct (documents w) as [|doc docs] eqn:Hdocs; [reflexivity|].
    assert (Hd : filename (metadata doc) ∈ names).
    { apply Hmem. exists doc. split; [left|reflexivity]. }
    destruct names; [apply elem_of_nil in Hd; contradiction|]. cbn [length] in Hz. lia.
  - intros Hdocs. destruct names as [|n names'] eqn:Hn; [reflexivity|].
    assert (Hd : n ∈ n :: names') by left.
    apply Hmem in Hd as (doc & Hi & _). rewrite Hdocs in Hi.
    apply elem_of_nil in Hi. contradiction.
Qed.
(** ** Regular expressions over one character class *)

Section ClassMatches.
Context (p : ascii -> bool).

Lemma consumed_app (m s : list ascii) : Regex.consumed (m ++ s) s = m.
Proof.
  unfold Regex.consumed. rewrite length_app.
  replace (length m + length s - length s)%nat with (length m) by lia.
  apply take_app_length.
Qed.

Lemma star_class_run {R : Type} (k : list ascii -> Regex.Captures -> option R) :
  (forall s caps, is_Some (k s caps)) ->
  forall n s caps, (length s <= n)%nat ->
    Regex.run n (Regex.Star (Regex.Chr p)) s caps k = k (JS.dropWhile p s) caps.
Proof.
  intros Hk. induction n as [|n IH]; intros s caps Hn.
  - destruct s; [reflexivity|cbn in Hn; lia].
  - cbn [Regex.run]. destruct s as [|c s]; [reflexivity|].
    cbn [JS.dropWhile]. destruct (p c); [|reflexivity].
    replace (length s <? length (c :: s))%nat with true
      by (symmetry; apply Nat.ltb_lt; cbn; lia).
    rewrite IH by (cbn in Hn; lia).
    destruct (Hk (JS.dropWhile p s) caps) as [x ->]. reflexivity.
Qed.

Lemma matchAt_class (c : ascii) (s : list ascii) :
  Regex.matchAt (Regex.Chr p) (c :: s) = if p c then Some ([c], [], s) else None.
Proof.
  unfold Regex.matchAt. cbn [length Regex.run].
  destruct (p c); [|reflexivity].
  replace (Regex.consumed (c :: s) s) with [c] by (symmetry; apply (consumed_app [c] s)).
  reflexivity.
Qed.

Lemma matchAt_plus_class (c : ascii) (s : list ascii) :
  Regex.matchAt (Regex.Plus (Regex.Chr p)) (c :: s) =
  if p c
  then Some (Regex.consumed (c :: s) (JS.dropWhile p s), [], JS.dropWhile p s)
  else None.
Proof.
  unfold Regex.matchAt, Regex.Plus. cbn [length].
  change (Regex.run (S (length s)) (Regex.Seq (Regex.Chr p) (Regex.Star (Regex.Chr p)))
            (c :: s) [] (fun s' caps => Some (Regex.consumed (c :: s) s', caps, s')))
    with (if p c
          then Regex.run (S (length s)) (Regex.Star (Regex.Chr p)) s []
                 (fun s' caps => Some (Regex.consumed (c :: s) s', caps, s'))
          else None).
  destruct (p c); [|reflexivity].
  rewrite star_class_run; [reflexivity | eauto | lia].
Qed.

Lemma dropWhile_shorter (s : list ascii) : (length (JS.dropWhile p s) <= length s)%nat.
Proof. apply dropWhile_length. Qed.

Lemma filter_dropWhile (s : list ascii) :
  List.filter (fun c => negb (p c)) (JS.dropWhile p s) = List.filter (fun c => negb (p c)) s.
Proof.
  induction s as [|c s IH]; [reflexivity|]. cbn [JS.dropWhile List.filter].
  destruct (p c) eqn:Hc; cbn [negb]; [exact IH|]. cbn [List.filter]. rewrite Hc. reflexivity.
Qed.

(** Deleting the runs of a class deletes its characters. *)
Lemma replace_plus_class (s : list ascii) : forall n, (length s < n)%nat ->
  Regex.replaceFrom n (Regex.Plus (Regex.Chr p)) [] s = List.filter (fun c => negb (p c)) s.
Proof.
  intros n. revert s. induction n as [|n IH]; intros s Hn; [lia|].
  destruct s as [|c s].
  - reflexivity.
  - cbn [Regex.replaceFrom]. rewrite matchAt_plus_class. cbn [List.filter].
    destruct (p c) eqn:Hc; cbn [negb].
    + rewrite bool_decide_eq_false_2.
      * cbn [app]. rewrite IH, filter_dropWhile; [reflexivity|].
        pose proof (dropWhile_shorter s). cbn in Hn. lia.
      * unfold Regex.consumed. rewrite length_take. cbn [length].
        pose proof (dropWhile_shorter s). lia.
    + f_equal. apply IH. cbn in Hn. lia.
Qed.

(** Deleting the characters of a class. *)
Lemma replace_class (s : list ascii) : forall n, (length s < n)%nat ->
  Regex.replaceFrom n (Regex.Chr p) [] s = List.filter (fun c => negb (p c)) s.
Proof.
  intros n. revert s. induction n as [|n IH]; intros s Hn; [lia|].
  destruct s as [|c s]; [reflexivity|].
  cbn [Regex.replaceFrom]. rewrite matchAt_class. cbn [List.filter].
  destruct (p c); cbn [negb length bool_decide].
  - rewrite bool_decide_eq_false_2 by discriminate. cbn [app]. apply IH. cbn in Hn. lia.
  - f_equal. apply IH. cbn in Hn. lia.
Qed.

(** Replacing a class that does not occur changes nothing. *)
Lemma replace_class_absent (by_ s : list ascii) : forall n,
  forallb (fun c => negb (p c)) s = true ->
  Regex.replaceFrom n (Regex.Chr p) by_ s = s.
Proof.
  intros n. revert s. induction n as [|n IH]; intros s Hs; [reflexivity|].
  destruct s as [|c s]; [reflexivity|].
  cbn [forallb] in Hs. apply andb_true_iff in Hs as [Hc Hs].
  cbn [Regex.replaceFrom]. rewrite matchAt_class.
  apply negb_true_iff in Hc. rewrite Hc. f_equal. apply IH. exact Hs.
Qed.

End ClassMatches.

Lemma forallb_filter {A : Type} (f : A -> bool) (l : list A) :
  forallb f (List.filter f l) = true.
Proof.
  induction l as [|x l IH]; [reflexivity|]. cbn [List.filter].
  destruct (f x) eqn:Hx; [|exact IH]. cbn [forallb]. rewrite Hx. exact IH.
Qed.

Lemma forallb_filter_impl {A : Type} (f g : A -> bool) (l : list A) :
  (forall x, f x = true -> g x = true) -> forallb g (List.filter f l) = true.
Proof.
  intros Hfg. induction l as [|x l IH]; [reflexivity|]. cbn [List.filter].
  destruct (f x) eqn:Hx; [|exact IH]. cbn [forallb]. rewrite (Hfg x Hx). exact IH.
Qed.

Lemma mathChar_not_x (c : ascii) :
  mathChar c = true -> negb (Ascii.eqb (JS.lowerChar c) (JS.lowerChar "x"%char)) = true.
Proof.
  destruct c as [[|] [|] [|] [|] [|] [|] [|] [|]]; vm_compute; intros H;
    first [reflexivity | discriminate H].
Qed.

(** X27.  [cleanExpression] deletes the white space, turns each [**] into
    [^], and then keeps only digits and the characters [+-*/^().]: its
    result holds no other character, so a letter [x] is deleted and never
    becomes [*]. *)
Theorem cleanExpression_keeps_math (expression : list ascii) :
  MathPlugin.cleanExpression expression =
    List.filter mathChar
      (Regex.replaceAll (Regex.word (chars "**")) (chars "^")
         (List.filter (fun c => negb (JS.isSpace c)) expression)) /\
  forallb mathChar (MathPlugin.cleanExpression expression) = true /\
  (forall letter, mathChar letter = false ->
     existsb (Ascii.eqb letter) (MathPlugin.cleanExpression expression) = false).
Proof.
  assert (Heq : MathPlugin.cleanExpression expression =
    List.filter mathChar
      (Regex.replaceAll (Regex.word (chars "**")) (chars "^")
         (List.filter (fun c => negb (JS.isSpace c)) expression))).
  { unfold MathPlugin.cleanExpression. cbv zeta.
    unfold Regex.replaceAll at 4. unfold Regex.space.
    rewrite replace_plus_class by lia.
    set (e2 := Regex.replaceAll _ _ (List.filter _ expression)).
    unfold Regex.replaceAll at 2. rewrite replace_class by lia.
    assert (Hf : List.filter (fun c => negb (negb (JS.isDigit c || Regex.oneOf "+-*/^()." c))) e2
                 = List.filter mathChar e2).
    { apply filter_ext. intros c. unfold mathChar. apply negb_involutive. }
    rewrite Hf. unfold Regex.replaceAll, Regex.litI.
    apply replace_class_absent.
    apply forallb_filter_impl. exact mathChar_not_x. }
  split; [exact Heq|]. rewrite Heq.
  split; [apply forallb_filter_impl; auto|].
  intros letter Hletter.
  apply not_true_is_false. intros Hex.
  apply existsb_exists in Hex as (c & Hin & Hc).
  apply Ascii.eqb_eq in Hc. subst c.
  apply filter_In in Hin as [_ Hm]. congruence.
Qed.
(** ** Triggers: a keyword anywhere in the message *)

Section Keywords.
Context (kw : list ascii) (Hkw : spaceless kw = true).

Lemma startsWith_stops (c : ascii) (b : list ascii) : JS.isSpace c = true ->
  forall a kw', spaceless kw' = true ->
    JS.startsWith kw' (a ++ c :: b) = JS.startsWith kw' a.
Proof.
  intros Hc. induction a as [|y a IH]; intros kw' Hk.
  - destruct kw' as [|x kw']; [reflexivity|]. cbn [app JS.startsWith].
    cbn [spaceless forallb] in Hk. apply andb_true_iff in Hk as [Hx _].
    destruct (Ascii.eqb_spec x c) as [->|_]; [|reflexivity].
    rewrite Hc in Hx. discriminate.
  - destruct kw' as [|x kw']; [reflexivity|]. cbn [app JS.startsWith].
    cbn [spaceless forallb] in Hk. apply andb_true_iff in Hk as [_ Hk].
    rewrite IH by exact Hk. reflexivity.
Qed.

Lemma includes_across (c : ascii) (a b : list ascii) : JS.isSpace c = true ->
  JS.includes (a ++ c :: b) kw = JS.includes a kw || JS.includes b kw.
Proof.
  intros Hc. induction a as [|y a IH].
  - cbn [app JS.includes].
    pose proof (startsWith_stops c b Hc [] kw Hkw) as Hs. cbn [app] in Hs. rewrite Hs.
    rewrite orb_false_r. reflexivity.
  - cbn [app JS.includes]. rewrite IH.
    pose proof (startsWith_stops c b Hc (y :: a) kw Hkw) as Hs. cbn [app] in Hs. rewrite Hs.
    apply orb_assoc.
Qed.

Lemma includes_dropWhile (b : list ascii) :
  JS.includes (JS.dropWhile JS.isSpace b) kw = JS.includes b kw.
Proof.
  induction b as [|c b IH]; [reflexivity|]. cbn [JS.dropWhile].
  destruct (JS.isSpace c) eqn:Hc; [|reflexivity].
  rewrite IH. pose proof (includes_across c [] b Hc) as Hs. cbn [app] in Hs. rewrite Hs.
  clear. destruct kw as [|x kw']; [destruct b; reflexivity|]. reflexivity.
Qed.

Lemma words_include (n : nat) : forall s cur, (length s <= n)%nat ->
  existsb (fun word => JS.includes word kw)
    (Regex.splitFrom n (Regex.Plus Regex.space) s cur) =
  JS.includes (cur ++ s) kw.
Proof.
  induction n as [|n IH]; intros s cur Hn.
  - destruct s; [|cbn in Hn; lia]. cbn. rewrite app_nil_r. apply orb_false_r.
  - destruct s as [|c s].
    + cbn. rewrite app_nil_r. apply orb_false_r.
    + cbn [Regex.splitFrom]. unfold Regex.space. rewrite matchAt_plus_class.
      destruct (JS.isSpace c) eqn:Hc.
      * rewrite bool_decide_eq_false_2.
        2:{ unfold Regex.consumed. rewrite length_take. cbn [length].
            pose proof (dropWhile_length JS.isSpace s). lia. }
        cbn [existsb]. rewrite IH.
        2:{ pose proof (dropWhile_length JS.isSpace s). cbn in Hn. lia. }
        cbn [app]. rewrite includes_dropWhile, (includes_across c cur s Hc). reflexivity.
      * rewrite IH by (cbn in Hn; lia). rewrite <- app_assoc. reflexivity.
Qed.

Lemma split_words_include (s : list ascii) :
  existsb (fun word => JS.includes word kw) (Regex.split (Regex.Plus Regex.space) s) =
  JS.includes s kw.
Proof.
  unfold Regex.split. destruct s as [|c s].
  - cbn. apply orb_false_r.
  - apply (words_include (length (c :: s)) (c :: s) []). lia.
Qed.

End Keywords.

Lemma someWordIncludes_mentions (keywords : list string) (userMessage : string) :
  forallb (fun keyword => spaceless (chars keyword)) keywords = true ->
  someWordIncludes keywords (lowerWords userMessage) = mentions keywords userMessage.
Proof.
  unfold someWordIncludes, mentions, lowerWords.
  induction keywords as [|keyword keywords IH]; intros Hk; [reflexivity|].
  cbn [forallb] in Hk. apply andb_true_iff in Hk as [Hkw Hk].
  cbn [existsb]. rewrite IH by exact Hk.
  rewrite (split_words_include (chars keyword) Hkw). reflexivity.
Qed.

(** X28.  A trigger looks for its keywords anywhere in the message in
    lower case, also inside a longer word: the weather plugin triggers
    exactly when the message contains one of its keywords; the arithmetic
    plugin exactly when the message holds a digit together with one of the
    characters [+-*/^%=()] or one of its keywords, and never without a
    digit. *)
Theorem triggers_match_anywhere (userMessage : string) :
  WeatherPlugin.shouldExecute userMessage =
    mentions WeatherPlugin.weatherKeywords userMessage /\
  MathPlugin.shouldExecute userMessage =
    existsb JS.isDigit (chars userMessage) &&
    (existsb (Regex.oneOf "+-*/^%=()") (chars userMessage)
     || mentions MathPlugin.mathKeywords userMessage).
Proof.
  split.
  - unfold WeatherPlugin.shouldExecute. apply someWordIncludes_mentions. reflexivity.
  - unfold MathPlugin.shouldExecute, Regex.digit. rewrite !test_class.
    rewrite someWordIncludes_mentions by reflexivity.
    destruct (existsb JS.isDigit _), (existsb (Regex.oneOf _) _), (mentions _ _);
      reflexivity.
Qed.

(** ** The location of a weather question *)

Section RunEquations.
Context {R : Type}.
Implicit Types (k : list ascii -> Regex.Captures -> option R).











End RunEquations.







(** ** What the routes keep of the sessions *)

Section Served.
Context (E : Env).

Lemma tidy_sessions w w' : sessions w' = sessions w -> tidy w -> tidy w'.
Proof. intros Hs Hw sid. unfold history. rewrite Hs. apply Hw. Qed.

Lemma lastN_Forall {A : Type} (P : A -> Prop) (n : nat) (l : list A) :
  Forall P l -> Forall P (lastN n l).
Proof. unfold lastN. apply Forall_drop. Qed.

Lemma turn_history (req : AgentMessage) (w : World) (sid : string) :
  exists extra,
    history (snd (AgentService.processMessage E req (tick w))) sid =
      (if decide (req_session_id req = sid)
       then lastN 20 (history w sid ++ extra)
       else history w sid) /\
    Forall (fun m => (role m = user /\ content m = message req) \/
                     (role m = assistant /\ content m <> "")) extra.
Proof.
  destruct (turn_before_chat E req (tick w))
    as (pr & sp & w2 & hist & _ & Hs & _ & _ & _ & Hrun).
  cbv zeta in Hrun. rewrite Hrun.
  set (w3 := emit (ChatCall sp (message req) hist) w2).
  assert (H3 : history w3 sid =
               if decide (req_session_id req = sid)
               then lastN 20 (history w sid ++ [appended E req (tick w)])
               else history w sid).
  { unfold history at 1. subst w3. cbn [sessions emit]. rewrite Hs. unfold userTurn.
    destruct (addMessage_history E (req_session_id req) user (message req) (tick (tick w)) sid)
      as [_ Hh]. unfold history at 1 in Hh. rewrite Hh.
    destruct (decide (req_session_id req = sid)) as [->|]; reflexivity. }
  destruct (generateContent E _) as [text|]; cbn [snd].
  - set (aiResponse := if bool_decide (text = "") then "No response generated" else text).
    assert (Hne : aiResponse <> "").
    { subst aiResponse. destruct (bool_decide (text = "")) eqn:Hb; [discriminate|].
      apply bool_decide_eq_false in Hb. exact Hb. }
    exists [appended E req (tick w);
            {| role := assistant; content := aiResponse; timestamp := clock E (time w3) |}].
    split.
    + destruct (addMessage_history E (req_session_id req) assistant aiResponse w3 sid)
        as [_ ->].
      destruct (decide (req_session_id req = sid)) as [Heq|]; [|exact H3].
      rewrite Heq, H3. unfold capped. rewrite lastN_app_lastN, <- app_assoc. reflexivity.
    + constructor; [left; split; reflexivity|].
      constructor; [right; split; [reflexivity|exact Hne]|constructor].
  - exists [appended E req (tick w)]. split; [exact H3|].
    constructor; [left; split; reflexivity|constructor].
Qed.

Lemma postMessage_tidy (body : AgentRouter.Body) (w : World) :
  tidy w -> tidy (snd (AgentRouter.postMessage E body w)).
Proof.
  intros Hw.
  destruct (postMessage_cases E body w) as (resp & w' & Hrun & Hcases).
  rewrite Hrun. cbn [snd].
  destruct (validBody body) eqn:Hvalid.
  - destruct Hcases as (response & Hturn & _).
    assert (Hw' : w' = snd (AgentService.processMessage E (requestOf body) (tick w)))
      by (rewrite Hturn; reflexivity).
    unfold validBody in Hvalid.
    destruct (AgentRouter.body_message body) as [| | | |m|] eqn:Hm; try discriminate.
    destruct (AgentRouter.body_session_id body) as [| | | |s|] eqn:Hs; try discriminate.
    apply andb_true_iff in Hvalid as [Hvalid Hlen].
    apply andb_true_iff in Hvalid as [Hne _].
    apply negb_true_iff, bool_decide_eq_false in Hne. apply Z.leb_le in Hlen.
    assert (Hmsg : message (requestOf body) = m).
    { unfold requestOf. rewrite Hm. reflexivity. }
    intros sid. destruct (turn_history (requestOf body) w sid) as (extra & Hh & Hextra).
    rewrite Hw', Hh. destruct (Hw sid) as [Hcap Hall].
    destruct (decide _); [|split; assumption].
    split; [apply lastN_length|]. apply lastN_Forall, Forall_app. split; [exact Hall|].
    eapply Forall_impl; [exact Hextra|]. cbv beta. intros msg [[Hr Hc]|[Hr Hc]].
    + rewrite Hmsg in Hc. split; [rewrite Hc; exact Hne|]. intros _. rewrite Hc. lia.
    + split; [exact Hc|]. rewrite Hr. discriminate.
  - destruct Hcases as (_ & _ & Hsess & _). eapply tidy_sessions; eassumption.
Qed.

Lemma serve_tidy (w : World) (request : Request) : tidy w -> tidy (serve E w request).
Proof.
  intros Hw. destruct request as [body| |sid|sid]; cbn [serve].
  - apply postMessage_tidy. exact Hw.
  - destruct (getHealth_run E w) as (health & w' & Hservice & ->). cbn [snd].
    destruct (getHealthStatus_run E (tick w)) as (health' & w2 & Hrun & _ & _ & _ & _ & Hs & _).
    rewrite Hservice in Hrun. injection Hrun as _ <-.
    eapply tidy_sessions; [exact Hs|exact Hw].
  - eapply tidy_sessions; [|exact Hw].
    unfold AgentRouter.getStats, AgentRouter.requestLogger, tryCatch,
      AgentService.getSessionStats, MemoryService.getSessionStats.
    rewrite !bind_run. cbn [nowISO]. rewrite !bind_run. cbn [gets tick sessions mret M_ret].
    destruct (sessions w !! sid); reflexivity.
  - intros sid'.
    assert (Hs : sessions (snd (AgentRouter.deleteSession E sid w)) = delete sid (sessions w))
      by reflexivity.
    unfold history. rewrite Hs.
    destruct (decide (sid = sid')) as [->|Hne].
    + rewrite lookup_delete_eq. split; [cbn; lia|constructor].
    + rewrite lookup_delete_ne by exact Hne. apply Hw.
Qed.

(** X30.  Whatever requests the routes have served since start-up, every
    session holds at most 20 messages, no stored message is empty, and no
    stored message of the user is longer than 2000 code units; every
    route keeps this. *)
Theorem routes_keep_sessions_tidy :
  (forall requests, tidy (served E requests emptyWorld)) /\
  (forall w request, tidy w -> tidy (serve E w request)).
Proof.
  split; [|apply serve_tidy].
  intros requests. unfold served.
  assert (Hstart : tidy emptyWorld).
  { intros sid. unfold history. cbn. rewrite lookup_empty. split; [cbn; lia|constructor]. }
  revert Hstart. generalize emptyWorld.
  induction requests as [|request requests IH]; intros w Hw; [exact Hw|].
  cbn [fold_left]. apply IH, serve_tidy. exact Hw.
Qed.

End Served.
